(** * nit: version control for agent cards

    A shallow embedding of the object store (objects.ts), the ref store
    (refs.ts), the diff engine (diff.ts), the identity derivation
    (identity.ts), the signed-request construction (remote.ts) and the
    repository operations (index.ts), with the properties of the
    specification stated over them, and further properties of the code.

    Conventions of the embedding.
    - A JavaScript string is the list of its UTF-16 code units, each a [Z].
    - A byte is a [Z] in [0, 256); a 32-bit word is a [Z] with the
      wrap-around written out ([mod 2^32]).
    - The files under [.nit/] and the working card are one finite map from
      the joined path text to the text [fs.readFile(_, 'utf-8')] returns.
    - A thrown exception is an [Err] result that carries the message; the
      state reached before the throw is kept, as on a real disk. *)

From Stdlib Require Import ZArith List Lia Bool String Ascii.
From stdpp Require Import gmap list strings.
Import ListNotations.
Local Open Scope Z_scope.

(* ===================================================================== *)
(** ** JavaScript strings and numbers                                     *)
(* ===================================================================== *)

Abbreviation jstr := (list Z).

(** An ASCII literal as a list of code units. *)
Definition lit (s : string) : jstr :=
  List.map (fun a => Z.of_N (N_of_ascii a)) (list_ascii_of_string s).

Definition LF : Z := 10.
Definition SP : Z := 32.

(** [Number] values the modelled code meets: integers, and the [NaN] that
    [parseInt] returns on a text without digits.  Exact for the safe
    integers, where [Number::toString] prints plain decimal digits. *)
Inductive jsnum :=
| NaN
| Num (z : Z).

Definition digit_char (d : Z) : Z := 48 + d.

Fixpoint pos_digits (fuel : nat) (n : Z) (acc : jstr) : jstr :=
  match fuel with
  | O => acc
  | S fuel' =>
      if n <? 10 then digit_char n :: acc
      else pos_digits fuel' (n / 10) (digit_char (n mod 10) :: acc)
  end.

(** Decimal digits of a natural number; its bit length bounds the number
    of digits. *)
Definition nat_digits (n : Z) : jstr :=
  pos_digits (S (Z.to_nat (Z.log2 n))) n [].

(** [String(n)] for an integer [n]. *)
Definition Z_toString (n : Z) : jstr :=
  if n <? 0 then 45 :: nat_digits (- n) else nat_digits n.

(** [Number::toString] on these values.  The plain digits are what
    JavaScript prints for a safe integer; from 1e21 on it prints the
    exponent form, which is outside this model. *)
Definition Number_toString (n : jsnum) : jstr :=
  match n with
  | NaN => lit "NaN"
  | Num z => Z_toString z
  end.

(** White space and line terminators, as [String.prototype.trim] and
    [parseInt] strip them. *)
Definition is_js_space (c : Z) : bool :=
  ((9 <=? c) && (c <=? 13)) || (c =? 32) || (c =? 160) || (c =? 0x1680)
  || ((0x2000 <=? c) && (c <=? 0x200A)) || (c =? 0x2028) || (c =? 0x2029)
  || (c =? 0x202F) || (c =? 0x205F) || (c =? 0x3000) || (c =? 0xFEFF).

Fixpoint trim_start (s : jstr) : jstr :=
  match s with
  | c :: s' => if is_js_space c then trim_start s' else s
  | [] => []
  end.

Definition trim (s : jstr) : jstr :=
  List.rev (trim_start (List.rev (trim_start s))).

Definition is_digit (c : Z) : bool := (48 <=? c) && (c <=? 57).

Fixpoint read_digits (s : jstr) (acc : option Z) : option Z :=
  match s with
  | c :: s' =>
      if is_digit c
      then read_digits s' (Some (10 * default 0 acc + (c - 48)))
      else acc
  | [] => acc
  end.

(** [parseInt(s, 10)]: the integer the digits denote, which is the
    [Number] JavaScript returns when that integer is a safe one (beyond,
    it returns the nearest double). *)
Definition parseInt (s : jstr) : jsnum :=
  let s1 := trim_start s in
  let '(neg, s2) :=
    match s1 with
    | c :: r => if c =? 45 then (true, r)
                else if c =? 43 then (false, r)
                else (false, s1)
    | [] => (false, s1)
    end in
  match read_digits s2 None with
  | None => NaN
  | Some n => Num (if neg : bool then - n else n)
  end.

(** [s.startsWith(p)]. *)
Fixpoint startsWith (p s : jstr) : bool :=
  match p, s with
  | [], _ => true
  | a :: p', b :: s' => (a =? b) && startsWith p' s'
  | _ :: _, [] => false
  end.

(** [s.includes(p)]. *)
Fixpoint includes (p s : jstr) : bool :=
  startsWith p s ||
  match s with
  | [] => false
  | _ :: s' => includes p s'
  end.

(** Index normalisation of [String.prototype.slice]: a negative index
    counts from the end, and the result is clamped to [0, len]. *)
Definition slice_index (len i : Z) : Z :=
  if i <? 0 then Z.max (len + i) 0 else Z.min i len.

(** [s.slice(from, to)]. *)
Definition slice (s : jstr) (from to : Z) : jstr :=
  let len := Z.of_nat (length s) in
  let a := slice_index len from in
  let b := slice_index len to in
  take (Z.to_nat (b - a)) (drop (Z.to_nat a) s).

(** [s.slice(from)]. *)
Definition slice_from (s : jstr) (from : Z) : jstr :=
  slice s from (Z.of_nat (length s)).

(** [s.lastIndexOf(c)] for a one-character pattern. *)
Fixpoint lastIndexOf_from (c : Z) (s : jstr) (i : Z) (found : Z) : Z :=
  match s with
  | [] => found
  | x :: s' => lastIndexOf_from c s' (i + 1) (if x =? c then i else found)
  end.

Definition lastIndexOf (c : Z) (s : jstr) : Z := lastIndexOf_from c s 0 (-1).

(** [s.split(sep)] for a one-character separator: never empty. *)
Fixpoint split_on (sep : Z) (s : jstr) : list jstr :=
  match s with
  | [] => [[]]
  | c :: s' =>
      if c =? sep then [] :: split_on sep s'
      else match split_on sep s' with
           | l :: ls => (c :: l) :: ls
           | [] => [[c]]
           end
  end.

(** [parts.join(sep)]. *)
Fixpoint join (sep : jstr) (parts : list jstr) : jstr :=
  match parts with
  | [] => []
  | [p] => p
  | p :: ps => p ++ sep ++ join sep ps
  end.

(* ===================================================================== *)
(** ** UTF-8 and hexadecimal                                              *)
(* ===================================================================== *)

Definition is_high_surrogate (u : Z) : bool := (0xD800 <=? u) && (u <? 0xDC00).
Definition is_low_surrogate (u : Z) : bool := (0xDC00 <=? u) && (u <? 0xE000).

Definition utf8_3 (u : Z) : list Z :=
  [Z.lor 0xE0 (Z.shiftr u 12);
   Z.lor 0x80 (Z.land (Z.shiftr u 6) 0x3F);
   Z.lor 0x80 (Z.land u 0x3F)].

Definition utf8_4 (cp : Z) : list Z :=
  [Z.lor 0xF0 (Z.shiftr cp 18);
   Z.lor 0x80 (Z.land (Z.shiftr cp 12) 0x3F);
   Z.lor 0x80 (Z.land (Z.shiftr cp 6) 0x3F);
   Z.lor 0x80 (Z.land cp 0x3F)].

(** [Buffer.from(s, 'utf-8')]: surrogate pairs are combined, a lone
    surrogate becomes U+FFFD. *)
Fixpoint utf8_encode (s : jstr) : list Z :=
  match s with
  | [] => []
  | u :: rest =>
      if u <? 0x80 then u :: utf8_encode rest
      else if u <? 0x800 then
        Z.lor 0xC0 (Z.shiftr u 6) :: Z.lor 0x80 (Z.land u 0x3F)
          :: utf8_encode rest
      else if is_high_surrogate u then
        match rest with
        | l :: rest' =>
            if is_low_surrogate l
            then utf8_4 (0x10000 + Z.shiftl (u - 0xD800) 10 + (l - 0xDC00))
                   ++ utf8_encode rest'
            else utf8_3 0xFFFD ++ utf8_encode rest
        | [] => utf8_3 0xFFFD
        end
      else if is_low_surrogate u then utf8_3 0xFFFD ++ utf8_encode rest
      else utf8_3 u ++ utf8_encode rest
  end.

(** What a text becomes once written as UTF-8 and read back: lone
    surrogates are replaced by U+FFFD. *)
Fixpoint toWellFormed (s : jstr) : jstr :=
  match s with
  | [] => []
  | u :: rest =>
      if is_high_surrogate u then
        match rest with
        | l :: rest' =>
            if is_low_surrogate l then u :: l :: toWellFormed rest'
            else 0xFFFD :: toWellFormed rest
        | [] => [0xFFFD]
        end
      else if is_low_surrogate u then 0xFFFD :: toWellFormed rest
      else u :: toWellFormed rest
  end.

Definition hex_digit (d : Z) : Z := if d <? 10 then 48 + d else 87 + d.

(** Two lowercase hexadecimal characters of a byte. *)
Definition hex_byte (b : Z) : jstr := [hex_digit (b / 16); hex_digit (b mod 16)].

(** [buf.toString('hex')] and [digest('hex')]. *)
Definition hex_encode (bs : list Z) : jstr := List.concat (List.map hex_byte bs).

Definition hex_value (c : Z) : option Z :=
  if (48 <=? c) && (c <=? 57) then Some (c - 48)
  else if (97 <=? c) && (c <=? 102) then Some (c - 87)
  else if (65 <=? c) && (c <=? 70) then Some (c - 55)
  else None.

(** [Buffer.from(s, 'hex')]: decoding stops at the first pair that is not
    two hexadecimal characters. *)
Fixpoint hex_decode (s : jstr) : list Z :=
  match s with
  | a :: b :: rest =>
      match hex_value a, hex_value b with
      | Some x, Some y => (16 * x + y) :: hex_decode rest
      | _, _ => []
      end
  | _ => []
  end.

(* ===================================================================== *)
(** ** node:crypto hashes: SHA-256 and SHA-1                              *)
(* ===================================================================== *)

Definition w32 (x : Z) : Z := x mod 2 ^ 32.
Definition add32 (a b : Z) : Z := w32 (a + b).
Definition rotr32 (n x : Z) : Z := w32 (Z.lor (Z.shiftr x n) (Z.shiftl x (32 - n))).
Definition rotl32 (n x : Z) : Z := w32 (Z.lor (Z.shiftl x n) (Z.shiftr x (32 - n))).
Definition not32 (x : Z) : Z := Z.lxor x 0xFFFFFFFF.

(** The [n] low bytes of [x], most significant first. *)
Fixpoint be_bytes (n : nat) (x : Z) : list Z :=
  match n with
  | O => []
  | S n' => Z.shiftr x (8 * Z.of_nat n') mod 256 :: be_bytes n' x
  end.

(** Merkle-Damgard padding shared by both hashes: a 1 bit, zeros up to 56
    modulo 64, and the bit length on 8 bytes. *)
Definition md_pad (msg : list Z) : list Z :=
  let len := Z.of_nat (length msg) in
  msg ++ [0x80] ++ List.repeat 0 (Z.to_nat ((55 - len) mod 64))
      ++ be_bytes 8 (8 * len).

Fixpoint be_words (bs : list Z) : list Z :=
  match bs with
  | a :: b :: c :: d :: rest =>
      Z.lor (Z.lor (Z.shiftl a 24) (Z.shiftl b 16)) (Z.lor (Z.shiftl c 8) d)
        :: be_words rest
  | _ => []
  end.

Fixpoint blocks16 (fuel : nat) (ws : list Z) : list (list Z) :=
  match fuel with
  | O => []
  | S fuel' =>
      match ws with
      | [] => []
      | _ => take 16 ws :: blocks16 fuel' (drop 16 ws)
      end
  end.

Definition md_blocks (msg : list Z) : list (list Z) :=
  let ws := be_words (md_pad msg) in blocks16 (length ws) ws.

Definition wd (i : nat) (w : list Z) : Z := List.nth i w 0.

Definition primes64 : list Z :=
  [2; 3; 5; 7; 11; 13; 17; 19; 23; 29; 31; 37; 41; 43; 47; 53; 59; 61; 67; 71;
   73; 79; 83; 89; 97; 101; 103; 107; 109; 113; 127; 131; 137; 139; 149; 151;
   157; 163; 167; 173; 179; 181; 191; 193; 197; 199; 211; 223; 227; 229; 233;
   239; 241; 251; 257; 263; 269; 271; 277; 281; 283; 293; 307; 311].

(** The integer cube root, by bisection between [lo] and [hi]. *)
Fixpoint cbrt_search (fuel : nat) (lo hi n : Z) : Z :=
  match fuel with
  | O => lo
  | S fuel' =>
      if hi <=? lo then lo
      else
        let mid := (lo + hi + 1) / 2 in
        if mid * mid * mid <=? n then cbrt_search fuel' mid hi n
        else cbrt_search fuel' lo (mid - 1) n
  end.

Definition icbrt (n : Z) : Z := cbrt_search 64 0 (2 ^ 40) n.

Module SHA256.

(** The round constants: the first 32 bits of the fractional parts of the
    cube roots of the first 64 primes. *)
Definition K : list Z :=
  Eval vm_compute in
    List.map (fun p => icbrt (p * 2 ^ 96) mod 2 ^ 32) primes64.

(** The initial state: the same of the square roots of the first 8
    primes. *)
Definition H0 : list Z :=
  Eval vm_compute in
    List.map (fun p => Z.sqrt (p * 2 ^ 64) mod 2 ^ 32) (take 8 primes64).

Definition Ch (x y z : Z) : Z := Z.lxor (Z.land x y) (Z.land (not32 x) z).
Definition Maj (x y z : Z) : Z :=
  Z.lxor (Z.lxor (Z.land x y) (Z.land x z)) (Z.land y z).
Definition bsig0 (x : Z) : Z :=
  Z.lxor (Z.lxor (rotr32 2 x) (rotr32 13 x)) (rotr32 22 x).
Definition bsig1 (x : Z) : Z :=
  Z.lxor (Z.lxor (rotr32 6 x) (rotr32 11 x)) (rotr32 25 x).
Definition ssig0 (x : Z) : Z :=
  Z.lxor (Z.lxor (rotr32 7 x) (rotr32 18 x)) (Z.shiftr x 3).
Definition ssig1 (x : Z) : Z :=
  Z.lxor (Z.lxor (rotr32 17 x) (rotr32 19 x)) (Z.shiftr x 10).

(** The message schedule beyond the block: [w] holds the last 16 words,
    oldest first. *)
Fixpoint schedule (n : nat) (w : list Z) : list Z :=
  match n with
  | O => []
  | S n' =>
      let x := add32 (add32 (ssig1 (wd 14 w)) (wd 9 w))
                     (add32 (ssig0 (wd 1 w)) (wd 0 w)) in
      x :: schedule n' (List.tl w ++ [x])
  end.

Definition round (st : list Z) (kw : Z * Z) : list Z :=
  let t1 := add32 (add32 (add32 (wd 7 st) (bsig1 (wd 4 st)))
                         (Ch (wd 4 st) (wd 5 st) (wd 6 st)))
                  (add32 (fst kw) (snd kw)) in
  let t2 := add32 (bsig0 (wd 0 st)) (Maj (wd 0 st) (wd 1 st) (wd 2 st)) in
  [add32 t1 t2; wd 0 st; wd 1 st; wd 2 st;
   add32 (wd 3 st) t1; wd 4 st; wd 5 st; wd 6 st].

Definition compress (h block : list Z) : list Z :=
  let w := block ++ schedule 48 block in
  let st := List.fold_left round (List.combine K w) h in
  List.map (fun p => add32 (fst p) (snd p)) (List.combine h st).

(** The 32-byte digest. *)
Definition digest (msg : list Z) : list Z :=
  List.concat (List.map (be_bytes 4) (List.fold_left compress (md_blocks msg) H0)).

End SHA256.

Module SHA1.

Definition H0 : list Z :=
  [0x67452301; 0xEFCDAB89; 0x98BADCFE; 0x10325476; 0xC3D2E1F0].

Fixpoint schedule (n : nat) (w : list Z) : list Z :=
  match n with
  | O => []
  | S n' =>
      let x := rotl32 1 (Z.lxor (Z.lxor (wd 13 w) (wd 8 w))
                                (Z.lxor (wd 2 w) (wd 0 w))) in
      x :: schedule n' (List.tl w ++ [x])
  end.

Definition f (t : nat) (b c d : Z) : Z :=
  if (t <? 20)%nat then Z.lor (Z.land b c) (Z.land (not32 b) d)
  else if (t <? 40)%nat then Z.lxor (Z.lxor b c) d
  else if (t <? 60)%nat then
    Z.lor (Z.lor (Z.land b c) (Z.land b d)) (Z.land c d)
  else Z.lxor (Z.lxor b c) d.

Definition k (t : nat) : Z :=
  if (t <? 20)%nat then 0x5A827999
  else if (t <? 40)%nat then 0x6ED9EBA1
  else if (t <? 60)%nat then 0x8F1BBCDC
  else 0xCA62C1D6.

Definition round (st : list Z) (tw : nat * Z) : list Z :=
  let t := fst tw in
  let tmp := add32 (add32 (rotl32 5 (wd 0 st))
                          (f t (wd 1 st) (wd 2 st) (wd 3 st)))
                   (add32 (add32 (wd 4 st) (k t)) (snd tw)) in
  [tmp; wd 0 st; rotl32 30 (wd 1 st); wd 2 st; wd 3 st].

Definition compress (h block : list Z) : list Z :=
  let w := block ++ schedule 64 block in
  let st := List.fold_left round (List.combine (List.seq 0 80) w) h in
  List.map (fun p => add32 (fst p) (snd p)) (List.combine h st).

(** The 20-byte digest. *)
Definition digest (msg : list Z) : list Z :=
  List.concat (List.map (be_bytes 4) (List.fold_left compress (md_blocks msg) H0)).

End SHA1.

(** [createHash(alg)]: the hash object accumulates what [update] feeds it
    and [digest] hashes the whole. *)
Inductive algorithm := sha1 | sha256.

Record Hash := { hash_alg : algorithm; hash_data : list Z }.

Definition createHash (alg : algorithm) : Hash :=
  {| hash_alg := alg; hash_data := [] |}.

(** [hash.update(buf)]. *)
Definition update (h : Hash) (bytes : list Z) : Hash :=
  {| hash_alg := hash_alg h; hash_data := hash_data h ++ bytes |}.

(** [hash.update(str)] and [hash.update(str, 'utf-8')]. *)
Definition update_str (h : Hash) (s : jstr) : Hash := update h (utf8_encode s).

(** [hash.digest()]. *)
Definition digest (h : Hash) : list Z :=
  match hash_alg h with
  | sha1 => SHA1.digest (hash_data h)
  | sha256 => SHA256.digest (hash_data h)
  end.

(** [hash.digest('hex')]. *)
Definition digest_hex (h : Hash) : jstr := hex_encode (digest h).

(* ===================================================================== *)
(** ** JSON values                                                        *)
(* ===================================================================== *)

(** A value as [JSON.parse] builds it.  An object is the list of its
    properties in enumeration order.  A number is kept as its canonical
    text ([Number::toString]), which decides both its equality and its
    serialisation; its characters are ASCII.  [undefined] is [None] in an
    [option json]. *)
#[local] Set Warnings "-register-all".
Inductive json :=
| JNull
| JBool (b : bool)
| JNum (text : string)
| JStr (s : jstr)
| JArr (items : list json)
| JObj (props : list (jstr * json)).

(** Property read [o[k]] on an object. *)
Fixpoint lookup_prop (k : jstr) (props : list (jstr * json)) : option json :=
  match props with
  | [] => None
  | (k', v) :: rest => if decide (k' = k) then Some v else lookup_prop k rest
  end.

(** Property write on a fresh copy: an existing key keeps its place, a new
    key goes last. *)
Fixpoint set_prop (k : jstr) (v : json) (props : list (jstr * json))
  : list (jstr * json) :=
  match props with
  | [] => [(k, v)]
  | (k', v') :: rest =>
      if decide (k' = k) then (k, v) :: rest else (k', v') :: set_prop k v rest
  end.

(** [j[k]] where [j] came out of [JSON.parse] and is not [null]: arrays
    and primitives have no such named property. *)
Definition get (k : jstr) (j : json) : option json :=
  match j with
  | JObj props => lookup_prop k props
  | _ => None
  end.

Definition hex4 (u : Z) : jstr :=
  [hex_digit (Z.shiftr u 12 mod 16); hex_digit (Z.shiftr u 8 mod 16);
   hex_digit (Z.shiftr u 4 mod 16); hex_digit (u mod 16)].

Definition unicode_escape (u : Z) : jstr := 92 :: 117 :: hex4 u.

(** The body of [QuoteJSONString]. *)
Fixpoint quote_body (s : jstr) : jstr :=
  match s with
  | [] => []
  | u :: rest =>
      if is_high_surrogate u then
        match rest with
        | l :: rest' =>
            if is_low_surrogate l then u :: l :: quote_body rest'
            else unicode_escape u ++ quote_body rest
        | [] => unicode_escape u
        end
      else if is_low_surrogate u then unicode_escape u ++ quote_body rest
      else if u =? 8 then 92 :: 98 :: quote_body rest
      else if u =? 9 then 92 :: 116 :: quote_body rest
      else if u =? 10 then 92 :: 110 :: quote_body rest
      else if u =? 12 then 92 :: 102 :: quote_body rest
      else if u =? 13 then 92 :: 114 :: quote_body rest
      else if u =? 34 then 92 :: 34 :: quote_body rest
      else if u =? 92 then 92 :: 92 :: quote_body rest
      else if u <? 32 then unicode_escape u ++ quote_body rest
      else u :: quote_body rest
  end.

Definition quote (s : jstr) : jstr := 34 :: quote_body s ++ [34].

(** [SerializeJSONProperty] for a value without [undefined]: [gap] is the
    indentation unit (empty for the compact form) and [indent] the current
    indentation. *)
Fixpoint serialize (gap indent : jstr) (j : json) : jstr :=
  let stepback := indent in
  let indent := indent ++ gap in
  let wrap (opening closing : Z) (partial : list jstr) : jstr :=
    match partial with
    | [] => [opening; closing]
    | _ =>
        match gap with
        | [] => opening :: join [44] partial ++ [closing]
        | _ => opening :: LF :: indent ++ join (44 :: LF :: indent) partial
                 ++ LF :: stepback ++ [closing]
        end
    end in
  match j with
  | JNull => lit "null"
  | JBool true => lit "true"
  | JBool false => lit "false"
  | JNum text => lit text
  | JStr s => quote s
  | JArr items => wrap 91 93 (List.map (serialize gap indent) items)
  | JObj props =>
      wrap 123 125
        (List.map (fun kv => let '(k, v) := kv in
                    quote k ++ 58 :: match gap with [] => [] | _ => [SP] end
                            ++ serialize gap indent v) props)
  end.

(** [JSON.stringify(v)]; [undefined] gives [undefined]. *)
Definition JSON_stringify (v : option json) : option jstr :=
  option_map (serialize [] []) v.

(** [JSON.stringify(v, null, 2)] on a value. *)
Definition JSON_stringify2 (v : json) : jstr := serialize [SP; SP] [] v.

(** Strict equality of two values read from distinct object graphs (two
    results of [JSON.parse], or two places of one result): primitives are
    compared by value, an object or an array is only equal to itself. *)
Definition strict_eq (a b : option json) : bool :=
  match a, b with
  | None, None => true
  | Some JNull, Some JNull => true
  | Some (JBool x), Some (JBool y) => Bool.eqb x y
  | Some (JNum x), Some (JNum y) => bool_decide (x = y)
  | Some (JStr x), Some (JStr y) => bool_decide (x = y)
  | _, _ => false
  end.

(** [ToBoolean]. *)
Definition truthy (v : option json) : bool :=
  match v with
  | None | Some JNull | Some (JBool false) | Some (JStr []) => false
  | Some (JNum t) => negb (bool_decide (t = "0"%string))
  | _ => true
  end.

(** [String(v)], as a template literal applies it. *)
Fixpoint ToString (v : json) : jstr :=
  match v with
  | JNull => lit "null"
  | JBool true => lit "true"
  | JBool false => lit "false"
  | JNum t => lit t
  | JStr s => s
  | JArr items =>
      join [44] (List.map (fun x => match x with
                                    | JNull => []
                                    | _ => ToString x
                                    end) items)
  | JObj _ => lit "[object Object]"
  end.

(* ===================================================================== *)
(** ** Exceptions and the file store                                      *)
(* ===================================================================== *)

Inductive exn :=
| Error (msg : jstr)
| TypeError (msg : jstr)
| SyntaxError (msg : jstr).

(** [err.message]. *)
Definition exn_message (e : exn) : jstr :=
  match e with
  | Error m | TypeError m | SyntaxError m => m
  end.

Inductive result (A : Type) :=
| Ok (a : A)
| Err (e : exn).
Arguments Ok {A} a.
Arguments Err {A} e.

(** The files, keyed by path text relative to [.nit/] (the working card is
    [../agent-card.json]).  Distinct texts are distinct files: the path
    normalisation of [join] is not modelled. *)
Abbreviation files := (gmap jstr jstr).

(** An [async] function over the files: it returns or throws, and leaves
    the files as they are at that point. *)
Definition M (A : Type) : Type := files -> result A * files.

Definition ret {A} (a : A) : M A := fun fs => (Ok a, fs).
Definition throw {A} (e : exn) : M A := fun fs => (Err e, fs).

Definition bind {A B} (m : M A) (k : A -> M B) : M B :=
  fun fs =>
    match m fs with
    | (Ok a, fs') => k a fs'
    | (Err e, fs') => (Err e, fs')
    end.

(** [try { m } catch (err) { handler(err) }]. *)
Definition try_catch {A} (m : M A) (handler : exn -> M A) : M A :=
  fun fs =>
    match m fs with
    | (Ok a, fs') => (Ok a, fs')
    | (Err e, fs') => handler e fs'
    end.

(** A pure function that may throw, called inside an [async] one. *)
Definition lift {A} (r : result A) : M A := fun fs => (r, fs).

Notation "'let*' x ':=' m 'in' k" := (bind m (fun x => k))
  (at level 10, x pattern, m at level 100, k at level 200).

Definition ENOENT (path : jstr) : exn :=
  Error (lit "ENOENT: no such file or directory, open '" ++ path ++ lit "'").

(** [fs.readFile(path, 'utf-8')]. *)
Definition readFile (path : jstr) : M jstr :=
  fun fs =>
    match fs !! path with
    | Some content => (Ok content, fs)
    | None => (Err (ENOENT path), fs)
    end.

(** [fs.access(path)]. *)
Definition access (path : jstr) : M unit :=
  fun fs =>
    match fs !! path with
    | Some _ => (Ok tt, fs)
    | None => (Err (ENOENT path), fs)
    end.

(** [fs.writeFile(path, content, 'utf-8')]: the text is stored as UTF-8,
    so a later read sees it well-formed.  Directories are not modelled
    ([fs.mkdir(_, {recursive: true})] changes no file), and a write always
    succeeds. *)
Definition writeFile (path content : jstr) : M unit :=
  fun fs => (Ok tt, <[path := toWellFormed content]> fs).

(* ===================================================================== *)
(** ** objects.ts: the content-addressable object store                   *)
(* ===================================================================== *)

(** The object type ['card' | 'commit']. *)
Inductive objtype := Tcard | Tcommit.

Definition objtype_name (t : objtype) : jstr :=
  match t with
  | Tcard => lit "card"
  | Tcommit => lit "commit"
  end.

Definition hashObject (type : objtype) (content : jstr) : jstr :=
  let buf := utf8_encode content in
  let header := objtype_name type ++ [SP]
                  ++ Z_toString (Z.of_nat (length buf)) ++ [0] in
  let hash := createHash sha256 in
  let hash := update_str hash header in
  let hash := update hash buf in
  digest_hex hash.

(** [join(nitDir, 'objects', hex.slice(0, 2), hex.slice(2))], relative to
    [nitDir]. *)
Definition object_path (hex : jstr) : jstr :=
  lit "objects/" ++ slice hex 0 2 ++ lit "/" ++ slice_from hex 2.

Definition writeObject (type : objtype) (content : jstr) : M jstr :=
  let hex := hashObject type content in
  let file := object_path hex in
  let* stored := try_catch (let* _ := access file in ret true)
                           (fun _ => ret false) in
  if stored : bool then ret hex
  else
    let* _ := writeFile file content in
    ret hex.

Definition readObject (hash : jstr) : M jstr :=
  try_catch (readFile (object_path hash))
            (fun _ => throw (Error (lit "Object not found: " ++ hash))).

Definition objectExists (hash : jstr) : M bool :=
  try_catch (let* _ := access (object_path hash) in ret true)
            (fun _ => ret false).

(** [Omit<NitCommit, 'type' | 'hash'>]. *)
Record CommitData := {
  card : jstr;
  parent : option jstr;
  author : jstr;
  timestamp : jsnum;
  message : jstr
}.

(** [NitCommit]; its [type] field is the constant ['commit']. *)
Record NitCommit := {
  hash : jstr;
  data :> CommitData
}.

Definition serializeCommit (c : CommitData) : jstr :=
  let lines := [lit "card " ++ card c] in
  let lines :=
    match parent c with
    | Some p => lines ++ [lit "parent " ++ p]
    | None => lines
    end in
  let lines := lines ++ [lit "author " ++ author c ++ [SP]
                           ++ Number_toString (timestamp c)] in
  let lines := lines ++ [[]] in
  let lines := lines ++ [message c] in
  join [LF] lines.

(** One turn of the header loop of [parseCommit] on a non-empty line. *)
Definition parse_header (line : jstr) (acc : CommitData) : CommitData :=
  if startsWith (lit "card ") line then
    {| card := slice_from line 5; parent := parent acc; author := author acc;
       timestamp := timestamp acc; message := message acc |}
  else if startsWith (lit "parent ") line then
    {| card := card acc; parent := Some (slice_from line 7);
       author := author acc; timestamp := timestamp acc;
       message := message acc |}
  else if startsWith (lit "author ") line then
    let authorPart := slice_from line 7 in
    let lastSpace := lastIndexOf SP authorPart in
    {| card := card acc; parent := parent acc;
       author := slice authorPart 0 lastSpace;
       timestamp := parseInt (slice_from authorPart (lastSpace + 1));
       message := message acc |}
  else acc.

(** The loop of [parseCommit]: headers up to the first empty line; the
    lines after it, when there is one, are the message. *)
Fixpoint parse_lines (lines : list jstr) (acc : CommitData)
  : CommitData * option (list jstr) :=
  match lines with
  | [] => (acc, None)
  | [] :: rest => (acc, Some rest)
  | line :: rest => parse_lines rest (parse_header line acc)
  end.

Definition parseCommit (hash : jstr) (raw : jstr) : result NitCommit :=
  let lines := split_on LF raw in
  let init := {| card := []; parent := None; author := [];
                 timestamp := Num 0; message := [] |} in
  let '(acc, messageStart) := parse_lines lines init in
  match card acc with
  | [] => Err (Error (lit "Malformed commit object " ++ hash
                        ++ lit ": missing card hash"))
  | _ =>
      let message :=
        match messageStart with
        | Some rest => join [LF] rest
        | None => []
        end in
      Ok {| hash := hash;
            data := {| card := card acc; parent := parent acc;
                       author := author acc; timestamp := timestamp acc;
                       message := message |} |}
  end.

(* ===================================================================== *)
(** ** refs.ts: HEAD and branch refs                                      *)
(* ===================================================================== *)

Definition HEAD_PATH : jstr := lit "HEAD".
Definition heads_prefix : jstr := lit "refs/heads/".

(** [getHead]: the [ref] of the symbolic HEAD. *)
Definition getHead : M jstr :=
  let* raw := readFile HEAD_PATH in
  let content := trim raw in
  if negb (startsWith (lit "ref: ") content) then
    throw (Error (lit "HEAD is in an unexpected state: " ++ [34] ++ content
                    ++ [34] ++ lit ". Only symbolic refs are supported."))
  else ret (slice_from content 5).

Definition resolveHead : M jstr :=
  let* ref := getHead in
  try_catch (let* c := readFile ref in ret (trim c))
            (fun _ => throw (Error (lit "Branch ref " ++ ref
                       ++ lit " does not exist. Repository may be empty."))).

Definition getCurrentBranch : M jstr :=
  let* ref := getHead in
  if negb (startsWith heads_prefix ref) then
    throw (Error (lit "HEAD ref has unexpected format: " ++ ref))
  else ret (slice_from ref (Z.of_nat (length heads_prefix))).

Definition setBranch (branch commitHash : jstr) : M unit :=
  writeFile (heads_prefix ++ branch) (commitHash ++ [LF]).

(** [getBranch]: [null] is [None]. *)
Definition getBranch (branch : jstr) : M (option jstr) :=
  try_catch (let* c := readFile (heads_prefix ++ branch) in ret (Some (trim c)))
            (fun _ => ret None).

Definition setHead (branch : jstr) : M unit :=
  writeFile HEAD_PATH (lit "ref: refs/heads/" ++ branch ++ [LF]).

(** Truthiness of a [string | null]. *)
Definition nonempty (h : option jstr) : bool :=
  match h with
  | Some (_ :: _) => true
  | _ => false
  end.

(* ===================================================================== *)
(** ** diff.ts: the diff engine                                           *)
(* ===================================================================== *)

Record FieldDiff := {
  field : jstr;
  old : option json;
  new : option json
}.

(** The skill id lists hold whatever value the [id] property of a skill
    is; the interface declares it a string. *)
Record DiffResult := {
  changed : bool;
  fields : list FieldDiff;
  skillsAdded : list (option json);
  skillsRemoved : list (option json);
  skillsModified : list (option json)
}.

(** A JavaScript [Map] keyed by values: insertion order, and a key that is
    set again keeps its place. *)
Abbreviation jsmap := (list (option json * json)).

Fixpoint Map_set (k : option json) (v : json) (m : jsmap) : jsmap :=
  match m with
  | [] => [(k, v)]
  | (k', v') :: rest =>
      if strict_eq k' k then (k', v) :: rest else (k', v') :: Map_set k v rest
  end.

(** [new Map(entries)]. *)
Definition Map_of (entries : jsmap) : jsmap :=
  List.fold_left (fun m kv => Map_set (fst kv) (snd kv) m) entries [].

Fixpoint Map_get (k : option json) (m : jsmap) : option json :=
  match m with
  | [] => None
  | (k', v) :: rest => if strict_eq k' k then Some v else Map_get k rest
  end.

Definition Map_has (k : option json) (m : jsmap) : bool :=
  match Map_get k m with
  | Some _ => true
  | None => false
  end.

Definition not_readable (what prop : string) : exn :=
  TypeError (lit "Cannot read properties of " ++ lit what ++ lit " (reading '"
               ++ lit prop ++ lit "')").

Definition not_a_function (what : string) : exn :=
  TypeError (lit what ++ lit " is not a function").

(** [skills.map((s) => [s.id, s])]: the receiver must be an array and no
    element may be [null]. *)
Fixpoint skill_entries (items : list json) : result jsmap :=
  match items with
  | [] => Ok []
  | JNull :: _ => Err (not_readable "null" "id")
  | s :: rest =>
      match skill_entries rest with
      | Ok es => Ok ((get (lit "id") s, s) :: es)
      | Err e => Err e
      end
  end.

Definition skills_entries (card : json) : result jsmap :=
  match get (lit "skills") card with
  | None => Err (not_readable "undefined" "map")
  | Some JNull => Err (not_readable "null" "map")
  | Some (JArr items) => skill_entries items
  | Some _ => Err (not_a_function "skills.map")
  end.

Definition scalarFields : list jstr :=
  [lit "protocolVersion"; lit "name"; lit "description"; lit "version";
   lit "url"; lit "publicKey"; lit "iconUrl"; lit "documentationUrl"].

Definition arrayFields : list jstr :=
  [lit "defaultInputModes"; lit "defaultOutputModes"].

(** [x ?? null]. *)
Definition or_null (v : option json) : option json :=
  match v with
  | None => Some JNull
  | Some x => Some x
  end.

Definition skillsEqual (a b : json) : bool :=
  bool_decide (JSON_stringify (Some a) = JSON_stringify (Some b)).

Definition is_null (j : json) : bool :=
  match j with
  | JNull => true
  | _ => false
  end.

(** [diffCards(oldCard, newCard)]: reading a property of [null] throws;
    any other value can be read. *)
Definition diffCards (oldCard newCard : json) : result DiffResult :=
  if is_null oldCard || is_null newCard then
    Err (not_readable "null" "protocolVersion")
  else
      (* Scalar and simple array fields *)
      let fields :=
        List.concat
          (List.map (fun f =>
                       let oldVal := get f oldCard in
                       let newVal := get f newCard in
                       if negb (strict_eq oldVal newVal)
                       then [{| field := f; old := oldVal; new := newVal |}]
                       else []) scalarFields) in
      (* Provider (nested object) *)
      let oldProvider := JSON_stringify (or_null (get (lit "provider") oldCard)) in
      let newProvider := JSON_stringify (or_null (get (lit "provider") newCard)) in
      let fields :=
        if negb (bool_decide (oldProvider = newProvider))
        then fields ++ [{| field := lit "provider";
                           old := get (lit "provider") oldCard;
                           new := get (lit "provider") newCard |}]
        else fields in
      (* Array fields (order-sensitive comparison) *)
      let fields :=
        fields ++
        List.concat
          (List.map (fun f =>
                       let oldArr := JSON_stringify (get f oldCard) in
                       let newArr := JSON_stringify (get f newCard) in
                       if negb (bool_decide (oldArr = newArr))
                       then [{| field := f; old := get f oldCard;
                                new := get f newCard |}]
                       else []) arrayFields) in
      (* Skills diff (by ID) *)
      match skills_entries oldCard with
      | Err e => Err e
      | Ok oldEntries =>
          match skills_entries newCard with
          | Err e => Err e
          | Ok newEntries =>
              let oldSkillMap := Map_of oldEntries in
              let newSkillMap := Map_of newEntries in
              let skillsAdded :=
                List.map fst
                  (List.filter (fun kv => negb (Map_has (fst kv) oldSkillMap))
                               newSkillMap) in
              let skillsRemoved :=
                List.map fst
                  (List.filter (fun kv => negb (Map_has (fst kv) newSkillMap))
                               oldSkillMap) in
              let skillsModified :=
                List.map fst
                  (List.filter
                     (fun kv =>
                        let oldSkill := Map_get (fst kv) oldSkillMap in
                        match oldSkill with
                        | Some o => truthy oldSkill && negb (skillsEqual o (snd kv))
                        | None => false
                        end) newSkillMap) in
              let changed :=
                (0 <? Z.of_nat (length fields))
                || (0 <? Z.of_nat (length skillsAdded))
                || (0 <? Z.of_nat (length skillsRemoved))
                || (0 <? Z.of_nat (length skillsModified)) in
              Ok {| changed := changed; fields := fields;
                    skillsAdded := skillsAdded;
                    skillsRemoved := skillsRemoved;
                    skillsModified := skillsModified |}
          end
      end.

(* ===================================================================== *)
(** ** skills.ts: resolution of skill pointers                            *)
(* ===================================================================== *)

(** [SkillMetadata], as far as [resolveSkillPointers] reads it. *)
Record SkillMetadata := {
  skill_id : jstr;
  skill_name : jstr;
  skill_description : jstr
}.

(** [skillMap.get(id)] on [new Map(discovered.map((s) => [s.id, s]))]: the
    last entry set under a key is the one it holds. *)
Fixpoint skillMap_get (id : jstr) (discovered : list SkillMetadata)
  : option SkillMetadata :=
  match discovered with
  | [] => None
  | s :: rest =>
      match skillMap_get id rest with
      | Some s' => Some s'
      | None => if decide (skill_id s = id) then Some s else None
      end
  end.

Definition resolve_skill (discovered : list SkillMetadata) (skill : json) : json :=
  match skill with
  | JObj props =>
      match lookup_prop (lit "id") props with
      | Some (JStr id) =>
          match skillMap_get id discovered with
          | Some meta =>
              JObj (set_prop (lit "description") (JStr (skill_description meta))
                      (set_prop (lit "name") (JStr (skill_name meta)) props))
          | None => skill
          end
      | _ => skill
      end
  | _ => skill
  end.

(** [resolveSkillPointers(card, projectDir)], given what
    [discoverSkills(projectDir)] found. *)
Definition resolveSkillPointers (discovered : list SkillMetadata) (card : json)
  : result json :=
  match card with
  | JNull => Err (not_readable "null" "skills")
  | JObj props =>
      match lookup_prop (lit "skills") props with
      | None => Err (not_readable "undefined" "map")
      | Some JNull => Err (not_readable "null" "map")
      | Some (JArr items) =>
          if existsb (fun s => match s with JNull => true | _ => false end) items
          then Err (not_readable "null" "id")
          else Ok (JObj (set_prop (lit "skills")
                           (JArr (List.map (resolve_skill discovered) items))
                           props))
      | Some _ => Err (not_a_function "card.skills.map")
      end
  | _ => Err (not_readable "undefined" "map")
  end.

(* ===================================================================== *)
(** ** identity.ts: keys, signatures and the derived agent id             *)
(* ===================================================================== *)

(** [s.replace(/x/g, y)] for single characters. *)
Definition replace_char (x y : Z) (s : jstr) : jstr :=
  List.map (fun c => if c =? x then y else c) s.

Fixpoint drop_leading (x : Z) (s : jstr) : jstr :=
  match s with
  | c :: s' => if c =? x then drop_leading x s' else s
  | [] => []
  end.

(** [b64.replace(/\+/g, '-').replace(/\//g, '_').replace(/=+$/, '')]. *)
Definition base64ToBase64url (b64 : jstr) : jstr :=
  List.rev (drop_leading 61 (List.rev (replace_char 47 95 (replace_char 43 45 b64)))).

Definition formatPublicKeyField (pubBase64 : jstr) : jstr :=
  lit "ed25519:" ++ pubBase64.

Definition NIT_NAMESPACE : jstr := lit "801ba518-f326-47e5-97c9-d1efd1865a19".

Definition remove_char (x : Z) (s : jstr) : jstr :=
  List.filter (fun c => negb (c =? x)) s.

Definition parseUuid (uuid : jstr) : list Z :=
  let hex := remove_char 45 uuid in
  hex_decode hex.

Definition formatUuid (bytes : list Z) : jstr :=
  let hex := hex_encode bytes in
  join [45] [slice hex 0 8; slice hex 8 12; slice hex 12 16;
             slice hex 16 20; slice hex 20 32].

Definition uuidv5 (name namespace : jstr) : jstr :=
  let namespaceBytes := parseUuid namespace in
  let nameBytes := utf8_encode name in
  let data := namespaceBytes ++ nameBytes in
  let hash := digest (update (createHash sha1) data) in
  (* Take first 16 bytes and set version (5) and variant (RFC 4122) bits *)
  let uuid := take 16 hash in
  let uuid := alter (fun b => Z.lor (Z.land b 0x0f) 0x50) 6%nat uuid in
  let uuid := alter (fun b => Z.lor (Z.land b 0x3f) 0x80) 8%nat uuid in
  formatUuid uuid.

Definition deriveAgentId (publicKeyField : jstr) : jstr :=
  uuidv5 publicKeyField NIT_NAMESPACE.

Definition loadPublicKey : M jstr :=
  try_catch (let* c := readFile (lit "identity/agent.pub") in ret (trim c))
            (fun _ => throw (Error
               (lit "No identity found. Run `nit init` to generate a keypair."))).

Definition loadAgentId : M jstr :=
  try_catch (let* c := readFile (lit "identity/agent-id") in ret (trim c))
            (fun _ => throw (Error
               (lit "No agent ID found. Run `nit init` to generate identity."))).

Section Host.

(** What the host supplies.
    - [JSON_parse]: the built-in [JSON.parse]; it returns the value or
      throws a [SyntaxError].
    - [ed25519_sign x d msg]: [createPrivateKey] on the JWK with public
      part [x] and private part [d], then [sign(null, msg, key)] in
      base64; it throws on a key it cannot load.
    - [discovered]: what [discoverSkills(projectDir)] returns.
    - [dirName]: [basename(projectDir)]. *)
Variable JSON_parse : jstr -> result json.
Variable ed25519_sign : jstr -> jstr -> list Z -> result jstr.
Variable discovered : list SkillMetadata.
Variable dirName : jstr.

(** [loadPrivateKey] followed by the signature, as [signMessage] and
    [signChallenge] both do. *)
Definition signMessage (message : jstr) : M jstr :=
  let* pubBase64 := loadPublicKey in
  let* privBase64 :=
    try_catch (let* c := readFile (lit "identity/agent.key") in ret (trim c))
              (fun _ => throw (Error (lit
      "Private key not found at .nit/identity/agent.key. Regenerate with `nit init`."))) in
  let xB64url := base64ToBase64url pubBase64 in
  let dB64url := base64ToBase64url privBase64 in
  lift (ed25519_sign xB64url dB64url (utf8_encode message)).

(* =================================================================== *)
(** ** remote.ts: signed requests                                       *)
(* =================================================================== *)

Definition sha256Hex (data : jstr) : jstr :=
  digest_hex (update_str (createHash sha256) data).

(** [buildAuthHeaders(nitDir, method, path, body?)] at clock reading
    [now] (milliseconds); the headers in the order they are listed. *)
Definition buildAuthHeaders (now : Z) (method path : jstr) (body : option jstr)
  : M (list (jstr * jstr)) :=
  let* agentId := loadAgentId in
  let timestamp := Z_toString (now / 1000) in
  let message := method ++ [LF] ++ path ++ [LF] ++ agentId ++ [LF] ++ timestamp in
  let message :=
    match body with
    | Some b => message ++ [LF] ++ sha256Hex b
    | None => message
    end in
  let* signature := signMessage message in
  ret [(lit "X-Nit-Agent-Id", agentId);
       (lit "X-Nit-Timestamp", timestamp);
       (lit "X-Nit-Signature", signature)].

(* =================================================================== *)
(** ** index.ts: the repository operations                              *)
(* =================================================================== *)

(** [join(projectDir(nitDir), 'agent-card.json')], relative to [nitDir]. *)
Definition CARD_PATH : jstr := lit "../agent-card.json".

Definition readWorkingCard : M json :=
  try_catch (let* raw := readFile CARD_PATH in lift (JSON_parse raw))
            (fun _ => throw (Error
               (lit "Cannot read agent-card.json. Does it exist?"))).

Definition writeWorkingCard (card : json) : M unit :=
  writeFile CARD_PATH (JSON_stringify2 card ++ [LF]).

Definition getCardAtCommit (commitHash : jstr) : M json :=
  let* commitRaw := readObject commitHash in
  let* commit := lift (parseCommit commitHash commitRaw) in
  let* cardRaw := readObject (card commit) in
  lift (JSON_parse cardRaw).

(** [getAuthorName]: [card.name || basename(projectDir)], in the text
    form the commit line gives it. *)
Definition getAuthorName : M jstr :=
  try_catch
    (let* working := readWorkingCard in
     match working with
     | JNull => throw (not_readable "null" "name")
     | _ =>
         match get (lit "name") working with
         | Some name => if truthy (Some name) then ret (ToString name)
                        else ret dirName
         | None => ret dirName
         end
     end)
    (fun _ => ret dirName).

Definition NoChanges : exn :=
  Error (lit "Nothing to commit " ++ [0x2014] ++ lit " agent card is unchanged.").

(** [commit(message)]; [now1] and [now2] are the two readings of
    [Date.now()], for the commit object and for the returned record. *)
Definition commit (now1 now2 : Z) (message : jstr) : M NitCommit :=
  (* Read and resolve skills *)
  let* working := readWorkingCard in
  let* resolved := lift (resolveSkillPointers discovered working) in
  (* Write the resolved card back *)
  let* _ := writeWorkingCard resolved in
  let cardJson := JSON_stringify2 resolved in
  let* cardHash := writeObject Tcard cardJson in
  (* Check if anything changed vs HEAD *)
  let* currentBranch := getCurrentBranch in
  let* parentHash := getBranch currentBranch in
  let* _ :=
    match parentHash with
    | Some ((_ :: _) as tip) =>
        let* parentRaw := readObject tip in
        let* parentCommit := lift (parseCommit tip parentRaw) in
        if decide (card parentCommit = cardHash) then throw NoChanges
        else ret tt
    | _ => ret tt
    end in
  (* Create commit *)
  let* author := getAuthorName in
  let commitContent :=
    serializeCommit {| card := cardHash; parent := parentHash;
                       author := author; timestamp := Num (now1 / 1000);
                       message := message |} in
  let* commitHash := writeObject Tcommit commitContent in
  (* Update branch ref *)
  let* _ := setBranch currentBranch commitHash in
  ret {| hash := commitHash;
         data := {| card := cardHash; parent := parentHash; author := author;
                    timestamp := Num (now2 / 1000); message := message |} |}.

(** The loop of [log]: [fuel] is the number of entries still allowed,
    [limit - commits.length]. *)
Fixpoint log_loop (fuel : nat) (hash : option jstr) (commits : list NitCommit)
  : M (list NitCommit) :=
  match fuel with
  | O => ret commits
  | S fuel' =>
      match hash with
      | Some ((_ :: _) as h) =>
          let* raw := readObject h in
          let* c := lift (parseCommit h raw) in
          log_loop fuel' (parent c) (commits ++ [c])
      | _ => ret commits
      end
  end.

(** [log({count})]; [count] is an integer when given. *)
Definition log (count : option Z) : M (list NitCommit) :=
  let* currentBranch := getCurrentBranch in
  let* hash := getBranch currentBranch in
  let limit := default 50 count in
  log_loop (Z.to_nat limit) hash [].

Definition UncommittedChanges : exn :=
  Error (lit "You have uncommitted changes. Commit or discard them before switching branches.").

Definition checkout (branchName : jstr) : M unit :=
  (* Check for uncommitted changes *)
  let* _ :=
    try_catch
      (let* headHash := resolveHead in
       let* headCard := getCardAtCommit headHash in
       let* workingCard := readWorkingCard in
       let* d := lift (diffCards headCard workingCard) in
       if changed d then throw UncommittedChanges else ret tt)
      (fun err =>
         if includes (lit "uncommitted changes") (exn_message err)
         then throw err
         else ret tt) in
  (* Resolve target branch *)
  let* targetHash := getBranch branchName in
  match targetHash with
  | Some ((_ :: _) as target) =>
      (* Read card at target commit and write to working copy *)
      let* targetCard := getCardAtCommit target in
      let* _ := writeWorkingCard targetCard in
      (* Update HEAD *)
      setHead branchName
  | _ =>
      throw (Error (lit "Branch " ++ [34] ++ branchName ++ [34]
                      ++ lit " does not exist."))
  end.

(** The walk of [status] that counts the commits of a branch never
    pushed: it stops at a commit it cannot read.  [fuel] bounds the
    walk. *)
Fixpoint ahead_loop (fuel : nat) (hash : option jstr) (ahead : Z) : M Z :=
  match fuel with
  | O => ret ahead
  | S fuel' =>
      match hash with
      | Some ((_ :: _) as h) =>
          let ahead := ahead + 1 in
          let* next :=
            try_catch
              (let* raw := readObject h in
               let* c := lift (parseCommit h raw) in
               ret (Some (parent c)))
              (fun _ => ret None) in
          match next with
          | Some hash' => ahead_loop fuel' hash' ahead
          | None => ret ahead
          end
      | _ => ret ahead
      end
  end.

End Host.

(* ===================================================================== *)
(** ** refs.ts: remote-tracking refs                                      *)
(* ===================================================================== *)

Definition remote_prefix : jstr := lit "refs/remote/".

(** [join(nitDir, 'refs', 'remote', remote, branch)], relative to
    [nitDir]. *)
Definition remote_ref_path (remote branch : jstr) : jstr :=
  remote_prefix ++ remote ++ lit "/" ++ branch.

Definition setRemoteRef (remote branch commitHash : jstr) : M unit :=
  writeFile (remote_ref_path remote branch) (commitHash ++ [LF]).

Definition getRemoteRef (remote branch : jstr) : M (option jstr) :=
  try_catch (let* c := readFile (remote_ref_path remote branch) in
             ret (Some (trim c)))
            (fun _ => ret None).

(* ===================================================================== *)
(** ** identity.ts: key files and the public key field                    *)
(* ===================================================================== *)

(** [while (s.length % 4 !== 0) s += '=']; [fuel] bounds the turns of the
    loop, which takes three at most. *)
Fixpoint pad_loop (fuel : nat) (s : jstr) : jstr :=
  match fuel with
  | O => s
  | S fuel' =>
      if negb (Z.of_nat (length s) mod 4 =? 0) then pad_loop fuel' (s ++ [61])
      else s
  end.

Definition base64urlToBase64 (b64url : jstr) : jstr :=
  let s := replace_char 95 47 (replace_char 45 43 b64url) in
  pad_loop 3 s.

(** [generateKeypair(nitDir)], given the [x] and [d] members of the JWK
    exports of the pair that [generateKeyPairSync('ed25519')] drew. *)
Definition generateKeypair (x d : jstr) : M (jstr * jstr) :=
  let pubBase64 := base64urlToBase64 x in
  let privBase64 := base64urlToBase64 d in
  let* _ := writeFile (lit "identity/agent.pub") (pubBase64 ++ [LF]) in
  let* _ := writeFile (lit "identity/agent.key") (privBase64 ++ [LF]) in
  ret (pubBase64, privBase64).

Definition parsePublicKeyField (field : jstr) : result jstr :=
  let prefix := lit "ed25519:" in
  if negb (startsWith prefix field) then
    Err (Error (lit "Invalid publicKey format: expected " ++ [34]
                  ++ lit "ed25519:<base64>" ++ [34] ++ lit ", got " ++ [34]
                  ++ field ++ [34]))
  else Ok (slice_from field (Z.of_nat (length prefix))).

Definition saveAgentId (agentId : jstr) : M unit :=
  writeFile (lit "identity/agent-id") (agentId ++ [LF]).

(* ===================================================================== *)
(** ** diff.ts: the display of a diff                                     *)
(* ===================================================================== *)

Definition formatValue (val : option json) : jstr :=
  match val with
  | None => lit "(unset)"
  | Some JNull => lit "(null)"
  | Some (JStr s) => s
  | Some v => serialize [] [] v
  end.

(** [`${v}`] for a value that may be [undefined]. *)
Definition String_of (v : option json) : jstr :=
  match v with
  | None => lit "undefined"
  | Some x => ToString x
  end.

(** The escape character that opens a terminal colour sequence. *)
Definition ESC : Z := 27.

Definition formatDiff (d : DiffResult) : jstr :=
  if negb (changed d) then lit "No changes."
  else
    (* Field changes *)
    let lines :=
      List.concat
        (List.map (fun fd =>
                     let oldStr := formatValue (old fd) in
                     let newStr := formatValue (new fd) in
                     [lit "  " ++ field fd ++ lit ":";
                      ESC :: lit "[31m    - " ++ oldStr ++ ESC :: lit "[0m";
                      ESC :: lit "[32m    + " ++ newStr ++ ESC :: lit "[0m"])
                  (fields d)) in
    (* Skill changes *)
    let lines :=
      lines ++ List.map (fun id => ESC :: lit "[32m  + skill: " ++ String_of id
                                     ++ ESC :: lit "[0m") (skillsAdded d) in
    let lines :=
      lines ++ List.map (fun id => ESC :: lit "[31m  - skill: " ++ String_of id
                                     ++ ESC :: lit "[0m") (skillsRemoved d) in
    let lines :=
      lines ++ List.map (fun id => ESC :: lit "[33m  ~ skill: " ++ String_of id
                                     ++ lit " (modified)" ++ ESC :: lit "[0m")
                        (skillsModified d) in
    join [LF] lines.

(* ===================================================================== *)
(** ** index.ts: diff                                                     *)
(* ===================================================================== *)

(** [/^[0-9a-f]{64}$/.test(target)]. *)
Definition is_commit_hash (target : jstr) : bool :=
  (Z.of_nat (length target) =? 64)
  && forallb (fun c => ((48 <=? c) && (c <=? 57)) || ((97 <=? c) && (c <=? 102)))
             target.

Section Diff.
Variable JSON_parse : jstr -> result json.

(** [diff(target?)]: [None] is a call without target. *)
Definition diff (target : option jstr) : M DiffResult :=
  match target with
  | Some ((_ :: _) as target) =>
      (* Check if target is a branch name *)
      let* targetBranchHash := getBranch target in
      let* headHash := resolveHead in
      let* headCard := getCardAtCommit JSON_parse headHash in
      match targetBranchHash with
      | Some ((_ :: _) as targetBranchHash) =>
          let* targetCard := getCardAtCommit JSON_parse targetBranchHash in
          lift (diffCards headCard targetCard)
      | _ =>
          (* Assume it's a commit hash *)
          if is_commit_hash target then
            let* targetCard := getCardAtCommit JSON_parse target in
            lift (diffCards headCard targetCard)
          else
            throw (Error (lit "Unknown target " ++ [34] ++ target ++ [34]
                            ++ lit ". Provide a branch name or commit hash."))
      end
  | _ =>
      (* Working card vs HEAD *)
      let* headHash := resolveHead in
      let* headCard := getCardAtCommit JSON_parse headHash in
      let* workingCard := readWorkingCard JSON_parse in
      lift (diffCards headCard workingCard)
  end.

End Diff.

(* ===================================================================== *)
(** ** Vocabulary of the properties                                       *)
(* ===================================================================== *)

Definition is_ascii (c : Z) : Prop := c < 0x80.
Definition is_byte (b : Z) : Prop := 0 <= b < 256.
Definition is_lower_hex (c : Z) : Prop := 48 <= c <= 57 \/ 97 <= c <= 102.

(** The text [s] does not hold the character [c]. *)
Definition free_of (c : Z) (s : jstr) : Prop := Forall (fun x => x <> c) s.

(** The value of a digit string read from the left. *)
Definition digit_step (a c : Z) : Z := 10 * a + (c - 48).

Definition plain (u : Z) : Prop :=
  is_high_surrogate u = false /\ is_low_surrogate u = false.

(** A text without lone surrogates: what a file read as UTF-8 holds. *)
Inductive well_formed : jstr -> Prop :=
| wf_nil : well_formed []
| wf_plain u s : plain u -> well_formed s -> well_formed (u :: s)
| wf_pair u l s :
    is_high_surrogate u = true -> is_low_surrogate l = true ->
    well_formed s -> well_formed (u :: l :: s).

(** The 16 bytes the namespace constant denotes. *)
Definition NIT_NAMESPACE_bytes : list Z :=
  [0x80; 0x1b; 0xa5; 0x18; 0xf3; 0x26; 0x47; 0xe5;
   0x97; 0xc9; 0xd1; 0xef; 0xd1; 0x86; 0x5a; 0x19].

(** Name-based UUID, version 5 of RFC 4122: the first 16 bytes of the
    SHA-1 of namespace and name, with the version in the high nibble of
    byte 6 and the variant in the two high bits of byte 8. *)
Definition rfc4122_v5 (namespace name : list Z) : list Z :=
  match take 16 (SHA1.digest (namespace ++ name)) with
  | [b0; b1; b2; b3; b4; b5; b6; b7; b8; b9; b10; b11; b12; b13; b14; b15] =>
      [b0; b1; b2; b3; b4; b5; 0x50 + b6 mod 16; b7;
       0x80 + b8 mod 64; b9; b10; b11; b12; b13; b14; b15]
  | other => other
  end.

(** The canonical message of a signed write, as the specification words
    it. *)
Definition canonical_message (method path agentId timestamp : jstr)
    (body : option jstr) : jstr :=
  method ++ [LF] ++ path ++ [LF] ++ agentId ++ [LF] ++ timestamp
    ++ match body with
       | Some b => [LF] ++ hex_encode (SHA256.digest (utf8_encode b))
       | None => []
       end.

(** The change entry [diffCards] pushes for the provider, if any. *)
Definition provider_entry (oldCard newCard : json) : list FieldDiff :=
  if negb (bool_decide (JSON_stringify (or_null (get (lit "provider") oldCard))
                        = JSON_stringify (or_null (get (lit "provider") newCard))))
  then [{| field := lit "provider"; old := get (lit "provider") oldCard;
           new := get (lit "provider") newCard |}]
  else [].

(** The change entries of a diff that are about the provider. *)
Definition provider_entries (d : DiffResult) : list FieldDiff :=
  List.filter (fun e => bool_decide (field e = lit "provider")) (fields d).

(** A UTF-16 code unit. *)
Definition is_code_unit (u : Z) : Prop := 0 <= u < 65536.

(** The reading back of [quote_body]: the text up to the closing quote,
    with its escapes undone, and what follows the quote. *)
Fixpoint unquote_body (t : jstr) : option (jstr * jstr) :=
  match t with
  | [] => None
  | c :: rest =>
      if c =? 34 then Some ([], rest)
      else if c =? 92 then
        match rest with
        | [] => None
        | e :: rest' =>
            if e =? 117 then
              match rest' with
              | h1 :: h2 :: h3 :: h4 :: rest'' =>
                  match hex_value h1, hex_value h2, hex_value h3, hex_value h4,
                        unquote_body rest'' with
                  | Some a, Some b, Some c', Some d, Some (s, r) =>
                      Some (4096 * a + 256 * b + 16 * c' + d :: s, r)
                  | _, _, _, _, _ => None
                  end
              | _ => None
              end
            else
              match unquote_body rest' with
              | Some (s, r) =>
                  Some ((if e =? 98 then 8 else if e =? 116 then 9
                         else if e =? 110 then 10 else if e =? 102 then 12
                         else if e =? 114 then 13 else e) :: s, r)
              | None => None
              end
        end
      else
        match unquote_body rest with
        | Some (s, r) => Some (c :: s, r)
        | None => None
        end
  end.

(** The text of one member of an object in the compact form. *)
Definition member_text (kv : jstr * json) : jstr :=
  quote (fst kv) ++ 58 :: serialize [] [] (snd kv).

(** An object as the interface declares the provider: every property
    holds a string, and keys and strings are made of code units. *)
Definition string_valued (props : list (jstr * json)) : Prop :=
  Forall (fun kv => Forall is_code_unit (fst kv)
                    /\ exists v, snd kv = JStr v /\ Forall is_code_unit v) props.

(** A safe integer: one that a [Number] holds exactly, with its
    neighbours. *)
Definition is_safe_integer (z : Z) : Prop := - (2 ^ 53 - 1) <= z <= 2 ^ 53 - 1.

(** [s.trimEnd()]. *)
Definition trimEnd (s : jstr) : jstr := List.rev (trim_start (List.rev s)).

(** A name that [join] appends to a directory as one component, naming a
    file of that directory: not empty, no separator and no NUL, and not
    [.] or [..]. *)
Definition simple_name (b : jstr) : Prop :=
  b <> [] /\ free_of 47 b /\ free_of 0 b /\ b <> lit "." /\ b <> lit "..".

(** A character of the URL-safe base64 alphabet, in which a JWK gives its
    members. *)
Definition is_base64url (c : Z) : Prop :=
  48 <= c <= 57 \/ 65 <= c <= 90 \/ 97 <= c <= 122 \/ c = 45 \/ c = 95.

(** A character of standard base64, padding included. *)
Definition is_base64_std (c : Z) : Prop :=
  48 <= c <= 57 \/ 65 <= c <= 90 \/ 97 <= c <= 122 \/ c = 43 \/ c = 47 \/ c = 61.

(** Each entry names the next one as its parent. *)
Fixpoint chained (cs : list NitCommit) : Prop :=
  match cs with
  | c :: rest =>
      match rest with
      | c' :: _ => parent c = Some (hash c') /\ chained rest
      | [] => True
      end
  | [] => True
  end.

(** The entry is what [parseCommit] reads from the object stored under
    its digest. *)
Definition stored_commit (fs : files) (c : NitCommit) : Prop :=
  exists raw, fs !! object_path (hash c) = Some raw
              /\ parseCommit (hash c) raw = Ok c.

(** A change entry read in the other direction. *)
Definition mirror (e : FieldDiff) : FieldDiff :=
  {| field := field e; old := new e; new := old e |}.

(** A value that is compared by what it holds: [undefined], [null], a
    boolean, a number or a string, and no object or array. *)
Definition primitive (v : option json) : Prop :=
  match v with
  | Some (JArr _) | Some (JObj _) => False
  | _ => True
  end.

(** The three comparisons of [diffCards], as functions of the cards. *)
Definition scalar_entries (oldCard newCard : json) : list FieldDiff :=
  List.concat
    (List.map (fun f =>
                 if negb (strict_eq (get f oldCard) (get f newCard))
                 then [{| field := f; old := get f oldCard; new := get f newCard |}]
                 else []) scalarFields).

Definition array_entries (oldCard newCard : json) : list FieldDiff :=
  List.concat
    (List.map (fun f =>
                 if negb (bool_decide (JSON_stringify (get f oldCard)
                                       = JSON_stringify (get f newCard)))
                 then [{| field := f; old := get f oldCard; new := get f newCard |}]
                 else []) arrayFields).

Definition added_ids (oldMap newMap : jsmap) : list (option json) :=
  List.map fst (List.filter (fun kv => negb (Map_has (fst kv) oldMap)) newMap).

Definition modified_ids (oldMap newMap : jsmap) : list (option json) :=
  List.map fst
    (List.filter
       (fun kv =>
          match Map_get (fst kv) oldMap with
          | Some o => truthy (Map_get (fst kv) oldMap) && negb (skillsEqual o (snd kv))
          | None => false
          end) newMap).

(** No two keys of the map are equal for [===]. *)
Fixpoint apart (m : jsmap) : Prop :=
  match m with
  | [] => True
  | (k, _) :: rest =>
      Forall (fun kv => strict_eq k (fst kv) = false) rest /\ apart rest
  end.

(** The commit record that the stored text of [x] spells: the texts as
    their UTF-8 forms decode. *)
Definition as_stored (x : CommitData) : CommitData :=
  {| card := toWellFormed (card x);
     parent := toWellFormed <$> parent x;
     author := toWellFormed (author x);
     timestamp := timestamp x;
     message := toWellFormed (message x) |}.

(** The comparison of [commit] with the tip. *)
Definition tip_check (cardHash : jstr) (parentHash : option jstr) : M unit :=
  match parentHash with
  | Some ((_ :: _) as tip) =>
      let* parentRaw := readObject tip in
      let* parentCommit := lift (parseCommit tip parentRaw) in
      if decide (card parentCommit = cardHash) then throw NoChanges
      else ret tt
  | _ => ret tt
  end.

(** The value of a result that did not throw. *)
Definition ok {A} (r : result A) : option A :=
  match r with
  | Ok a => Some a
  | Err _ => None
  end.

Definition cannot_read_card : exn :=
  Error (lit "Cannot read agent-card.json. Does it exist?").

(** The files once [commit] has written the resolved card back and
    stored it as an object. *)
Definition after_card_write (resolved : json) (fs : files) : files :=
  snd (writeObject Tcard (JSON_stringify2 resolved)
         (snd (writeWorkingCard resolved fs))).

(* ===================================================================== *)
(** ** A small repository, for the examples                               *)
(* ===================================================================== *)

Definition example_provider : list (jstr * json) :=
  [(lit "organization", JStr (lit "Acme"));
   (lit "url", JStr (lit "https://acme.ai"))].

Definition example_pub : jstr :=
  lit "11qYAYKxCrfVS/7TyWQHOg7hcvPaoiMlrwIaaPcHURo=".

Definition example_agent_id : jstr :=
  Eval vm_compute in deriveAgentId (formatPublicKeyField example_pub).

Definition example_key : jstr :=
  lit "nWGxne/9WmC6hEr0kuwsxERJxWl7MmkZcDusAxyuf2A=".

(** A short card: the fields [diffCards] does not find are [undefined]. *)
Definition example_card (name : jstr) (provider : json) : json :=
  JObj [(lit "name", JStr name);
        (lit "version", JStr (lit "1.0.0"));
        (lit "skills", JArr [JObj [(lit "id", JStr (lit "web-research"))]]);
        (lit "provider", provider)].

Definition card_v1 : json := example_card (lit "Emil") (JObj example_provider).
Definition card_v2 : json := example_card (lit "Emil II") (JObj example_provider).

(** [card_v1] with the two keys of its provider in the other order. *)
Definition card_reordered : json :=
  example_card (lit "Emil") (JObj (List.rev example_provider)).

(** A stand-in for [JSON.parse] that reads the texts of the cards
    above, with or without a final line feed, and rejects the rest. *)
Definition example_JSON_parse (s : jstr) : result json :=
  match List.find (fun c => bool_decide (s = JSON_stringify2 c)
                            || bool_decide (s = JSON_stringify2 c ++ [LF]))
                  [card_v1; card_v2; card_reordered] with
  | Some c => Ok c
  | None => Err (SyntaxError (lit "Unexpected token"))
  end.

(** A stand-in for the signature primitive: it returns the signed bytes
    in hexadecimal, so that an example shows what was signed. *)
Definition example_sign (x d : jstr) (msg : list Z) : result jstr :=
  Ok (hex_encode msg).

Definition card_v1_hash : jstr :=
  Eval vm_compute in hashObject Tcard (JSON_stringify2 card_v1).

Definition initial_commit : CommitData :=
  {| card := card_v1_hash; parent := None; author := lit "Emil";
     timestamp := Num 1709123456; message := lit "Initial commit" |}.

Definition initial_commit_hash : jstr :=
  Eval vm_compute in hashObject Tcommit (serializeCommit initial_commit).

(** The repository after [init] on [card_v1], with a second branch made
    by [branch faam.io]. *)
Definition repo_clean : files :=
  <[CARD_PATH := JSON_stringify2 card_v1 ++ [LF]]>
  (<[HEAD_PATH := lit "ref: refs/heads/main" ++ [LF]]>
  (<[heads_prefix ++ lit "main" := initial_commit_hash ++ [LF]]>
  (<[heads_prefix ++ lit "faam.io" := initial_commit_hash ++ [LF]]>
  (<[object_path initial_commit_hash := serializeCommit initial_commit]>
  (<[object_path card_v1_hash := JSON_stringify2 card_v1]>
  (<[lit "identity/agent.pub" := example_pub ++ [LF]]>
  (<[lit "identity/agent.key" := example_key ++ [LF]]>
  (<[lit "identity/agent-id" := example_agent_id ++ [LF]]>
   ∅)))))))).

(** The same with the name edited in the working card. *)
Definition repo_edited : files :=
  <[CARD_PATH := JSON_stringify2 card_v2 ++ [LF]]> repo_clean.

(** The same with the working card as an editor saved it, without the
    final line feed. *)
Definition repo_saved : files :=
  <[CARD_PATH := JSON_stringify2 card_v1]> repo_clean.

Definition missing_hash : jstr :=
  lit "00000000000000000000000000000000000000000000000000000000deadbeef".

Definition orphan_commit : CommitData :=
  {| card := card_v1_hash; parent := Some missing_hash; author := lit "Emil";
     timestamp := Num 1709123999; message := lit "Second" |}.

Definition orphan_commit_hash : jstr :=
  Eval vm_compute in hashObject Tcommit (serializeCommit orphan_commit).

(** A repository whose tip commit names a parent that is not in the
    store. *)
Definition repo_broken : files :=
  <[heads_prefix ++ lit "main" := orphan_commit_hash ++ [LF]]>
  (<[object_path orphan_commit_hash := serializeCommit orphan_commit]> repo_clean).

(** A commit whose author holds a line feed. *)
Definition two_line_author_commit : CommitData :=
  {| card := card_v1_hash; parent := None;
     author := lit "Emil" ++ [LF] ++ lit "Stone";
     timestamp := Num 1709123456; message := lit "Initial commit" |}.

(** The diff of a card with itself. *)
Definition no_diff : DiffResult :=
  {| changed := false; fields := []; skillsAdded := []; skillsRemoved := [];
     skillsModified := [] |}.

(** The diff of [card_v1] and [card_reordered]. *)
Definition reordered_diff : DiffResult :=
  {| changed := true;
     fields := [{| field := lit "provider";
                   old := Some (JObj example_provider);
                   new := Some (JObj (List.rev example_provider)) |}];
     skillsAdded := []; skillsRemoved := []; skillsModified := [] |}.

(** The diff of [card_v1] and [card_v2]. *)
Definition renamed_diff : DiffResult :=
  {| changed := true;
     fields := [{| field := lit "name"; old := Some (JStr (lit "Emil"));
                   new := Some (JStr (lit "Emil II")) |}];
     skillsAdded := []; skillsRemoved := []; skillsModified := [] |}.

(** The [x] and [d] members of the JWK exports of the example pair. *)
Definition example_jwk_x : jstr :=
  lit "11qYAYKxCrfVS_7TyWQHOg7hcvPaoiMlrwIaaPcHURo".

Definition example_jwk_d : jstr :=
  lit "nWGxne_9WmC6hEr0kuwsxERJxWl7MmkZcDusAxyuf2A".

(** A discovered SKILL.md for the skill of the example cards, and
    [card_v1] resolved against it. *)
Definition example_skill : SkillMetadata :=
  {| skill_id := lit "web-research"; skill_name := lit "Web Research";
     skill_description := lit "Searches the web" |}.

Definition card_v1_resolved : json :=
  JObj [(lit "name", JStr (lit "Emil"));
        (lit "version", JStr (lit "1.0.0"));
        (lit "skills",
         JArr [JObj [(lit "id", JStr (lit "web-research"));
                     (lit "name", JStr (lit "Web Research"));
                     (lit "description", JStr (lit "Searches the web"))]]);
        (lit "provider", JObj example_provider)].

(** Two cards that differ in their skills, and their diff. *)
Definition skills_card_A : json :=
  JObj [(lit "skills", JArr [JObj [(lit "id", JStr (lit "x"))]])].

Definition skills_card_B : json :=
  JObj [(lit "skills",
         JArr [JObj [(lit "id", JStr (lit "x"));
                     (lit "name", JStr (lit "changed"))];
               JObj [(lit "id", JStr (lit "y"))]])].

Definition skills_diff : DiffResult :=
  {| changed := true; fields := [];
     skillsAdded := [Some (JStr (lit "y"))];
     skillsRemoved := [];
     skillsModified := [Some (JStr (lit "x"))] |}.

(** [repo_clean] with HEAD on a branch that has no commit yet. *)
Definition repo_unborn : files :=
  <[HEAD_PATH := lit "ref: refs/heads/draft" ++ [LF]]> repo_clean.

(** The commit that [commit] makes of [repo_edited] at second
    1709124000. *)
Definition card_v2_hash : jstr :=
  Eval vm_compute in hashObject Tcard (JSON_stringify2 card_v2).

Definition renamed_commit : CommitData :=
  {| card := card_v2_hash; parent := Some initial_commit_hash;
     author := lit "Emil II"; timestamp := Num 1709124000;
     message := lit "Rename" |}.

Definition renamed_commit_hash : jstr :=
  Eval vm_compute in hashObject Tcommit (serializeCommit renamed_commit).

(** [repo_edited] after that commit. *)
Definition repo_committed : files :=
  snd (commit example_JSON_parse [] (lit "agent") 1709124000123 1709124000456
         (lit "Rename") repo_edited).



(* ===================================================================== *)
(** ** Properties                                                         *)
(* ===================================================================== *)


(** *** Characters *)

Lemma utf8_encode_ascii_app (h s : jstr) :
  Forall is_ascii h -> utf8_encode (h ++ s) = h ++ utf8_encode s.
Proof.
  induction 1 as [|c h Hc _ IH]; [reflexivity|].
  unfold is_ascii in Hc. cbn [app utf8_encode].
  destruct (Z.ltb_spec c 0x80); [|lia]. now rewrite IH.
Qed.

Lemma utf8_encode_ascii (h : jstr) : Forall is_ascii h -> utf8_encode h = h.
Proof.
  intros Hh. rewrite <- (app_nil_r h) at 1.
  rewrite utf8_encode_ascii_app by assumption. apply app_nil_r.
Qed.

Lemma lit_ascii (s : string) : Forall (fun c => 0 <= c < 256) (lit s).
Proof.
  unfold lit. induction s as [|a s IH]; cbn; constructor; auto.
  pose proof (N_ascii_bounded a). lia.
Qed.

Lemma pos_digits_ascii fuel : forall n acc,
  Forall is_ascii acc -> Forall is_ascii (pos_digits fuel n acc).
Proof.
  induction fuel as [|fuel IH]; intros n acc Hacc; cbn; [assumption|].
  destruct (Z.ltb_spec n 10).
  - constructor; [unfold is_ascii, digit_char; lia | assumption].
  - apply IH. constructor; [|assumption].
    unfold is_ascii, digit_char. pose proof (Z.mod_pos_bound n 10). lia.
Qed.

Lemma Z_toString_ascii n : Forall is_ascii (Z_toString n).
Proof.
  unfold Z_toString, nat_digits.
  destruct (n <? 0); [constructor; [unfold is_ascii; lia|]|];
    apply pos_digits_ascii; constructor.
Qed.

Lemma objtype_name_ascii t : Forall is_ascii (objtype_name t).
Proof. destruct t; repeat constructor. Qed.

(** *** Digest sizes *)

Lemma be_bytes_length n x : length (be_bytes n x) = n.
Proof. induction n; cbn; auto. Qed.

Lemma be_bytes_range n x : Forall is_byte (be_bytes n x).
Proof.
  induction n; cbn; constructor; auto.
  unfold is_byte. apply Z.mod_pos_bound. lia.
Qed.

Lemma words_bytes_length (ws : list Z) :
  length (List.concat (List.map (be_bytes 4) ws)) = (4 * length ws)%nat.
Proof.
  induction ws as [|w ws IH]; [reflexivity|].
  cbn [List.map List.concat]. rewrite length_app, be_bytes_length, IH. cbn. lia.
Qed.

Lemma words_bytes_range (ws : list Z) :
  Forall is_byte (List.concat (List.map (be_bytes 4) ws)).
Proof.
  induction ws as [|w ws IH]; [constructor|].
  cbn [List.map List.concat]. apply Forall_app. split; [apply be_bytes_range|assumption].
Qed.

Lemma fold_left_keeps_length {A B} (f : list A -> B -> list A) (n : nat) :
  (forall st x, length (f st x) = n) ->
  forall l h, length h = n -> length (List.fold_left f l h) = n.
Proof. intros Hf l. induction l as [|x l IH]; cbn; intros h Hh; auto. Qed.

Lemma sha256_compress_length h block :
  length h = 8%nat -> length (SHA256.compress h block) = 8%nat.
Proof.
  intros Hh. unfold SHA256.compress.
  rewrite List.length_map, List.length_combine, Hh.
  rewrite (fold_left_keeps_length SHA256.round 8); [reflexivity|reflexivity|assumption].
Qed.

Lemma sha256_state_length blocks : forall h,
  length h = 8%nat -> length (List.fold_left SHA256.compress blocks h) = 8%nat.
Proof.
  induction blocks as [|b bs IH]; cbn; intros h Hh; [assumption|].
  apply IH, sha256_compress_length, Hh.
Qed.

Lemma sha256_digest_length msg : length (SHA256.digest msg) = 32%nat.
Proof.
  unfold SHA256.digest. rewrite words_bytes_length, sha256_state_length; reflexivity.
Qed.

Lemma sha256_digest_range msg : Forall is_byte (SHA256.digest msg).
Proof. apply words_bytes_range. Qed.

Lemma sha1_compress_length h block :
  length h = 5%nat -> length (SHA1.compress h block) = 5%nat.
Proof.
  intros Hh. unfold SHA1.compress.
  rewrite List.length_map, List.length_combine, Hh.
  rewrite (fold_left_keeps_length SHA1.round 5); [reflexivity|reflexivity|assumption].
Qed.

Lemma sha1_state_length blocks : forall h,
  length h = 5%nat -> length (List.fold_left SHA1.compress blocks h) = 5%nat.
Proof.
  induction blocks as [|b bs IH]; cbn; intros h Hh; [assumption|].
  apply IH, sha1_compress_length, Hh.
Qed.

Lemma sha1_digest_length msg : length (SHA1.digest msg) = 20%nat.
Proof.
  unfold SHA1.digest. rewrite words_bytes_length, sha1_state_length; reflexivity.
Qed.

Lemma sha1_digest_range msg : Forall is_byte (SHA1.digest msg).
Proof. apply words_bytes_range. Qed.

(** *** Hexadecimal text *)

Lemma hex_digit_lower d : 0 <= d < 16 -> is_lower_hex (hex_digit d).
Proof.
  intros Hd. unfold is_lower_hex, hex_digit.
  destruct (Z.ltb_spec d 10); lia.
Qed.

Lemma hex_encode_length bs : length (hex_encode bs) = (2 * length bs)%nat.
Proof.
  unfold hex_encode. induction bs as [|b bs IH]; [reflexivity|].
  cbn [List.map List.concat]. rewrite length_app, IH. cbn. lia.
Qed.

Lemma hex_encode_lower bs : Forall is_byte bs -> Forall is_lower_hex (hex_encode bs).
Proof.
  unfold hex_encode. induction 1 as [|b bs Hb _ IH]; [constructor|].
  unfold is_byte in Hb. cbn [List.map List.concat]. apply Forall_app. split; [|assumption].
  unfold hex_byte. constructor; [|constructor; [|constructor]]; apply hex_digit_lower.
  - split; [apply Z.div_pos; lia | apply Z.div_lt_upper_bound; lia].
  - apply Z.mod_pos_bound. lia.
Qed.

Lemma hashObject_length t c : length (hashObject t c) = 64%nat.
Proof.
  unfold hashObject, digest_hex, digest. cbn [hash_alg update update_str createHash].
  rewrite hex_encode_length, sha256_digest_length. reflexivity.
Qed.

Lemma hashObject_lower_hex t c : Forall is_lower_hex (hashObject t c).
Proof.
  unfold hashObject, digest_hex, digest. cbn [hash_alg update update_str createHash].
  apply hex_encode_lower, sha256_digest_range.
Qed.

(** C1.  For both object types and every content, [hashObject] is the
    lowercase hexadecimal text (64 characters) of the SHA-256 digest of the
    bytes of ["{type} {n}\0{content}"] in UTF-8, [n] being the number of
    UTF-8 bytes of the content.  It is a function of its two arguments
    alone: it reads no file and returns nothing but the digest. *)
Theorem hashObject_is_sha256_of_typed_content (k : objtype) (c : jstr) :
  let n := Z.of_nat (length (utf8_encode c)) in
  hashObject k c
  = hex_encode (SHA256.digest
      (utf8_encode (objtype_name k ++ [SP] ++ Z_toString n ++ [0] ++ c)))
  /\ length (hashObject k c) = 64%nat
  /\ Forall is_lower_hex (hashObject k c).
Proof.
  intros n. split; [|split; [apply hashObject_length | apply hashObject_lower_hex]].
  assert (Hh : Forall is_ascii (objtype_name k ++ [SP] ++ Z_toString n ++ [0])).
  { repeat (apply Forall_app; split); try apply objtype_name_ascii;
      try apply Z_toString_ascii; repeat constructor. }
  unfold hashObject, digest_hex, digest, update_str, update, createHash.
  cbn [hash_alg hash_data]. fold n.
  replace (objtype_name k ++ [SP] ++ Z_toString n ++ [0] ++ c)
    with ((objtype_name k ++ [SP] ++ Z_toString n ++ [0]) ++ c)
    by (rewrite <- !app_assoc; reflexivity).
  rewrite (utf8_encode_ascii_app _ c Hh), (utf8_encode_ascii _ Hh).
  reflexivity.
Qed.


Lemma set_version_nibble b : Z.lor (Z.land b 0x0f) 0x50 = 0x50 + b mod 16.
Proof.
  change 0x0f with (Z.ones 4). rewrite Z.land_ones by lia.
  change (2 ^ 4) with 16. pose proof (Z.mod_pos_bound b 16 ltac:(lia)) as Hb.
  remember (b mod 16) as x eqn:Hx. clear Hx.
  assert (x = 0 \/ x = 1 \/ x = 2 \/ x = 3 \/ x = 4 \/ x = 5 \/ x = 6 \/ x = 7 \/
          x = 8 \/ x = 9 \/ x = 10 \/ x = 11 \/ x = 12 \/ x = 13 \/ x = 14 \/
          x = 15) as Hc by lia.
  repeat (destruct Hc as [-> | Hc]; [reflexivity|]). now subst.
Qed.

Lemma lor_high_bit (x k : Z) :
  0 <= k -> 0 <= x < 2 ^ k -> Z.lor x (2 ^ k) = 2 ^ k + x.
Proof.
  intros Hk Hx. rewrite Z.add_comm.
  rewrite <- (Z.lxor_lor x (2 ^ k)), <- Z.add_nocarry_lxor; try reflexivity.
  all: apply Z.bits_inj'; intros n Hn; rewrite Z.land_spec, Z.bits_0, Z.pow2_bits_eqb by lia;
    destruct (Z.eqb_spec k n); [subst|now rewrite andb_false_r];
    rewrite andb_true_r; destruct (Z.eq_dec x 0) as [->|];
    [apply Z.bits_0 | apply Z.bits_above_log2; [lia | apply Z.log2_lt_pow2; lia]].
Qed.

Lemma set_variant_bits b : Z.lor (Z.land b 0x3f) 0x80 = 0x80 + b mod 64.
Proof.
  change 0x3f with (Z.ones 6). rewrite Z.land_ones by lia.
  change (2 ^ 6) with 64. pose proof (Z.mod_pos_bound b 64 ltac:(lia)) as Hb.
  change 0x80 with (2 ^ 7). apply lor_high_bit; [lia|]. change (2 ^ 7) with 128. lia.
Qed.

Lemma parseUuid_NIT_NAMESPACE : parseUuid NIT_NAMESPACE = NIT_NAMESPACE_bytes.
Proof. vm_compute. reflexivity. Qed.

Lemma take16_of_20 (l : list Z) :
  length l = 20%nat ->
  exists b0 b1 b2 b3 b4 b5 b6 b7 b8 b9 b10 b11 b12 b13 b14 b15,
    take 16 l = [b0; b1; b2; b3; b4; b5; b6; b7; b8; b9; b10; b11; b12; b13; b14; b15].
Proof.
  intros H. do 16 (destruct l as [|? l]; [discriminate|]).
  do 16 eexists. reflexivity.
Qed.

Lemma formatUuid_16 b0 b1 b2 b3 b4 b5 b6 b7 b8 b9 b10 b11 b12 b13 b14 b15 :
  formatUuid [b0; b1; b2; b3; b4; b5; b6; b7; b8; b9; b10; b11; b12; b13; b14; b15]
  = hex_byte b0 ++ hex_byte b1 ++ hex_byte b2 ++ hex_byte b3 ++ [45]
    ++ hex_byte b4 ++ hex_byte b5 ++ [45]
    ++ hex_byte b6 ++ hex_byte b7 ++ [45]
    ++ hex_byte b8 ++ hex_byte b9 ++ [45]
    ++ hex_byte b10 ++ hex_byte b11 ++ hex_byte b12 ++ hex_byte b13
    ++ hex_byte b14 ++ hex_byte b15.
Proof.
  unfold formatUuid, hex_encode, hex_byte. cbn [List.map List.concat app].
  repeat match goal with
         | |- context [hex_digit ?x] => generalize (hex_digit x); intro
         end.
  reflexivity.
Qed.

Lemma digest_sha1 data : digest (update (createHash sha1) data) = SHA1.digest data.
Proof. reflexivity. Qed.

Lemma uuidv5_unfold (name namespace : jstr) :
  uuidv5 name namespace
  = formatUuid
      (alter (fun b => Z.lor (Z.land b 0x3f) 0x80) 8%nat
         (alter (fun b => Z.lor (Z.land b 0x0f) 0x50) 6%nat
            (take 16 (digest (update (createHash sha1)
                                (parseUuid namespace ++ utf8_encode name)))))).
Proof. reflexivity. Qed.

Lemma deriveAgentId_unfold (publicKeyField : jstr) :
  deriveAgentId publicKeyField
  = formatUuid (rfc4122_v5 NIT_NAMESPACE_bytes (utf8_encode publicKeyField)).
Proof.
  unfold deriveAgentId, rfc4122_v5.
  rewrite uuidv5_unfold, digest_sha1, parseUuid_NIT_NAMESPACE.
  destruct (take16_of_20 _ (sha1_digest_length
              (NIT_NAMESPACE_bytes ++ utf8_encode publicKeyField)))
    as (b0 & b1 & b2 & b3 & b4 & b5 & b6 & b7 & b8 & b9 & b10 & b11 & b12
        & b13 & b14 & b15 & ->).
  cbn [alter list_alter]. rewrite set_version_nibble, set_variant_bits. reflexivity.
Qed.

(** C3.  [deriveAgentId] is a function of the public-key field alone; its
    result is the hyphenated hexadecimal text of the version-5 UUID of the
    fixed namespace and the UTF-8 bytes of the field: the first 16 bytes
    of the SHA-1 of namespace followed by name, with version nibble 5 (the
    character at index 14 is ['5']) and the RFC 4122 variant bits (the
    character at index 19 is one of [8 9 a b]). *)
Theorem deriveAgentId_is_uuid_v5 (publicKeyField : jstr) :
  let id := deriveAgentId publicKeyField in
  id = formatUuid (rfc4122_v5 NIT_NAMESPACE_bytes (utf8_encode publicKeyField))
  /\ length id = 36%nat
  /\ id !! 14%nat = Some 53
  /\ (exists v, id !! 19%nat = Some v /\ (v = 56 \/ v = 57 \/ v = 97 \/ v = 98))
  /\ (exists b6 b8,
        rfc4122_v5 NIT_NAMESPACE_bytes (utf8_encode publicKeyField) !! 6%nat = Some b6
        /\ rfc4122_v5 NIT_NAMESPACE_bytes (utf8_encode publicKeyField) !! 8%nat = Some b8
        /\ Z.shiftr b6 4 = 5 /\ Z.shiftr b8 6 = 2).
Proof.
  intros id. subst id. rewrite deriveAgentId_unfold. split; [reflexivity|].
  unfold rfc4122_v5.
  destruct (take16_of_20 _ (sha1_digest_length
              (NIT_NAMESPACE_bytes ++ utf8_encode publicKeyField)))
    as (b0 & b1 & b2 & b3 & b4 & b5 & b6 & b7 & b8 & b9 & b10 & b11 & b12
        & b13 & b14 & b15 & ->).
  rewrite formatUuid_16.
  pose proof (Z.mod_pos_bound b6 16 ltac:(lia)) as H6.
  pose proof (Z.mod_pos_bound b8 64 ltac:(lia)) as H8.
  assert (Hv : (0x50 + b6 mod 16) / 16 = 5).
  { symmetry. apply Z.div_unique with (r := b6 mod 16); lia. }
  assert (Hr : (0x80 + b8 mod 64) / 16 = 8 + (b8 mod 64) / 16).
  { replace (0x80 + b8 mod 64) with (b8 mod 64 + 8 * 16) by lia.
    rewrite Z.div_add by lia. lia. }
  assert (Hq : 0 <= (b8 mod 64) / 16 < 4).
  { split; [apply Z.div_pos; lia | apply Z.div_lt_upper_bound; lia]. }
  split; [reflexivity|]. split.
  { unfold hex_byte; cbn [app lookup list_lookup]. rewrite Hv. reflexivity. }
  split.
  { unfold hex_byte; cbn [app lookup list_lookup]. rewrite Hr. eexists. split; [reflexivity|].
    unfold hex_digit.
    assert (b8 mod 64 / 16 = 0 \/ b8 mod 64 / 16 = 1 \/ b8 mod 64 / 16 = 2
            \/ b8 mod 64 / 16 = 3) as [-> | [-> | [-> | ->]]] by lia; cbn; auto. }
  exists (0x50 + b6 mod 16), (0x80 + b8 mod 64).
  split; [reflexivity|]. split; [reflexivity|].
  rewrite !Z.shiftr_div_pow2 by lia. split.
  - exact Hv.
  - symmetry. apply Z.div_unique with (r := b8 mod 64); change (2 ^ 6) with 64; lia.
Qed.


(** *** Lines *)

Lemma split_on_not_nil sep s : split_on sep s <> [].
Proof.
  destruct s as [|c s]; cbn; [discriminate|].
  destruct (c =? sep); [discriminate|]. destruct (split_on sep s); discriminate.
Qed.

Lemma split_on_app sep (a r : jstr) :
  free_of sep a -> split_on sep (a ++ sep :: r) = a :: split_on sep r.
Proof.
  induction 1 as [|c a Hc _ IH]; cbn.
  - now rewrite Z.eqb_refl.
  - destruct (Z.eqb_spec c sep); [contradiction|]. now rewrite IH.
Qed.

Lemma join_cons sep (p : jstr) (ps : list jstr) :
  ps <> [] -> join sep (p :: ps) = p ++ sep ++ join sep ps.
Proof. destruct ps; [contradiction|reflexivity]. Qed.

Lemma join_split_on sep (s : jstr) : join [sep] (split_on sep s) = s.
Proof.
  induction s as [|c s IH]; [reflexivity|]. cbn [split_on].
  destruct (Z.eqb_spec c sep) as [->|Hc].
  - rewrite join_cons by apply split_on_not_nil. now rewrite IH.
  - pose proof (split_on_not_nil sep s) as Hne.
    destruct (split_on sep s) as [|l ls]; [contradiction|].
    destruct ls as [|l' ls]; cbn in *; now rewrite <- IH.
Qed.

(** *** Prefixes and slices *)

Lemma startsWith_app (p s : jstr) : startsWith p (p ++ s) = true.
Proof. induction p as [|c p IH]; cbn; [reflexivity|]. now rewrite Z.eqb_refl. Qed.

Lemma slice_in_range (s : jstr) (a b : Z) :
  0 <= a <= b -> b <= Z.of_nat (length s) ->
  slice s a b = take (Z.to_nat (b - a)) (drop (Z.to_nat a) s).
Proof.
  intros Hab Hb. unfold slice, slice_index.
  destruct (Z.ltb_spec a 0); [lia|]. destruct (Z.ltb_spec b 0); [lia|].
  rewrite !Z.min_l by lia. reflexivity.
Qed.

Lemma slice_from_app (p s : jstr) :
  slice_from (p ++ s) (Z.of_nat (length p)) = s.
Proof.
  unfold slice_from. rewrite slice_in_range by (rewrite ?length_app; lia).
  rewrite Nat2Z.id, drop_app_length. apply take_ge.
  rewrite length_app. lia.
Qed.

Lemma slice_prefix (a b : jstr) : slice (a ++ b) 0 (Z.of_nat (length a)) = a.
Proof.
  rewrite slice_in_range by (rewrite ?length_app; lia).
  rewrite Z.sub_0_r, Nat2Z.id. cbn [Z.to_nat drop]. apply take_app_length.
Qed.

Lemma lastIndexOf_from_absent c (s : jstr) : forall i found,
  free_of c s -> lastIndexOf_from c s i found = found.
Proof.
  induction s as [|x s IH]; intros i found Hs; [reflexivity|].
  inversion Hs as [|? ? Hx Hs']; subst. cbn.
  destruct (Z.eqb_spec x c); [contradiction|]. now apply IH.
Qed.

Lemma lastIndexOf_app c (a ts : jstr) :
  free_of c ts -> lastIndexOf c (a ++ c :: ts) = Z.of_nat (length a).
Proof.
  intros Hts. unfold lastIndexOf.
  assert (H : forall i found,
            lastIndexOf_from c (a ++ c :: ts) i found = i + Z.of_nat (length a)).
  { induction a as [|x a IH]; intros i found; cbn [app lastIndexOf_from].
    - rewrite Z.eqb_refl, lastIndexOf_from_absent by assumption. cbn. lia.
    - rewrite IH. cbn [length]. lia. }
  rewrite H. lia.
Qed.

(** *** Decimal text *)

Lemma read_digits_some (ds : jstr) : forall a,
  Forall (fun c => is_digit c = true) ds ->
  read_digits ds (Some a) = Some (List.fold_left digit_step ds a).
Proof.
  induction ds as [|d ds IH]; intros a Hds; [reflexivity|].
  inversion Hds as [|? ? Hd Hds']; subst. cbn. rewrite Hd. now rewrite IH.
Qed.

Lemma read_digits_none (ds : jstr) :
  Forall (fun c => is_digit c = true) ds -> ds <> [] ->
  read_digits ds None = Some (List.fold_left digit_step ds 0).
Proof.
  destruct ds as [|d ds]; [contradiction|]. intros Hds _.
  inversion Hds as [|? ? Hd Hds']; subst. cbn. rewrite Hd.
  now rewrite read_digits_some.
Qed.

Lemma pos_digits_spec fuel : forall n acc,
  (0 < fuel)%nat -> 0 <= n < 2 ^ Z.of_nat fuel ->
  exists ds, pos_digits fuel n acc = ds ++ acc
             /\ Forall (fun c => is_digit c = true) ds /\ ds <> []
             /\ List.fold_left digit_step ds 0 = n.
Proof.
  induction fuel as [|fuel IH]; intros n acc Hf Hn; [lia|]. cbn [pos_digits].
  destruct (Z.ltb_spec n 10) as [Hlt|Hge].
  - exists [digit_char n]. repeat split; [|discriminate|cbn; unfold digit_step, digit_char; lia].
    constructor; [|constructor]. unfold is_digit, digit_char. lia.
  - assert (Hq : 1 <= n / 10) by (apply Z.div_le_lower_bound; lia).
    assert (Hq' : n / 10 < 2 ^ Z.of_nat fuel).
    { apply Z.div_lt_upper_bound; [lia|].
      rewrite Nat2Z.inj_succ, Z.pow_succ_r in Hn by lia. lia. }
    assert (Hfuel : (0 < fuel)%nat).
    { destruct fuel; [cbn in Hq'; lia | lia]. }
    destruct (IH (n / 10) (digit_char (n mod 10) :: acc) Hfuel ltac:(lia))
      as (ds & -> & Hds & Hne & Hval).
    pose proof (Z.mod_pos_bound n 10 ltac:(lia)) as Hm.
    exists (ds ++ [digit_char (n mod 10)]). repeat split.
    + now rewrite <- app_assoc.
    + apply Forall_app. split; [assumption|].
      constructor; [|constructor]. unfold is_digit, digit_char. lia.
    + destruct ds; discriminate.
    + rewrite fold_left_app, Hval. cbn. unfold digit_step, digit_char.
      pose proof (Z.div_mod n 10 ltac:(lia)). lia.
Qed.

Lemma nat_digits_spec n :
  0 <= n ->
  Forall (fun c => is_digit c = true) (nat_digits n) /\ nat_digits n <> []
  /\ List.fold_left digit_step (nat_digits n) 0 = n.
Proof.
  intros Hn. unfold nat_digits.
  destruct (pos_digits_spec (S (Z.to_nat (Z.log2 n))) n [] ltac:(lia))
    as (ds & -> & Hds & Hne & Hval).
  - rewrite Nat2Z.inj_succ, Z2Nat.id by apply Z.log2_nonneg.
    destruct (Z.eq_dec n 0) as [->|]; [cbn; lia|].
    pose proof (Z.log2_spec n ltac:(lia)). lia.
  - rewrite app_nil_r. auto.
Qed.

Lemma digit_not_space c : is_digit c = true -> is_js_space c = false.
Proof. unfold is_digit, is_js_space. lia. Qed.

Lemma parseInt_digits (ds : jstr) :
  Forall (fun c => is_digit c = true) ds -> ds <> [] ->
  parseInt ds = Num (List.fold_left digit_step ds 0).
Proof.
  intros Hds Hne. unfold parseInt.
  destruct ds as [|d ds]; [contradiction|].
  inversion Hds as [|? ? Hd Hds']; subst.
  cbn [trim_start]. rewrite (digit_not_space d Hd).
  assert ((d =? 45) = false) as -> by (unfold is_digit in Hd; lia).
  assert ((d =? 43) = false) as -> by (unfold is_digit in Hd; lia).
  now rewrite read_digits_none.
Qed.

Lemma parseInt_Z_toString z : parseInt (Z_toString z) = Num z.
Proof.
  unfold Z_toString. destruct (Z.ltb_spec z 0).
  - destruct (nat_digits_spec (- z) ltac:(lia)) as (Hds & Hne & Hval).
    unfold parseInt. cbn [trim_start]. change (is_js_space 45) with false.
    cbv iota. change (45 =? 45) with true. cbv iota.
    rewrite read_digits_none, Hval by assumption. f_equal. lia.
  - destruct (nat_digits_spec z ltac:(lia)) as (Hds & Hne & Hval).
    now rewrite parseInt_digits, Hval.
Qed.

Lemma Z_toString_chars z :
  Forall (fun c => is_digit c = true \/ c = 45) (Z_toString z).
Proof.
  assert (Hd : forall n, 0 <= n ->
            Forall (fun c => is_digit c = true \/ c = 45) (nat_digits n)).
  { intros n Hn. destruct (nat_digits_spec n Hn) as (Hds & _ & _).
    eapply Forall_impl; [exact Hds|]. cbv beta. auto. }
  unfold Z_toString. destruct (Z.ltb_spec z 0).
  - constructor; [now right | apply Hd; lia].
  - apply Hd. lia.
Qed.

Lemma Z_toString_free_of c z :
  is_digit c = false -> c <> 45 -> free_of c (Z_toString z).
Proof.
  intros Hc Hm. eapply Forall_impl; [apply Z_toString_chars|]. cbv beta.
  intros x Hx Heq. subst x. destruct Hx; congruence.
Qed.

(** *** The commit text *)

Lemma free_of_app c (a b : jstr) : free_of c a -> free_of c b -> free_of c (a ++ b).
Proof. intros Ha Hb. apply Forall_app. now split. Qed.

Lemma parse_lines_cons (line : jstr) (rest : list jstr) (acc : CommitData) :
  line <> [] ->
  parse_lines (line :: rest) acc = parse_lines rest (parse_header line acc).
Proof. destruct line; [contradiction|reflexivity]. Qed.

Lemma parse_header_card (c : jstr) (acc : CommitData) :
  parse_header (lit "card " ++ c) acc
  = {| card := c; parent := parent acc; author := author acc;
       timestamp := timestamp acc; message := message acc |}.
Proof.
  unfold parse_header. rewrite startsWith_app.
  change 5 with (Z.of_nat (length (lit "card "))). now rewrite slice_from_app.
Qed.

Lemma parse_header_parent (p : jstr) (acc : CommitData) :
  parse_header (lit "parent " ++ p) acc
  = {| card := card acc; parent := Some p; author := author acc;
       timestamp := timestamp acc; message := message acc |}.
Proof.
  unfold parse_header.
  change (startsWith (lit "card ") (lit "parent " ++ p)) with false.
  rewrite startsWith_app.
  change 7 with (Z.of_nat (length (lit "parent "))). now rewrite slice_from_app.
Qed.

Lemma parse_header_author (a : jstr) (z : Z) (acc : CommitData) :
  parse_header (lit "author " ++ a ++ [SP] ++ Z_toString z) acc
  = {| card := card acc; parent := parent acc; author := a;
       timestamp := Num z; message := message acc |}.
Proof.
  unfold parse_header.
  change (startsWith (lit "card ") (lit "author " ++ a ++ [SP] ++ Z_toString z))
    with false.
  change (startsWith (lit "parent ") (lit "author " ++ a ++ [SP] ++ Z_toString z))
    with false.
  rewrite startsWith_app.
  change 7 with (Z.of_nat (length (lit "author "))). rewrite slice_from_app.
  cbv zeta. change ([SP] ++ Z_toString z) with (SP :: Z_toString z).
  rewrite lastIndexOf_app by (apply Z_toString_free_of; [reflexivity|discriminate]).
  rewrite slice_prefix.
  replace (a ++ SP :: Z_toString z) with ((a ++ [SP]) ++ Z_toString z)
    by (now rewrite <- app_assoc).
  replace (Z.of_nat (length a) + 1) with (Z.of_nat (length (a ++ [SP])))
    by (rewrite length_app; cbn; lia).
  now rewrite slice_from_app, parseInt_Z_toString.
Qed.

Lemma header_line_nonempty (k : string) (s : jstr) :
  lit k <> [] -> lit k ++ s <> [].
Proof. destruct (lit k); [contradiction|discriminate]. Qed.

Lemma serializeCommit_lines (x : CommitData) :
  serializeCommit x
  = let rest := (lit "author " ++ author x ++ [SP] ++ Number_toString (timestamp x))
                  ++ LF :: [] ++ LF :: message x in
    (lit "card " ++ card x) ++ LF ::
    match parent x with
    | Some p => (lit "parent " ++ p) ++ LF :: rest
    | None => rest
    end.
Proof. destruct x as [c [p|] a t m]; reflexivity. Qed.

(** C9, amended.  For every commit record whose card digest is not
    empty, whose card digest, parent digest and author hold no line feed
    and whose timestamp is a safe integer (of magnitude at most
    2^53 - 1), [parseCommit] of the serialized text returns the record,
    under the digest it is given. *)
Theorem parseCommit_serializeCommit_roundtrip (h : jstr) (x : CommitData) (z : Z) :
  card x <> [] ->
  free_of LF (card x) ->
  (forall p, parent x = Some p -> free_of LF p) ->
  free_of LF (author x) ->
  timestamp x = Num z ->
  is_safe_integer z ->
  parseCommit h (serializeCommit x) = Ok {| hash := h; data := x |}.
Proof.
  rewrite serializeCommit_lines.
  destruct x as [c p a t m]. cbn [card parent author timestamp message].
  intros Hc Hcl Hp Ha -> _. cbn [Number_toString]. cbv zeta.
  assert (Hcard : free_of LF (lit "card " ++ c)).
  { apply free_of_app; [|assumption]. repeat constructor; discriminate. }
  assert (Hauth : free_of LF (lit "author " ++ a ++ [SP] ++ Z_toString z)).
  { repeat apply free_of_app; try assumption; try (repeat constructor; discriminate).
    apply Z_toString_free_of; [reflexivity|discriminate]. }
  unfold parseCommit.
  destruct p as [p|].
  - assert (Hpar : free_of LF (lit "parent " ++ p)).
    { apply free_of_app; [|now apply Hp]. repeat constructor; discriminate. }
    rewrite !split_on_app by (assumption || constructor).
    rewrite !parse_lines_cons by (apply header_line_nonempty; discriminate).
    rewrite parse_header_card, parse_header_parent, parse_header_author.
    cbn [parse_lines card parent author timestamp message].
    rewrite join_split_on. destruct c; [contradiction|reflexivity].
  - rewrite !split_on_app by (assumption || constructor).
    rewrite !parse_lines_cons by (apply header_line_nonempty; discriminate).
    rewrite parse_header_card, parse_header_author.
    cbn [parse_lines card parent author timestamp message].
    rewrite join_split_on. destruct c; [contradiction|reflexivity].
Qed.

(** *** Running the monad *)

Lemma bind_ok {A B} (m : M A) (k : A -> M B) fs a fs' :
  m fs = (Ok a, fs') -> bind m k fs = k a fs'.
Proof. intros H. unfold bind. now rewrite H. Qed.

Lemma bind_err {A B} (m : M A) (k : A -> M B) fs e fs' :
  m fs = (Err e, fs') -> bind m k fs = (Err e, fs').
Proof. intros H. unfold bind. now rewrite H. Qed.

Lemma readFile_eq (path : jstr) (fs : files) :
  readFile path fs
  = (match fs !! path with Some c => Ok c | None => Err (ENOENT path) end, fs).
Proof. unfold readFile. now destruct (fs !! path). Qed.

Lemma writeFile_eq (path content : jstr) (fs : files) :
  writeFile path content fs = (Ok tt, <[path := toWellFormed content]> fs).
Proof. reflexivity. Qed.

(** *** objects.ts *)

Lemma writeObject_eq (t : objtype) (c : jstr) (fs : files) :
  writeObject t c fs
  = (Ok (hashObject t c),
     match fs !! object_path (hashObject t c) with
     | Some _ => fs
     | None => <[object_path (hashObject t c) := toWellFormed c]> fs
     end).
Proof.
  unfold writeObject, bind, try_catch, access, ret, writeFile.
  now destruct (fs !! object_path (hashObject t c)).
Qed.

Lemma readObject_eq (h : jstr) (fs : files) :
  readObject h fs
  = (match fs !! object_path h with
     | Some c => Ok c
     | None => Err (Error (lit "Object not found: " ++ h))
     end, fs).
Proof.
  unfold readObject, try_catch, throw. rewrite readFile_eq.
  now destruct (fs !! object_path h).
Qed.

Lemma writeObject_lookup (t : objtype) (c : jstr) (fs : files) (path : jstr) :
  snd (writeObject t c fs) !! path
  = if decide (path = object_path (hashObject t c))
    then Some (default (toWellFormed c) (fs !! path))
    else fs !! path.
Proof.
  rewrite writeObject_eq. cbn [snd].
  destruct (decide (path = object_path (hashObject t c))) as [->|Hne].
  - destruct (fs !! object_path (hashObject t c)) eqn:E; cbn.
    + exact E.
    + apply lookup_insert_eq.
  - destruct (fs !! object_path (hashObject t c)); [reflexivity|].
    now rewrite lookup_insert_ne.
Qed.

(** C6.  Writing the same type and content twice never throws; both
    calls return the same digest, and the second call leaves every file as
    the first one left it. *)
Theorem writeObject_idempotent (t : objtype) (c : jstr) (fs : files) :
  let first := writeObject t c fs in
  let second := writeObject t c (snd first) in
  fst first = Ok (hashObject t c)
  /\ fst second = Ok (hashObject t c)
  /\ snd second = snd first
  /\ is_Some (snd first !! object_path (hashObject t c))
  /\ (fs !! object_path (hashObject t c) = None ->
      snd first !! object_path (hashObject t c) = Some (toWellFormed c)).
Proof.
  cbv zeta. rewrite !writeObject_eq. cbn [fst snd].
  destruct (fs !! object_path (hashObject t c)) as [stored|] eqn:E.
  - rewrite E. repeat split; eauto; discriminate.
  - rewrite lookup_insert_eq. repeat split; eauto; intros _; apply lookup_insert_eq.
Qed.

(** *** refs.ts *)

Lemma getHead_state (fs : files) : snd (getHead fs) = fs.
Proof.
  unfold getHead, bind. rewrite readFile_eq.
  destruct (fs !! HEAD_PATH); [|reflexivity].
  now destruct (negb _).
Qed.

Lemma getHead_frame (fs fs' : files) :
  fs' !! HEAD_PATH = fs !! HEAD_PATH -> fst (getHead fs') = fst (getHead fs).
Proof.
  intros H. unfold getHead, bind. rewrite !readFile_eq, H.
  destruct (fs !! HEAD_PATH); [|reflexivity].
  now destruct (negb _).
Qed.

Lemma getCurrentBranch_state (fs : files) : snd (getCurrentBranch fs) = fs.
Proof.
  unfold getCurrentBranch, bind. pose proof (getHead_state fs) as H.
  destruct (getHead fs) as [[ref|e] fs']; cbn in H; subst; [|reflexivity].
  now destruct (negb _).
Qed.

Lemma getCurrentBranch_frame (fs fs' : files) :
  fs' !! HEAD_PATH = fs !! HEAD_PATH ->
  fst (getCurrentBranch fs') = fst (getCurrentBranch fs).
Proof.
  intros H. unfold getCurrentBranch, bind.
  pose proof (getHead_frame fs fs' H) as Hf.
  destruct (getHead fs) as [[ref|e] fs1], (getHead fs') as [[ref'|e'] fs1'];
    cbn in Hf; try discriminate; inversion Hf; subst; [|reflexivity].
  now destruct (negb _).
Qed.

Lemma getBranch_eq (b : jstr) (fs : files) :
  getBranch b fs = (Ok (trim <$> fs !! (heads_prefix ++ b)), fs).
Proof.
  unfold getBranch, try_catch, bind, ret. rewrite readFile_eq.
  now destruct (fs !! (heads_prefix ++ b)).
Qed.

Lemma run_eq {A} (m : M A) (fs : files) r :
  fst (m fs) = r -> snd (m fs) = fs -> m fs = (r, fs).
Proof. destruct (m fs). cbn. now intros -> ->. Qed.

(** *** Paths *)

Lemma object_path_not_HEAD (h : jstr) : object_path h <> HEAD_PATH.
Proof. intros H. apply (f_equal head) in H. discriminate. Qed.

Lemma heads_path_not_HEAD (b : jstr) : heads_prefix ++ b <> HEAD_PATH.
Proof. intros H. apply (f_equal head) in H. discriminate. Qed.

Lemma object_path_not_heads (h b : jstr) : object_path h <> heads_prefix ++ b.
Proof. intros H. apply (f_equal head) in H. discriminate. Qed.


(** *** Well-formed UTF-16 and the files *)

Section json_induction.
Variable P : json -> Prop.
Hypothesis Hnull : P JNull.
Hypothesis Hbool : forall b, P (JBool b).
Hypothesis Hnum : forall t, P (JNum t).
Hypothesis Hstr : forall s, P (JStr s).
Hypothesis Harr : forall items, Forall P items -> P (JArr items).
Hypothesis Hobj : forall props, Forall (fun kv => P (snd kv)) props -> P (JObj props).

Fixpoint json_nested_ind (j : json) : P j :=
  match j with
  | JNull => Hnull
  | JBool b => Hbool b
  | JNum t => Hnum t
  | JStr s => Hstr s
  | JArr items =>
      Harr items
        ((fix go (l : list json) : Forall P l :=
            match l with
            | [] => @List.Forall_nil json P
            | x :: l' => @List.Forall_cons json P x l' (json_nested_ind x) (go l')
            end) items)
  | JObj props =>
      Hobj props
        ((fix go (l : list (jstr * json)) : Forall (fun kv => P (snd kv)) l :=
            match l with
            | [] => @List.Forall_nil _ (fun kv => P (snd kv))
            | kv :: l' =>
                @List.Forall_cons _ (fun kv => P (snd kv)) kv l'
                  (let '(k, v) as kv0 := kv return P (snd kv0) in json_nested_ind v)
                  (go l')
            end) props)
  end.
End json_induction.

Lemma toWellFormed_id (s : jstr) : well_formed s -> toWellFormed s = s.
Proof.
  induction 1 as [|u s [Hh Hl] _ IH|u l s Hh Hl _ IH]; cbn [toWellFormed].
  - reflexivity.
  - rewrite Hh, Hl. now rewrite IH.
  - rewrite Hh, Hl. now rewrite IH.
Qed.

Lemma well_formed_app (a b : jstr) :
  well_formed a -> well_formed b -> well_formed (a ++ b).
Proof.
  induction 1 as [|u s Hu _ IH|u l s Hu Hl _ IH]; intros Hb; cbn [app].
  - assumption.
  - apply wf_plain; auto.
  - apply wf_pair; auto.
Qed.

Lemma well_formed_plain (s : jstr) : Forall plain s -> well_formed s.
Proof. induction 1; constructor; auto. Qed.

Lemma plain_below (u : Z) : u < 0xD800 -> plain u.
Proof. intros H. unfold plain, is_high_surrogate, is_low_surrogate. lia. Qed.

Lemma well_formed_lit (s : string) : well_formed (lit s).
Proof.
  apply well_formed_plain. eapply Forall_impl; [apply lit_ascii|].
  cbv beta. intros u Hu. apply plain_below. lia.
Qed.

Lemma well_formed_lower_hex (s : jstr) : Forall is_lower_hex s -> well_formed s.
Proof.
  intros H. apply well_formed_plain. eapply Forall_impl; [exact H|].
  cbv beta. intros u Hu. apply plain_below. unfold is_lower_hex in Hu. lia.
Qed.

Lemma well_formed_join (sep : jstr) (parts : list jstr) :
  well_formed sep -> Forall well_formed parts -> well_formed (join sep parts).
Proof.
  intros Hsep. induction 1 as [|p ps Hp Hps IH]; [constructor|].
  destruct ps as [|q ps]; [exact Hp|].
  change (join sep (p :: q :: ps)) with (p ++ sep ++ join sep (q :: ps)).
  auto using well_formed_app.
Qed.

Lemma plain_hex_digit d : 0 <= d < 16 -> plain (hex_digit d).
Proof.
  intros Hd. apply plain_below. unfold hex_digit. destruct (d <? 10); lia.
Qed.

Lemma well_formed_unicode_escape u : well_formed (unicode_escape u).
Proof.
  unfold unicode_escape, hex4.
  repeat (apply wf_plain; [first [apply plain_hex_digit; apply Z.mod_pos_bound; lia
                                 | apply plain_below; lia]|]).
  constructor.
Qed.

Lemma well_formed_quote_body_upto (n : nat) : forall s,
  (length s <= n)%nat -> well_formed (quote_body s).
Proof.
  induction n as [|n IH]; intros s Hn.
  { destruct s; [constructor | cbn in Hn; lia]. }
  destruct s as [|u rest]; [constructor|]. cbn [length] in Hn.
  assert (Hrest : well_formed (quote_body rest)) by (apply IH; lia).
  cbn [quote_body].
  destruct (is_high_surrogate u) eqn:Hh.
  { destruct rest as [|l rest'].
    - apply well_formed_unicode_escape.
    - destruct (is_low_surrogate l) eqn:Hl.
      + apply wf_pair; auto. apply IH. cbn [length] in Hn. lia.
      + apply well_formed_app; [apply well_formed_unicode_escape | exact Hrest]. }
  destruct (is_low_surrogate u) eqn:Hl.
  { apply well_formed_app; [apply well_formed_unicode_escape | exact Hrest]. }
  repeat match goal with
         | |- context [if ?c then _ else _] => destruct c
         end;
    try (apply wf_plain; [apply plain_below; lia|];
         apply wf_plain; [apply plain_below; lia|]; exact Hrest).
  - apply well_formed_app; [apply well_formed_unicode_escape | exact Hrest].
  - apply wf_plain; [split; assumption | exact Hrest].
Qed.

Lemma well_formed_quote (s : jstr) : well_formed (quote s).
Proof.
  unfold quote. apply wf_plain; [apply plain_below; lia|].
  apply well_formed_app; [eapply well_formed_quote_body_upto; reflexivity|].
  apply wf_plain; [apply plain_below; lia | constructor].
Qed.

Lemma well_formed_serialize (gap : jstr) (j : json) :
  well_formed gap ->
  forall indent, well_formed indent -> well_formed (serialize gap indent j).
Proof.
  intros Hgap. induction j as [| [|] | t | s | items IH | props IH] using json_nested_ind;
    intros indent Hind; cbn [serialize];
    try apply well_formed_lit; try apply well_formed_quote.
  - assert (Hparts : Forall well_formed
                       (List.map (serialize gap (indent ++ gap)) items)).
    { apply List.Forall_map. eapply Forall_impl; [exact IH|].
      cbv beta. intros x Hx. apply Hx. now apply well_formed_app. }
    destruct (List.map (serialize gap (indent ++ gap)) items) as [|p ps] eqn:E.
    + repeat (apply wf_plain; [apply plain_below; lia|]). constructor.
    + destruct gap.
      * apply wf_plain; [apply plain_below; lia|].
        apply well_formed_app; [apply well_formed_join; [|assumption]|];
          repeat (apply wf_plain; [apply plain_below; unfold LF; lia|]); constructor.
      * repeat first [ apply wf_plain; [apply plain_below; unfold LF; lia|]
                     | apply well_formed_app
                     | apply well_formed_join
                     | assumption
                     | constructor ].
  - assert (Hparts : Forall well_formed
              (List.map (fun kv => let '(k, v) := kv in
                           quote k ++ 58 :: match gap with [] => [] | _ => [SP] end
                                   ++ serialize gap (indent ++ gap) v) props)).
    { apply List.Forall_map. eapply Forall_impl; [exact IH|].
      cbv beta. intros [k v] Hv. cbn [snd] in Hv.
      apply well_formed_app; [apply well_formed_quote|].
      apply wf_plain; [apply plain_below; lia|].
      apply well_formed_app; [|apply Hv; now apply well_formed_app].
      destruct gap; [constructor|].
      apply wf_plain; [apply plain_below; unfold SP; lia | constructor]. }
    destruct (List.map _ props) as [|p ps] eqn:E.
    + repeat (apply wf_plain; [apply plain_below; lia|]). constructor.
    + destruct gap.
      * apply wf_plain; [apply plain_below; lia|].
        apply well_formed_app; [apply well_formed_join; [|assumption]|];
          repeat (apply wf_plain; [apply plain_below; unfold LF; lia|]); constructor.
      * repeat first [ apply wf_plain; [apply plain_below; unfold LF; lia|]
                     | apply well_formed_app
                     | apply well_formed_join
                     | assumption
                     | constructor ].
Qed.

Lemma well_formed_JSON_stringify2_line (v : json) :
  well_formed (JSON_stringify2 v ++ [LF]).
Proof.
  apply well_formed_app.
  - apply well_formed_serialize; [|constructor].
    repeat (apply wf_plain; [apply plain_below; unfold SP; lia|]). constructor.
  - apply wf_plain; [apply plain_below; unfold LF; lia | constructor].
Qed.

Lemma well_formed_JSON_stringify2 (v : json) : well_formed (JSON_stringify2 v).
Proof.
  apply well_formed_serialize; [|constructor].
  repeat (apply wf_plain; [apply plain_below; unfold SP; lia|]). constructor.
Qed.


(** *** Ref files *)

Lemma trim_start_head (c : Z) (s : jstr) :
  is_js_space c = false -> trim_start (c :: s) = c :: s.
Proof. intros Hc. cbn. now rewrite Hc. Qed.

Lemma lower_hex_not_space c : is_lower_hex c -> is_js_space c = false.
Proof. unfold is_lower_hex, is_js_space. lia. Qed.

Lemma trim_no_space_line (h : jstr) :
  Forall (fun c => is_js_space c = false) h -> trim (h ++ [LF]) = h.
Proof.
  intros Hs. unfold trim. destruct h as [|c h]; [reflexivity|].
  inversion Hs as [|? ? Hc Hh]; subst. cbn [app].
  rewrite (trim_start_head c) by assumption.
  change (c :: h ++ [LF]) with ((c :: h) ++ [LF]).
  rewrite rev_app_distr. cbn [rev app trim_start].
  change (is_js_space LF) with true. cbv iota.
  pose proof (Forall_rev Hs) as Hr. cbn [rev] in Hr.
  destruct (rev h ++ [c]) as [|x r] eqn:E.
  - destruct (rev h); discriminate.
  - inversion Hr; subst. rewrite trim_start_head by assumption.
    rewrite <- E. rewrite rev_app_distr, rev_involutive. reflexivity.
Qed.

Lemma trim_hex_line (h : jstr) :
  Forall is_lower_hex h -> trim (toWellFormed (h ++ [LF])) = h.
Proof.
  intros Hh. rewrite toWellFormed_id.
  - apply trim_no_space_line. eapply Forall_impl; [exact Hh|].
    apply lower_hex_not_space.
  - apply well_formed_app; [now apply well_formed_lower_hex|].
    apply wf_plain; [apply plain_below; unfold LF; lia | constructor].
Qed.

(** *** Texts written and read back *)

Lemma high_surrogate_range u : is_high_surrogate u = true -> 0xD800 <= u < 0xDC00.
Proof. unfold is_high_surrogate. lia. Qed.

Lemma low_surrogate_range u : is_low_surrogate u = true -> 0xDC00 <= u < 0xE000.
Proof. unfold is_low_surrogate. lia. Qed.

Lemma utf8_encode_replacement (s : jstr) :
  utf8_encode (0xFFFD :: s) = utf8_3 0xFFFD ++ utf8_encode s.
Proof. reflexivity. Qed.

Lemma utf8_encode_toWellFormed_upto (n : nat) : forall s,
  (length s <= n)%nat -> utf8_encode (toWellFormed s) = utf8_encode s.
Proof.
  induction n as [|n IH]; intros s Hn.
  - destruct s; [reflexivity | cbn in Hn; lia].
  - destruct s as [|u rest]; [reflexivity|].
    cbn [length] in Hn. cbn [toWellFormed].
    destruct (is_high_surrogate u) eqn:Hh.
    + pose proof (high_surrogate_range u Hh) as Hu.
      destruct rest as [|l rest'].
      * cbn [utf8_encode]. rewrite Hh.
        destruct (u <? 0x80) eqn:E1; [lia|].
        destruct (u <? 0x800) eqn:E2; [lia|]. reflexivity.
      * cbn [length] in Hn.
        destruct (is_low_surrogate l) eqn:Hl.
        -- cbn [utf8_encode]. rewrite Hh, Hl.
           destruct (u <? 0x80) eqn:E1; [lia|].
           destruct (u <? 0x800) eqn:E2; [lia|].
           rewrite IH by lia. reflexivity.
        -- rewrite utf8_encode_replacement, IH by (cbn [length]; lia).
           cbn [utf8_encode]. rewrite Hh, Hl.
           destruct (u <? 0x80) eqn:E1; [lia|].
           destruct (u <? 0x800) eqn:E2; [lia|]. reflexivity.
    + destruct (is_low_surrogate u) eqn:Hl.
      * pose proof (low_surrogate_range u Hl) as Hu.
        rewrite utf8_encode_replacement, IH by lia.
        cbn [utf8_encode]. rewrite Hh, Hl.
        destruct (u <? 0x80) eqn:E1; [lia|].
        destruct (u <? 0x800) eqn:E2; [lia|]. reflexivity.
      * cbn [utf8_encode]. rewrite Hh, Hl, IH by lia. reflexivity.
Qed.

Lemma utf8_encode_toWellFormed (s : jstr) :
  utf8_encode (toWellFormed s) = utf8_encode s.
Proof. now apply (utf8_encode_toWellFormed_upto (length s)). Qed.

Lemma hashObject_toWellFormed (t : objtype) (c : jstr) :
  hashObject t (toWellFormed c) = hashObject t c.
Proof. unfold hashObject. now rewrite utf8_encode_toWellFormed. Qed.

Lemma objectExists_eq (h : jstr) (fs : files) :
  objectExists h fs = (Ok (bool_decide (is_Some (fs !! object_path h))), fs).
Proof.
  unfold objectExists, try_catch, bind, access, ret.
  destruct (fs !! object_path h) eqn:E.
  - rewrite bool_decide_eq_true_2; eauto.
  - rewrite bool_decide_eq_false_2; [reflexivity|]. intros [x Hx]. discriminate.
Qed.

(** X1.  An object written where none was stored is read back under the
    digest [writeObject] returned, as the text its UTF-8 form decodes to;
    that text has the same digest, so the store stays content-addressed,
    and [objectExists] finds it. *)
Theorem writeObject_then_readObject (t : objtype) (c : jstr) (fs : files) :
  fs !! object_path (hashObject t c) = None ->
  let h := hashObject t c in
  let fs' := snd (writeObject t c fs) in
  fst (writeObject t c fs) = Ok h
  /\ readObject h fs' = (Ok (toWellFormed c), fs')
  /\ hashObject t (toWellFormed c) = h
  /\ objectExists h fs' = (Ok true, fs').
Proof.
  intros Hnone h fs'. unfold fs', h.
  rewrite readObject_eq, objectExists_eq, writeObject_eq, Hnone. cbn [fst snd].
  rewrite lookup_insert_eq.
  split; [reflexivity|]. split; [reflexivity|].
  split; [apply hashObject_toWellFormed|].
  rewrite bool_decide_eq_true_2; eauto.
Qed.

(** X2.  [writeObject] never changes or removes a stored file: a path
    that held a text holds the same text afterwards, and the only path it
    can add is the object's own. *)
Theorem writeObject_keeps_files (t : objtype) (c : jstr) (fs : files) (path : jstr) :
  let fs' := snd (writeObject t c fs) in
  (forall x, fs !! path = Some x -> fs' !! path = Some x)
  /\ (path <> object_path (hashObject t c) -> fs' !! path = fs !! path).
Proof.
  cbv zeta. rewrite writeObject_lookup. split.
  - intros x Hx. rewrite Hx. now destruct (decide _).
  - intros Hne. now destruct (decide _).
Qed.


(** *** Commit texts without a card *)

Lemma parse_header_no_card (line : jstr) (acc : CommitData) :
  startsWith (lit "card ") line = false ->
  card (parse_header line acc) = card acc.
Proof.
  intros H. unfold parse_header. rewrite H.
  destruct (startsWith (lit "parent ") line); [reflexivity|].
  destruct (startsWith (lit "author ") line); reflexivity.
Qed.

Lemma parse_lines_no_card (lines : list jstr) : forall acc,
  Forall (fun line => startsWith (lit "card ") line = false) lines ->
  card (fst (parse_lines lines acc)) = card acc.
Proof.
  induction lines as [|line rest IH]; intros acc H; [reflexivity|].
  inversion H as [|? ? Hl Hr]; subst.
  destruct line as [|c line]; [reflexivity|].
  cbn [parse_lines]. rewrite IH by assumption.
  now apply parse_header_no_card.
Qed.

(** X4.  A commit text none of whose lines starts with [card ] (the empty
    text among them) is refused: [parseCommit] throws
    [Malformed commit object <hash>: missing card hash]. *)
Theorem parseCommit_missing_card (h raw : jstr) :
  Forall (fun line => startsWith (lit "card ") line = false) (split_on LF raw) ->
  parseCommit h raw
  = Err (Error (lit "Malformed commit object " ++ h ++ lit ": missing card hash")).
Proof.
  intros H. unfold parseCommit.
  pose proof (parse_lines_no_card (split_on LF raw)
                {| card := []; parent := None; author := [];
                   timestamp := Num 0; message := [] |} H) as Hc.
  destruct (parse_lines _ _) as [acc start]. cbn [fst card] in Hc.
  now rewrite Hc.
Qed.

(** *** Trimming *)

Lemma trim_start_app_space (s : jstr) (c : Z) :
  is_js_space c = true ->
  trim_start (s ++ [c])
  = match trim_start s with [] => [] | _ => trim_start s ++ [c] end.
Proof.
  intros Hc. induction s as [|x s IH]; cbn [app trim_start].
  - now rewrite Hc.
  - destruct (is_js_space x); [exact IH | reflexivity].
Qed.

Lemma trim_app_space (s : jstr) (c : Z) :
  is_js_space c = true -> trim (s ++ [c]) = trim s.
Proof.
  intros Hc. unfold trim. rewrite trim_start_app_space by assumption.
  destruct (trim_start s) as [|x r]; [reflexivity|].
  rewrite rev_app_distr. cbn [rev app trim_start]. now rewrite Hc.
Qed.

Lemma trim_is_trimEnd (s : jstr) (c : Z) :
  is_js_space c = false -> trim (c :: s) = trimEnd (c :: s).
Proof. intros Hc. unfold trim, trimEnd. now rewrite trim_start_head. Qed.

Lemma trim_start_app_head (a b : jstr) (c : Z) :
  is_js_space c = false -> trim_start (a ++ c :: b) = trim_start a ++ c :: b.
Proof.
  intros Hc. induction a as [|x a IH]; cbn [app trim_start].
  - now rewrite Hc.
  - destruct (is_js_space x); [exact IH | reflexivity].
Qed.

Lemma trimEnd_app_last (a b : jstr) (c : Z) :
  is_js_space c = false -> trimEnd (a ++ c :: b) = a ++ trimEnd (c :: b).
Proof.
  intros Hc. unfold trimEnd.
  assert (E1 : rev (a ++ c :: b) = rev b ++ c :: rev a).
  { rewrite rev_app_distr. cbn [rev]. now rewrite <- app_assoc. }
  assert (E2 : rev (c :: b) = rev b ++ [c]) by reflexivity.
  rewrite E1, E2, !trim_start_app_head by assumption.
  rewrite !rev_app_distr. cbn [rev app]. rewrite rev_involutive.
  now rewrite <- app_assoc.
Qed.

Lemma trimEnd_cons (c : Z) (s : jstr) :
  is_js_space c = false -> trimEnd (c :: s) = c :: trimEnd s.
Proof.
  intros Hc. unfold trimEnd. cbn [rev].
  rewrite trim_start_app_head by assumption.
  rewrite rev_app_distr. reflexivity.
Qed.

Lemma trimEnd_app_space (s : jstr) (c : Z) :
  is_js_space c = true -> trimEnd (s ++ [c]) = trimEnd s.
Proof.
  intros Hc. unfold trimEnd. rewrite rev_app_distr. cbn [rev app trim_start].
  now rewrite Hc.
Qed.

(** *** Texts that end in a line feed *)

Lemma plain_not_surrogate (c : Z) :
  plain c -> is_high_surrogate c = false /\ is_low_surrogate c = false.
Proof. intros H. exact H. Qed.

Lemma toWellFormed_app_plain_upto (n : nat) : forall (s r : jstr) (c : Z),
  (length s <= n)%nat -> plain c ->
  toWellFormed (s ++ c :: r) = toWellFormed s ++ toWellFormed (c :: r).
Proof.
  induction n as [|n IH]; intros s r c Hn Hc.
  - destruct s; [reflexivity | cbn in Hn; lia].
  - destruct s as [|u rest]; [reflexivity|].
    cbn [length] in Hn. cbn [app toWellFormed].
    destruct (is_high_surrogate u) eqn:Hh.
    + destruct rest as [|l rest'].
      * cbn [app]. destruct Hc as [Hch Hcl]. rewrite Hcl.
        cbn [toWellFormed]. rewrite Hch, Hcl. reflexivity.
      * cbn [app length] in *. destruct (is_low_surrogate l).
        -- rewrite IH by (assumption || lia). reflexivity.
        -- change (l :: rest' ++ c :: r) with ((l :: rest') ++ c :: r).
           rewrite (IH (l :: rest')) by (assumption || cbn [length]; lia).
           reflexivity.
    + destruct (is_low_surrogate u); rewrite IH by (assumption || lia);
        reflexivity.
Qed.

Lemma toWellFormed_app_plain (s r : jstr) (c : Z) :
  plain c -> toWellFormed (s ++ c :: r) = toWellFormed s ++ toWellFormed (c :: r).
Proof. now apply (toWellFormed_app_plain_upto (length s)). Qed.

Lemma plain_LF : plain LF.
Proof. apply plain_below. unfold LF. lia. Qed.

Lemma toWellFormed_line (s : jstr) :
  toWellFormed (s ++ [LF]) = toWellFormed s ++ [LF].
Proof. now rewrite (toWellFormed_app_plain s [] LF plain_LF). Qed.

Lemma toWellFormed_plain_app (p s : jstr) :
  Forall plain p -> toWellFormed (p ++ s) = p ++ toWellFormed s.
Proof.
  induction 1 as [|c p [Hh Hl] _ IH]; [reflexivity|].
  cbn [app toWellFormed]. now rewrite Hh, Hl, IH.
Qed.

Lemma plain_lit (s : string) : Forall plain (lit s).
Proof.
  eapply Forall_impl; [apply lit_ascii|]. cbv beta. intros u Hu.
  apply plain_below. lia.
Qed.

Lemma ref_line (h : jstr) : trim (toWellFormed (h ++ [LF])) = trim (toWellFormed h).
Proof. rewrite toWellFormed_line. now apply trim_app_space. Qed.

(** *** Paths of the refs *)

Lemma remote_path_not_heads (r b b' : jstr) : remote_ref_path r b <> heads_prefix ++ b'.
Proof. intros H. apply (f_equal (fun l => l !! 5%nat)) in H. discriminate. Qed.

Lemma remote_path_not_HEAD (r b : jstr) : remote_ref_path r b <> HEAD_PATH.
Proof. intros H. apply (f_equal head) in H. discriminate. Qed.

Lemma remote_path_not_object (r b h : jstr) : remote_ref_path r b <> object_path h.
Proof. intros H. apply (f_equal head) in H. discriminate. Qed.

Lemma getRemoteRef_eq (r b : jstr) (fs : files) :
  getRemoteRef r b fs = (Ok (trim <$> fs !! remote_ref_path r b), fs).
Proof.
  unfold getRemoteRef, try_catch, bind, ret. rewrite readFile_eq.
  now destruct (fs !! remote_ref_path r b).
Qed.

Lemma startsWith_split (p s : jstr) :
  startsWith p s = true -> s = p ++ slice_from s (Z.of_nat (length p)).
Proof.
  intros H. assert (E : exists r, s = p ++ r).
  { revert s H. induction p as [|a p IH]; intros s H; [now exists s|].
    destruct s as [|c s]; [discriminate|]. cbn [startsWith] in H.
    apply andb_prop in H as [Ha Hp]. apply Z.eqb_eq in Ha. subst c.
    destruct (IH s Hp) as [r ->]. now exists r. }
  destruct E as [r ->]. now rewrite slice_from_app.
Qed.

Lemma getHead_eq (fs : files) :
  getHead fs
  = (match fs !! HEAD_PATH with
     | None => Err (ENOENT HEAD_PATH)
     | Some raw =>
         if startsWith (lit "ref: ") (trim raw) then Ok (slice_from (trim raw) 5)
         else Err (Error (lit "HEAD is in an unexpected state: " ++ [34] ++ trim raw
                            ++ [34] ++ lit ". Only symbolic refs are supported."))
     end, fs).
Proof.
  unfold getHead, bind. rewrite readFile_eq.
  destruct (fs !! HEAD_PATH); [|reflexivity].
  now destruct (startsWith _ _).
Qed.

Lemma getCurrentBranch_ref (fs : files) (b : jstr) :
  fst (getCurrentBranch fs) = Ok b -> getHead fs = (Ok (heads_prefix ++ b), fs).
Proof.
  unfold getCurrentBranch, bind. pose proof (getHead_state fs) as Hs.
  destruct (getHead fs) as [[ref|e] fs1]; cbn [snd] in Hs; subst fs1;
    [|discriminate].
  destruct (startsWith heads_prefix ref) eqn:E; cbn [negb]; [|discriminate].
  cbn [fst ret]. intros [= <-]. now rewrite <- startsWith_split.
Qed.

(** X5.  After [setBranch(b, h)], [getBranch(b)] returns [h] without the
    white space around it (and as its UTF-8 form decodes), so a digest
    comes back as it was given; HEAD and every other file are as before. *)
Theorem setBranch_then_getBranch (b h : jstr) (fs : files) :
  simple_name b ->
  let fs' := snd (setBranch b h fs) in
  fst (setBranch b h fs) = Ok tt
  /\ getBranch b fs' = (Ok (Some (trim (toWellFormed h))), fs')
  /\ (Forall is_lower_hex h -> getBranch b fs' = (Ok (Some h), fs'))
  /\ (forall path, path <> heads_prefix ++ b -> fs' !! path = fs !! path)
  /\ getCurrentBranch fs' = (fst (getCurrentBranch fs), fs').
Proof.
  intros _ fs'. unfold fs', setBranch. rewrite writeFile_eq. cbn [fst snd].
  rewrite getBranch_eq, lookup_insert_eq. cbn [fmap option_fmap option_map].
  rewrite ref_line. repeat split.
  - intros Hh. rewrite <- ref_line. now rewrite trim_hex_line.
  - intros path Hp. now rewrite lookup_insert_ne.
  - apply run_eq; [|apply getCurrentBranch_state].
    apply getCurrentBranch_frame. rewrite lookup_insert_ne; [reflexivity|].
    apply heads_path_not_HEAD.
Qed.

Lemma head_line_trim (w : jstr) :
  trim (lit "ref: " ++ heads_prefix ++ w ++ [LF])
  = lit "ref: " ++ heads_prefix ++ trimEnd w.
Proof.
  change (lit "ref: " ++ heads_prefix ++ w ++ [LF])
    with (114 :: (lit "ef: refs/heads" ++ 47 :: (w ++ [LF]))).
  rewrite trim_is_trimEnd by reflexivity.
  change (114 :: (lit "ef: refs/heads" ++ 47 :: (w ++ [LF])))
    with (lit "ref: refs/heads" ++ 47 :: (w ++ [LF])).
  rewrite trimEnd_app_last by reflexivity.
  change (47 :: (w ++ [LF])) with ((47 :: w) ++ [LF]).
  rewrite trimEnd_app_space by reflexivity.
  rewrite trimEnd_cons by reflexivity.
  reflexivity.
Qed.

(** What [getCurrentBranch] reads from the HEAD that [setHead] writes. *)
Lemma getCurrentBranch_of_head_line (b : jstr) (fs : files) :
  fst (getCurrentBranch
         (<[HEAD_PATH := toWellFormed (lit "ref: refs/heads/" ++ b ++ [LF])]> fs))
  = Ok (trimEnd (toWellFormed b)).
Proof.
  unfold getCurrentBranch, bind. rewrite getHead_eq, lookup_insert_eq.
  change (lit "ref: refs/heads/" ++ b ++ [LF])
    with (lit "ref: " ++ heads_prefix ++ b ++ [LF]).
  rewrite toWellFormed_plain_app by apply plain_lit.
  rewrite toWellFormed_plain_app by apply plain_lit.
  rewrite toWellFormed_line, head_line_trim.
  rewrite startsWith_app. cbn [negb].
  rewrite (slice_from_app (lit "ref: ")).
  rewrite startsWith_app. cbn [negb fst ret].
  now rewrite (slice_from_app heads_prefix).
Qed.

(** X6.  After [setHead(b)], [getCurrentBranch] returns [b] without its
    trailing white space (and as its UTF-8 form decodes): the name itself
    when it is well formed and does not end in white space.  No other file
    changes. *)
Theorem setHead_then_getCurrentBranch (b : jstr) (fs : files) :
  let fs' := snd (setHead b fs) in
  fst (setHead b fs) = Ok tt
  /\ getCurrentBranch fs' = (Ok (trimEnd (toWellFormed b)), fs')
  /\ (toWellFormed b = b -> trimEnd b = b -> getCurrentBranch fs' = (Ok b, fs'))
  /\ (forall path, path <> HEAD_PATH -> fs' !! path = fs !! path).
Proof.
  intros fs'.
  assert (Hc : getCurrentBranch fs' = (Ok (trimEnd (toWellFormed b)), fs')).
  { apply run_eq; [|apply getCurrentBranch_state].
    unfold fs', setHead. rewrite writeFile_eq. cbn [snd].
    apply getCurrentBranch_of_head_line. }
  split; [reflexivity|]. split; [exact Hc|]. split.
  - intros Hw Ht. rewrite Hc. now rewrite Hw, Ht.
  - intros path Hp. unfold fs', setHead. rewrite writeFile_eq. cbn [snd].
    now rewrite lookup_insert_ne.
Qed.

(** X7.  [resolveHead] is [getBranch] of the current branch: where
    [getCurrentBranch] returns [b], [resolveHead] returns the commit that
    [getBranch(b)] returns, and throws [Branch ref refs/heads/b does not
    exist] where [getBranch(b)] returns [null]; it changes no file. *)
Theorem resolveHead_follows_current_branch (b : jstr) (fs : files) :
  fst (getCurrentBranch fs) = Ok b ->
  resolveHead fs
  = (match fst (getBranch b fs) with
     | Ok (Some h) => Ok h
     | _ => Err (Error (lit "Branch ref refs/heads/" ++ b
                          ++ lit " does not exist. Repository may be empty."))
     end, fs).
Proof.
  intros Hb. apply getCurrentBranch_ref in Hb.
  unfold resolveHead, bind. rewrite Hb.
  unfold try_catch, bind, ret, throw. rewrite readFile_eq, getBranch_eq.
  cbn [fst]. destruct (fs !! (heads_prefix ++ b)); reflexivity.
Qed.

(** X8.  After [setRemoteRef(r, b, h)], [getRemoteRef(r, b)] returns [h]
    without the white space around it; the local branches, HEAD and the
    objects are as before. *)
Theorem setRemoteRef_then_getRemoteRef (r b h : jstr) (fs : files) :
  simple_name r -> simple_name b ->
  let fs' := snd (setRemoteRef r b h fs) in
  getRemoteRef r b fs' = (Ok (Some (trim (toWellFormed h))), fs')
  /\ (Forall is_lower_hex h -> getRemoteRef r b fs' = (Ok (Some h), fs'))
  /\ (forall b', simple_name b' -> getBranch b' fs' = (fst (getBranch b' fs), fs'))
  /\ getCurrentBranch fs' = (fst (getCurrentBranch fs), fs')
  /\ (forall x, readObject x fs' = (fst (readObject x fs), fs')).
Proof.
  intros _ _ fs'. unfold fs', setRemoteRef. rewrite writeFile_eq. cbn [snd].
  rewrite getRemoteRef_eq, lookup_insert_eq. cbn [fmap option_fmap option_map].
  rewrite ref_line. repeat split.
  - intros Hh. rewrite <- ref_line. now rewrite trim_hex_line.
  - intros b' _. rewrite !getBranch_eq. cbn [fst].
    rewrite lookup_insert_ne; [reflexivity|]. apply remote_path_not_heads.
  - apply run_eq; [|apply getCurrentBranch_state].
    apply getCurrentBranch_frame. rewrite lookup_insert_ne; [reflexivity|].
    apply remote_path_not_HEAD.
  - intros x. rewrite !readObject_eq. cbn [fst].
    rewrite lookup_insert_ne; [reflexivity|]. apply remote_path_not_object.
Qed.

Section Repository.

Context (JSON_parse : jstr -> result json)
        (discovered : list SkillMetadata)
        (dirName : jstr).

Lemma readWorkingCard_eq (fs : files) :
  (readWorkingCard JSON_parse) fs
  = (match fs !! CARD_PATH with
     | Some raw => match JSON_parse raw with
                   | Ok j => Ok j
                   | Err _ => Err cannot_read_card
                   end
     | None => Err cannot_read_card
     end, fs).
Proof.
  unfold readWorkingCard, try_catch, bind, lift, throw.
  rewrite readFile_eq. destruct (fs !! CARD_PATH); [|reflexivity].
  now destruct (JSON_parse _).
Qed.

Lemma writeWorkingCard_eq (c : json) (fs : files) :
  writeWorkingCard c fs = (Ok tt, <[CARD_PATH := JSON_stringify2 c ++ [LF]]> fs).
Proof.
  unfold writeWorkingCard. rewrite writeFile_eq, toWellFormed_id; [reflexivity|].
  apply well_formed_JSON_stringify2_line.
Qed.

Lemma getAuthorName_total (fs : files) :
  exists a, (getAuthorName JSON_parse dirName) fs = (Ok a, fs).
Proof.
  unfold getAuthorName, try_catch, bind. rewrite readWorkingCard_eq.
  destruct (fs !! CARD_PATH) as [raw|]; [|eexists; reflexivity].
  destruct (JSON_parse raw) as [j|e]; [|eexists; reflexivity].
  destruct j; try (eexists; reflexivity).
  all: destruct (get (lit "name") _) as [n|]; [|eexists; reflexivity];
    destruct (truthy (Some n)); eexists; reflexivity.
Qed.

Lemma getCardAtCommit_eq (h : jstr) (fs : files) :
  (getCardAtCommit JSON_parse) h fs
  = (match fs !! object_path h with
     | None => Err (Error (lit "Object not found: " ++ h))
     | Some commitRaw =>
         match parseCommit h commitRaw with
         | Err e => Err e
         | Ok c =>
             match fs !! object_path (card c) with
             | None => Err (Error (lit "Object not found: " ++ card c))
             | Some cardRaw => JSON_parse cardRaw
             end
         end
     end, fs).
Proof.
  unfold getCardAtCommit, bind, lift. rewrite readObject_eq.
  destruct (fs !! object_path h) as [commitRaw|]; [|reflexivity].
  destruct (parseCommit h commitRaw) as [c|e]; [|reflexivity].
  rewrite readObject_eq. now destruct (fs !! object_path (card c)).
Qed.

Lemma object_path_not_CARD (h : jstr) : object_path h <> CARD_PATH.
Proof. intros H. apply (f_equal head) in H. discriminate. Qed.

Lemma heads_path_not_CARD (b : jstr) : heads_prefix ++ b <> CARD_PATH.
Proof. intros H. apply (f_equal head) in H. discriminate. Qed.

Lemma HEAD_not_CARD : HEAD_PATH <> CARD_PATH.
Proof. discriminate. Qed.

Lemma after_card_write_lookup (resolved : json) (fs : files) (path : jstr) :
  path <> CARD_PATH ->
  is_Some (fs !! path)
  \/ path <> object_path (hashObject Tcard (JSON_stringify2 resolved)) ->
  after_card_write resolved fs !! path = fs !! path.
Proof.
  intros Hc Hp. unfold after_card_write.
  rewrite writeObject_lookup, writeWorkingCard_eq. cbn [snd].
  rewrite lookup_insert_ne by congruence.
  destruct (decide _) as [->|]; [|reflexivity].
  destruct Hp as [[x Hx]|Hp]; [now rewrite Hx | contradiction].
Qed.

Lemma after_card_write_card (resolved : json) (fs : files) :
  after_card_write resolved fs !! CARD_PATH = Some (JSON_stringify2 resolved ++ [LF]).
Proof.
  unfold after_card_write. rewrite writeObject_lookup, writeWorkingCard_eq. cbn [snd].
  destruct (decide _) as [E|_]; [now apply eq_sym, object_path_not_CARD in E|].
  apply lookup_insert_eq.
Qed.

Lemma after_card_write_object (resolved : json) (fs : files) :
  is_Some (after_card_write resolved fs
             !! object_path (hashObject Tcard (JSON_stringify2 resolved))).
Proof.
  unfold after_card_write. rewrite writeObject_lookup.
  destruct (decide _); [eauto|contradiction].
Qed.

(** What [commit] does up to its comparison with the tip. *)
Lemma commit_prefix (now1 now2 : Z) (msg : jstr) (fs : files)
    (working resolved : json) (b tip raw : jstr) (pc : NitCommit) :
  fst ((readWorkingCard JSON_parse) fs) = Ok working ->
  resolveSkillPointers discovered working = Ok resolved ->
  fst (getCurrentBranch fs) = Ok b ->
  fst (getBranch b fs) = Ok (Some tip) ->
  nonempty (Some tip) = true ->
  fst (readObject tip fs) = Ok raw ->
  parseCommit tip raw = Ok pc ->
  let cardHash := hashObject Tcard (JSON_stringify2 resolved) in
  let fs1 := after_card_write resolved fs in
  (commit JSON_parse discovered dirName) now1 now2 msg fs
  = if decide (card pc = cardHash) then (Err NoChanges, fs1)
    else
      (let* author := (getAuthorName JSON_parse dirName) in
       let commitContent :=
         serializeCommit {| card := cardHash; parent := Some tip;
                            author := author; timestamp := Num (now1 / 1000);
                            message := msg |} in
       let* commitHash := writeObject Tcommit commitContent in
       let* _ := setBranch b commitHash in
       ret {| hash := commitHash;
              data := {| card := cardHash; parent := Some tip; author := author;
                         timestamp := Num (now2 / 1000); message := msg |} |}) fs1.
Proof.
  intros Hw Hr Hb Ht Hne Hraw Hpc cardHash fs1.
  rewrite readWorkingCard_eq in Hw. cbn [fst] in Hw.
  rewrite getBranch_eq in Ht. cbn [fst] in Ht.
  rewrite readObject_eq in Hraw. cbn [fst] in Hraw.
  assert (Hraw' : fs !! object_path tip = Some raw).
  { destruct (fs !! object_path tip); [congruence|discriminate]. }
  unfold commit.
  rewrite (bind_ok _ _ fs working fs) by (rewrite readWorkingCard_eq; now rewrite Hw).
  rewrite (bind_ok _ _ fs resolved fs) by (unfold lift; now rewrite Hr).
  rewrite (bind_ok _ _ fs tt (snd (writeWorkingCard resolved fs)))
    by (now rewrite writeWorkingCard_eq).
  rewrite (bind_ok _ _ _ cardHash fs1)
    by (unfold fs1, after_card_write; now rewrite writeObject_eq).
  rewrite (bind_ok _ _ fs1 b fs1).
  2:{ apply run_eq; [|apply getCurrentBranch_state].
      rewrite <- Hb. apply getCurrentBranch_frame.
      apply after_card_write_lookup; [apply HEAD_not_CARD|].
      right. apply not_eq_sym, object_path_not_HEAD. }
  rewrite (bind_ok _ _ fs1 (Some tip) fs1).
  2:{ rewrite getBranch_eq. f_equal. rewrite <- Ht. do 2 f_equal.
      apply after_card_write_lookup; [apply heads_path_not_CARD|].
      right. apply not_eq_sym, object_path_not_heads. }
  destruct tip as [|t0 tip']; [discriminate|].
  set (tip := t0 :: tip') in *.
  match goal with
  | |- bind ?check ?k fs1 = _ =>
      assert (Hcheck : check fs1 = if decide (card pc = cardHash)
                                   then (Err NoChanges, fs1) else (Ok tt, fs1))
  end.
  { cbv beta iota.
    rewrite (bind_ok _ _ fs1 raw fs1).
    2:{ rewrite readObject_eq. f_equal. unfold fs1.
        rewrite after_card_write_lookup; [now rewrite Hraw'|apply object_path_not_CARD|].
        left. rewrite Hraw'. eauto. }
    rewrite (bind_ok _ _ fs1 pc fs1) by (unfold lift; now rewrite Hpc).
    now destruct (decide (card pc = cardHash)). }
  destruct (decide (card pc = cardHash)) as [E|E].
  - now rewrite (bind_err _ _ fs1 NoChanges fs1).
  - now rewrite (bind_ok _ _ fs1 tt fs1).
Qed.

(** C4.  In a repository whose working card is read and resolved and
    whose current branch has a tip commit that is read and parsed,
    [commit] fails with NoChanges exactly when the digest of the resolved
    card equals the card digest of the tip.  Otherwise it returns the new
    commit: the commit object it writes has the old tip as parent, the
    branch ref is untouched until that object is written, and setting the
    ref to the digest of the new commit is the last step. *)
Theorem commit_NoChanges_iff_same_card (now1 now2 : Z) (msg : jstr) (fs : files)
    (working resolved : json) (b tip raw : jstr) (pc : NitCommit) :
  fst (readWorkingCard JSON_parse fs) = Ok working ->
  resolveSkillPointers discovered working = Ok resolved ->
  fst (getCurrentBranch fs) = Ok b ->
  fst (getBranch b fs) = Ok (Some tip) ->
  nonempty (Some tip) = true ->
  fst (readObject tip fs) = Ok raw ->
  parseCommit tip raw = Ok pc ->
  let cardHash := hashObject Tcard (JSON_stringify2 resolved) in
  let fs1 := after_card_write resolved fs in
  let r := commit JSON_parse discovered dirName now1 now2 msg fs in
  (fst r = Err NoChanges <-> card pc = cardHash)
  /\ (card pc <> cardHash ->
      exists author,
        let content :=
          serializeCommit {| card := cardHash; parent := Some tip;
                             author := author; timestamp := Num (now1 / 1000);
                             message := msg |} in
        let h := hashObject Tcommit content in
        r = (Ok {| hash := h;
                   data := {| card := cardHash; parent := Some tip;
                              author := author; timestamp := Num (now2 / 1000);
                              message := msg |} |},
             snd (setBranch b h (snd (writeObject Tcommit content fs1))))
        /\ snd (writeObject Tcommit content fs1) !! (heads_prefix ++ b)
           = fs !! (heads_prefix ++ b)
        /\ fst (getBranch b (snd r)) = Ok (Some h)
        /\ is_Some (snd r !! object_path h)).
Proof.
  intros Hw Hr Hb Ht Hne Hraw Hpc cardHash fs1 r. subst r.
  rewrite (commit_prefix now1 now2 msg fs working resolved b tip raw pc) by assumption.
  fold cardHash. fold fs1.
  destruct (decide (card pc = cardHash)) as [E|E].
  { split; [tauto|contradiction]. }
  destruct (getAuthorName_total fs1) as [a Ha].
  rewrite (bind_ok _ _ fs1 a fs1) by exact Ha. cbv zeta.
  set (content := serializeCommit _).
  rewrite (bind_ok _ _ fs1 (hashObject Tcommit content)
             (snd (writeObject Tcommit content fs1)))
    by (now rewrite writeObject_eq).
  set (h := hashObject Tcommit content).
  set (fs2 := snd (writeObject Tcommit content fs1)).
  rewrite (bind_ok _ _ fs2 tt (snd (setBranch b h fs2))) by reflexivity.
  unfold ret. cbn [fst snd]. split.
  { split; [discriminate|contradiction]. }
  intros _. exists a. fold content. fold h. fold fs2.
  split; [reflexivity|].
  assert (Hfs2 : fs2 !! (heads_prefix ++ b) = fs !! (heads_prefix ++ b)).
  { unfold fs2. rewrite writeObject_lookup.
    destruct (decide _) as [E'|_]; [now apply eq_sym, object_path_not_heads in E'|].
    unfold fs1. apply after_card_write_lookup; [apply heads_path_not_CARD|].
    right. apply not_eq_sym, object_path_not_heads. }
  split; [exact Hfs2|].
  unfold setBranch. rewrite writeFile_eq. cbn [snd]. split.
  - rewrite getBranch_eq. cbn [fst]. rewrite lookup_insert_eq. cbn [fmap option_fmap option_map].
    rewrite trim_hex_line by apply hashObject_lower_hex. reflexivity.
  - rewrite lookup_insert_ne by (apply not_eq_sym, object_path_not_heads).
    unfold fs2. rewrite writeObject_lookup.
    destruct (decide _); [eauto|contradiction].
Qed.

(** C10.  When [commit] fails with NoChanges, the files are those
    reached after the two writes that precede the comparison: the working
    card holds the resolved card in its two-space serialisation followed
    by a line feed, and the card object is in the store.  The files
    differ from the initial ones whenever the working card did not hold
    that exact text. *)
Theorem commit_NoChanges_after_writes (now1 now2 : Z) (msg : jstr) (fs : files)
    (working resolved : json) (b tip raw : jstr) (pc : NitCommit) :
  fst (readWorkingCard JSON_parse fs) = Ok working ->
  resolveSkillPointers discovered working = Ok resolved ->
  fst (getCurrentBranch fs) = Ok b ->
  fst (getBranch b fs) = Ok (Some tip) ->
  nonempty (Some tip) = true ->
  fst (readObject tip fs) = Ok raw ->
  parseCommit tip raw = Ok pc ->
  let cardJson := JSON_stringify2 resolved in
  let cardHash := hashObject Tcard cardJson in
  card pc = cardHash ->
  let r := commit JSON_parse discovered dirName now1 now2 msg fs in
  fst r = Err NoChanges
  /\ snd r = snd (writeObject Tcard cardJson (snd (writeWorkingCard resolved fs)))
  /\ snd r !! CARD_PATH = Some (cardJson ++ [LF])
  /\ is_Some (snd r !! object_path cardHash)
  /\ (fs !! object_path cardHash = None ->
      snd r !! object_path cardHash = Some cardJson)
  /\ (fs !! CARD_PATH <> Some (cardJson ++ [LF]) -> snd r <> fs).
Proof.
  intros Hw Hr Hb Ht Hne Hraw Hpc cardJson cardHash E r. subst r.
  rewrite (commit_prefix now1 now2 msg fs working resolved b tip raw pc) by assumption.
  fold cardJson. fold cardHash.
  destruct (decide (card pc = cardHash)) as [_|]; [|contradiction].
  cbn [fst snd]. split; [reflexivity|]. split; [reflexivity|].
  split; [apply after_card_write_card|].
  split; [apply after_card_write_object|]. split.
  - intros Hfree. unfold after_card_write. rewrite writeObject_lookup.
    fold cardJson. fold cardHash.
    destruct (decide _); [|contradiction].
    rewrite writeWorkingCard_eq. cbn [snd].
    rewrite lookup_insert_ne by (apply not_eq_sym, object_path_not_CARD).
    rewrite Hfree. cbn [default]. f_equal. apply toWellFormed_id.
    apply well_formed_JSON_stringify2.
  - intros Hdiff Heq. apply Hdiff. rewrite <- Heq at 1.
    apply after_card_write_card.
Qed.

Lemma resolveHead_state (fs : files) : snd (resolveHead fs) = fs.
Proof.
  unfold resolveHead, bind. pose proof (getHead_state fs) as H.
  destruct (getHead fs) as [[ref|e] fs']; cbn in H; subst; [|reflexivity].
  unfold try_catch, bind, ret, throw. rewrite readFile_eq.
  now destruct (fs !! ref).
Qed.

Lemma getCardAtCommit_state (h : jstr) (fs : files) :
  snd (getCardAtCommit JSON_parse h fs) = fs.
Proof. now rewrite getCardAtCommit_eq. Qed.

Lemma readWorkingCard_state (fs : files) :
  snd (readWorkingCard JSON_parse fs) = fs.
Proof. now rewrite readWorkingCard_eq. Qed.


End Repository.


Lemma sha256Hex_eq (data : jstr) :
  sha256Hex data = hex_encode (SHA256.digest (utf8_encode data)).
Proof. reflexivity. Qed.

Lemma loadAgentId_state (fs : files) : snd (loadAgentId fs) = fs.
Proof.
  unfold loadAgentId, try_catch, bind, ret, throw. rewrite readFile_eq.
  now destruct (fs !! lit "identity/agent-id").
Qed.

Section Remote.
Context (ed25519_sign : jstr -> jstr -> list Z -> result jstr).

(** C2.  The message that [buildAuthHeaders] hands to the signature is
    exactly METHOD, PATH, AGENT_ID and TIMESTAMP joined by line feeds,
    followed, when a body is present, by a line feed and the lowercase
    hexadecimal SHA-256 digest of the body; the agent id and the
    timestamp of the message are the ones sent in the headers. *)
Theorem buildAuthHeaders_signs_canonical_message
    (now : Z) (method path : jstr) (body : option jstr) (fs : files) (agentId : jstr) :
  fst (loadAgentId fs) = Ok agentId ->
  let timestamp := Z_toString (now / 1000) in
  buildAuthHeaders ed25519_sign now method path body fs
  = (let* signature :=
       signMessage ed25519_sign
         (canonical_message method path agentId timestamp body) in
     ret [(lit "X-Nit-Agent-Id", agentId);
          (lit "X-Nit-Timestamp", timestamp);
          (lit "X-Nit-Signature", signature)]) fs.
Proof.
  intros Hid timestamp. unfold buildAuthHeaders.
  rewrite (bind_ok _ _ fs agentId fs) by (apply run_eq; [assumption|apply loadAgentId_state]).
  fold timestamp. cbv zeta.
  assert (Hmsg :
    match body with
    | Some b => (method ++ [LF] ++ path ++ [LF] ++ agentId ++ [LF] ++ timestamp)
                  ++ [LF] ++ sha256Hex b
    | None => method ++ [LF] ++ path ++ [LF] ++ agentId ++ [LF] ++ timestamp
    end = canonical_message method path agentId timestamp body).
  { unfold canonical_message. destruct body as [b|].
    - rewrite sha256Hex_eq, <- !app_assoc. reflexivity.
    - now rewrite app_nil_r. }
  rewrite Hmsg. reflexivity.
Qed.
End Remote.

(** *** log *)

Lemma log_loop_step (fuel : nat) (h : jstr) (commits : list NitCommit) (fs : files) :
  nonempty (Some h) = true ->
  log_loop (S fuel) (Some h) commits fs
  = (let* raw := readObject h in
     let* c := lift (parseCommit h raw) in
     log_loop fuel (parent c) (commits ++ [c])) fs.
Proof. destruct h; [discriminate|reflexivity]. Qed.

Lemma log_fails_on_missing_parent (count : option Z) (fs : files)
    (b tip raw p : jstr) (c : NitCommit) :
  fst (getCurrentBranch fs) = Ok b ->
  fst (getBranch b fs) = Ok (Some tip) ->
  nonempty (Some tip) = true ->
  fst (readObject tip fs) = Ok raw ->
  parseCommit tip raw = Ok c ->
  parent c = Some p ->
  nonempty (Some p) = true ->
  fs !! object_path p = None ->
  2 <= default 50 count ->
  log count fs = (Err (Error (lit "Object not found: " ++ p)), fs).
Proof.
  intros Hb Ht Htne Hraw Hc Hp Hpne Hmiss Hlim. unfold log.
  rewrite (bind_ok _ _ fs b fs) by (apply run_eq; [assumption|apply getCurrentBranch_state]).
  rewrite (bind_ok _ _ fs (Some tip) fs)
    by (rewrite getBranch_eq in *; cbn [fst] in Ht; now rewrite Ht).
  destruct (Z.to_nat (default 50 count)) as [|[|fuel]] eqn:E; try lia.
  rewrite log_loop_step by assumption.
  rewrite (bind_ok _ _ fs raw fs)
    by (rewrite readObject_eq in *; cbn [fst] in Hraw; now rewrite Hraw).
  rewrite (bind_ok _ _ fs c fs) by (unfold lift; now rewrite Hc).
  rewrite Hp, log_loop_step by assumption.
  apply bind_err. rewrite readObject_eq. now rewrite Hmiss.
Qed.

(** *** Reading a quoted string back *)
Lemma hex_value_hex_digit d : 0 <= d < 16 -> hex_value (hex_digit d) = Some d.
Proof.
  intros Hd. unfold hex_value, hex_digit.
  destruct (Z.ltb_spec d 10).
  - replace ((48 <=? 48 + d) && (48 + d <=? 57)) with true by lia. f_equal. lia.
  - replace ((48 <=? 87 + d) && (87 + d <=? 57)) with false by lia.
    replace ((97 <=? 87 + d) && (87 + d <=? 102)) with true by lia. f_equal. lia.
Qed.

Lemma unquote_unicode_escape (u : Z) (t : jstr) :
  is_code_unit u ->
  unquote_body (unicode_escape u ++ t)
  = match unquote_body t with
    | Some (s, r) => Some (u :: s, r)
    | None => None
    end.
Proof.
  intros Hu. unfold is_code_unit in Hu. unfold unicode_escape, hex4.
  cbn [app unquote_body]. change (92 =? 34) with false. change (92 =? 92) with true.
  change (117 =? 117) with true. cbv iota.
  rewrite !Z.shiftr_div_pow2 by lia.
  rewrite !hex_value_hex_digit by (apply Z.mod_pos_bound; lia).
  destruct (unquote_body t) as [[s r]|]; [|reflexivity].
  do 2 f_equal. f_equal.
  change (2 ^ 12) with 4096. change (2 ^ 8) with 256. change (2 ^ 4) with 16.
  Z.to_euclidean_division_equations. lia.
Qed.

Lemma unquote_quote_body_upto (n : nat) : forall (s r : jstr),
  (length s <= n)%nat -> Forall is_code_unit s ->
  unquote_body (quote_body s ++ 34 :: r) = Some (s, r).
Proof.
  induction n as [|n IH]; intros s r Hn Hs.
  { destruct s; [reflexivity | cbn in Hn; lia]. }
  destruct s as [|u rest]; [reflexivity|]. cbn [length] in Hn.
  inversion Hs as [|? ? Hu Hrest]; subst.
  assert (IHrest : unquote_body (quote_body rest ++ 34 :: r) = Some (rest, r))
    by (apply IH; [lia|assumption]).
  cbn [quote_body].
  destruct (is_high_surrogate u) eqn:Hh.
  { destruct rest as [|l rest'].
    - rewrite unquote_unicode_escape by assumption. reflexivity.
    - destruct (is_low_surrogate l) eqn:Hl.
      + inversion Hrest as [|? ? Hlu Hrest']; subst. cbn [app unquote_body].
        unfold is_high_surrogate in Hh. unfold is_low_surrogate in Hl.
        replace (u =? 34) with false by lia. replace (u =? 92) with false by lia.
        replace (l =? 34) with false by lia. replace (l =? 92) with false by lia.
        rewrite IH by (cbn [length] in Hn; first [lia | assumption]). reflexivity.
      + rewrite <- app_assoc, unquote_unicode_escape, IHrest by assumption.
        reflexivity. }
  destruct (is_low_surrogate u) eqn:Hl.
  { rewrite <- app_assoc, unquote_unicode_escape, IHrest by assumption. reflexivity. }
  destruct (Z.eqb_spec u 8) as [->|H8]; [cbn; now rewrite IHrest|].
  destruct (Z.eqb_spec u 9) as [->|H9]; [cbn; now rewrite IHrest|].
  destruct (Z.eqb_spec u 10) as [->|H10]; [cbn; now rewrite IHrest|].
  destruct (Z.eqb_spec u 12) as [->|H12]; [cbn; now rewrite IHrest|].
  destruct (Z.eqb_spec u 13) as [->|H13]; [cbn; now rewrite IHrest|].
  destruct (Z.eqb_spec u 34) as [->|H34]; [cbn; now rewrite IHrest|].
  destruct (Z.eqb_spec u 92) as [->|H92]; [cbn; now rewrite IHrest|].
  destruct (Z.ltb_spec u 32).
  - rewrite <- app_assoc, unquote_unicode_escape, IHrest by assumption. reflexivity.
  - cbn [app unquote_body].
    replace (u =? 34) with false by lia. replace (u =? 92) with false by lia.
    now rewrite IHrest.
Qed.

Lemma unquote_quote_body (s r : jstr) :
  Forall is_code_unit s -> unquote_body (quote_body s ++ 34 :: r) = Some (s, r).
Proof. apply (unquote_quote_body_upto (length s)). reflexivity. Qed.

Lemma quote_app_inj (s1 s2 r1 r2 : jstr) :
  Forall is_code_unit s1 -> Forall is_code_unit s2 ->
  quote s1 ++ r1 = quote s2 ++ r2 -> s1 = s2 /\ r1 = r2.
Proof.
  intros H1 H2 E. unfold quote in E. cbn [app] in E.
  rewrite <- !app_assoc in E. cbn [app] in E. injection E as E.
  pose proof (unquote_quote_body s1 r1 H1) as U1.
  rewrite E, (unquote_quote_body s2 r2 H2) in U1. now injection U1 as -> ->.
Qed.

(** *** The text of a provider *)

Lemma serialize_object (props : list (jstr * json)) :
  serialize [] [] (JObj props)
  = match List.map member_text props with
    | [] => [123; 125]
    | parts => 123 :: join [44] parts ++ [125]
    end.
Proof.
  cbn [serialize].
  replace (List.map _ props) with (List.map member_text props);
    [now destruct (List.map member_text props)|].
  apply List.map_ext. now intros [k v].
Qed.

Lemma member_text_inj (kv1 kv2 : jstr * json) (r1 r2 : jstr) :
  string_valued [kv1] -> string_valued [kv2] ->
  member_text kv1 ++ r1 = member_text kv2 ++ r2 -> kv1 = kv2 /\ r1 = r2.
Proof.
  intros H1 H2 E.
  inversion H1 as [|? ? [Hk1 (v1 & Hv1 & Hu1)] _]; subst.
  inversion H2 as [|? ? [Hk2 (v2 & Hv2 & Hu2)] _]; subst.
  destruct kv1 as [k1 j1], kv2 as [k2 j2]. cbn [fst snd] in *. subst j1 j2.
  unfold member_text in E. cbn [fst snd serialize] in E.
  rewrite <- !app_assoc in E.
  apply quote_app_inj in E as [-> E]; try assumption.
  apply (f_equal (@tail Z)) in E. cbn [app tail] in E.
  apply quote_app_inj in E as [-> ->]; try assumption. split; reflexivity.
Qed.

Lemma members_inj (p1 : list (jstr * json)) : forall p2 (r1 r2 : jstr),
  string_valued p1 -> string_valued p2 -> p1 <> [] -> p2 <> [] ->
  join [44] (List.map member_text p1) ++ 125 :: r1
  = join [44] (List.map member_text p2) ++ 125 :: r2 ->
  p1 = p2 /\ r1 = r2.
Proof.
  induction p1 as [|kv1 p1 IH]; intros p2 r1 r2 H1 H2 Hn1 Hn2 E; [contradiction|].
  destruct p2 as [|kv2 p2]; [contradiction|].
  inversion H1 as [|? ? Hkv1 H1']; subst. inversion H2 as [|? ? Hkv2 H2']; subst.
  assert (S1 : string_valued [kv1]) by (constructor; [assumption|constructor]).
  assert (S2 : string_valued [kv2]) by (constructor; [assumption|constructor]).
  destruct p1 as [|kv1' p1], p2 as [|kv2' p2].
  - change (join [44] (List.map member_text [kv1])) with (member_text kv1) in E.
    change (join [44] (List.map member_text [kv2])) with (member_text kv2) in E.
    apply member_text_inj in E as [-> E]; try assumption. now injection E as ->.
  - change (join [44] (List.map member_text [kv1])) with (member_text kv1) in E.
    change (join [44] (List.map member_text (kv2 :: kv2' :: p2)))
      with (member_text kv2 ++ [44] ++ join [44] (List.map member_text (kv2' :: p2)))
      in E.
    rewrite <- !app_assoc in E.
    apply member_text_inj in E as [_ E]; try assumption. discriminate.
  - change (join [44] (List.map member_text [kv2])) with (member_text kv2) in E.
    change (join [44] (List.map member_text (kv1 :: kv1' :: p1)))
      with (member_text kv1 ++ [44] ++ join [44] (List.map member_text (kv1' :: p1)))
      in E.
    rewrite <- !app_assoc in E.
    apply member_text_inj in E as [_ E]; try assumption. discriminate.
  - change (join [44] (List.map member_text (kv1 :: kv1' :: p1)))
      with (member_text kv1 ++ [44] ++ join [44] (List.map member_text (kv1' :: p1)))
      in E.
    change (join [44] (List.map member_text (kv2 :: kv2' :: p2)))
      with (member_text kv2 ++ [44] ++ join [44] (List.map member_text (kv2' :: p2)))
      in E.
    rewrite <- !app_assoc in E.
    apply member_text_inj in E as [-> E]; try assumption.
    apply (f_equal (@tail Z)) in E. cbn [app tail] in E.
    apply IH in E as [-> ->]; try assumption; try discriminate. split; reflexivity.
Qed.

(** Two objects of strings have the same compact text only if they have
    the same properties in the same order. *)
Lemma serialize_string_object_inj (p1 p2 : list (jstr * json)) :
  string_valued p1 -> string_valued p2 ->
  serialize [] [] (JObj p1) = serialize [] [] (JObj p2) -> p1 = p2.
Proof.
  intros H1 H2 E. rewrite !serialize_object in E.
  destruct p1 as [|kv1 p1], p2 as [|kv2 p2]; try reflexivity.
  - cbn [List.map] in E. injection E as E.
    destruct (List.map member_text p2); cbn [join] in E;
      unfold member_text, quote in E; cbn [app] in E; discriminate.
  - cbn [List.map] in E. injection E as E.
    destruct (List.map member_text p1); cbn [join] in E;
      unfold member_text, quote in E; cbn [app] in E; discriminate.
  - assert (E' : join [44] (List.map member_text (kv1 :: p1)) ++ 125 :: []
                 = join [44] (List.map member_text (kv2 :: p2)) ++ 125 :: [])
      by (apply (f_equal (@tail Z)) in E; exact E).
    apply members_inj in E' as [E' _]; try assumption; discriminate.
Qed.

(** *** diffCards *)

Lemma filter_none {A} (p : A -> bool) (l : list A) :
  Forall (fun x => p x = false) l -> List.filter p l = [].
Proof. induction 1 as [|x l Hx _ IH]; cbn; [reflexivity|now rewrite Hx]. Qed.

Lemma field_entries_not_provider (names : list jstr)
    (entry : jstr -> list FieldDiff) :
  Forall (fun n => n <> lit "provider") names ->
  (forall n, Forall (fun e => field e = n) (entry n)) ->
  Forall (fun e => bool_decide (field e = lit "provider") = false)
         (List.concat (List.map entry names)).
Proof.
  intros Hn He. induction Hn as [|n names Hne _ IH]; [constructor|].
  cbn [List.map List.concat]. apply Forall_app. split; [|assumption].
  eapply Forall_impl; [apply He|]. cbv beta. intros e ->.
  now apply bool_decide_eq_false.
Qed.

Lemma diffCards_fields (oldCard newCard : json) (d : DiffResult) :
  diffCards oldCard newCard = Ok d ->
  exists scalars arrays,
    fields d = (scalars ++ provider_entry oldCard newCard) ++ arrays
    /\ Forall (fun e => bool_decide (field e = lit "provider") = false) scalars
    /\ Forall (fun e => bool_decide (field e = lit "provider") = false) arrays.
Proof.
  intros H. unfold diffCards in H.
  destruct (is_null oldCard || is_null newCard); [discriminate|].
  destruct (skills_entries oldCard) as [oldEntries|]; [|discriminate].
  destruct (skills_entries newCard) as [newEntries|]; [|discriminate].
  match type of H with
  | context [List.concat (List.map ?f scalarFields)] =>
      set (scalars := List.concat (List.map f scalarFields)) in H;
      assert (Hs : Forall (fun e => bool_decide (field e = lit "provider") = false)
                          scalars)
  end.
  { clear H. apply field_entries_not_provider.
    - unfold scalarFields. repeat (constructor; [vm_compute; discriminate|]). constructor.
    - intros n. destruct (negb _); repeat constructor. }
  match type of H with
  | context [List.concat (List.map ?f arrayFields)] =>
      set (arrays := List.concat (List.map f arrayFields)) in H;
      assert (Ha : Forall (fun e => bool_decide (field e = lit "provider") = false)
                          arrays)
  end.
  { clear H. apply field_entries_not_provider.
    - unfold arrayFields. repeat (constructor; [vm_compute; discriminate|]). constructor.
    - intros n. destruct (negb _); repeat constructor. }
  clearbody scalars arrays.
  exists scalars, arrays. split; [|split; assumption].
  injection H as <-. unfold provider_entry. cbn [fields].
  destruct (negb (bool_decide _)); [reflexivity|].
  now rewrite (app_nil_r scalars).
Qed.

(** C8, amended.  [diffCards] compares the two providers by their
    [JSON.stringify] texts, [null] standing for an absent provider: it
    pushes no entry for the provider when the texts are equal, and exactly
    one when they differ.  The text follows the order of the keys: two
    provider objects of strings that differ in a key, in a value or in the
    order of their keys get exactly one entry. *)
Theorem diffCards_provider_by_serialized_form (oldCard newCard : json) (d : DiffResult) :
  diffCards oldCard newCard = Ok d ->
  let oldProvider := JSON_stringify (or_null (get (lit "provider") oldCard)) in
  let newProvider := JSON_stringify (or_null (get (lit "provider") newCard)) in
  let entry := {| field := lit "provider"; old := get (lit "provider") oldCard;
                  new := get (lit "provider") newCard |} in
  (oldProvider = newProvider -> provider_entries d = [])
  /\ (oldProvider <> newProvider -> provider_entries d = [entry])
  /\ (forall p1 p2,
        get (lit "provider") oldCard = Some (JObj p1) ->
        get (lit "provider") newCard = Some (JObj p2) ->
        string_valued p1 -> string_valued p2 ->
        p1 <> p2 -> provider_entries d = [entry]).
Proof.
  intros H oldProvider newProvider entry.
  destruct (diffCards_fields _ _ _ H) as (scalars & arrays & Hf & Hs & Ha).
  assert (Hne : oldProvider <> newProvider -> provider_entries d = [entry]).
  { intros E. unfold provider_entries. rewrite Hf, !List.filter_app.
    rewrite (filter_none _ scalars Hs), (filter_none _ arrays Ha), app_nil_r.
    cbn [app]. unfold provider_entry. fold oldProvider. fold newProvider.
    rewrite bool_decide_eq_false_2 by assumption. reflexivity. }
  split; [|split; [exact Hne|]].
  - intros E. unfold provider_entries. rewrite Hf, !List.filter_app.
    rewrite (filter_none _ scalars Hs), (filter_none _ arrays Ha), app_nil_r.
    cbn [app]. unfold provider_entry. fold oldProvider. fold newProvider.
    rewrite bool_decide_eq_true_2 by assumption. reflexivity.
  - intros p1 p2 Hp1 Hp2 Hs1 Hs2 Hdiff. apply Hne.
    unfold oldProvider, newProvider. rewrite Hp1, Hp2.
    cbn [or_null JSON_stringify option_map]. intros [= E].
    apply Hdiff. now apply serialize_string_object_inj.
Qed.

(** *** The public key field *)

(** X9.  [parsePublicKeyField] inverts [formatPublicKeyField]: it returns
    [k] exactly on the field [ed25519:k], and throws on a text without
    that prefix. *)
Theorem parsePublicKeyField_inverts_format (f k : jstr) :
  (parsePublicKeyField f = Ok k <-> f = formatPublicKeyField k)
  /\ (startsWith (lit "ed25519:") f = false ->
      parsePublicKeyField f
      = Err (Error (lit "Invalid publicKey format: expected " ++ [34]
                      ++ lit "ed25519:<base64>" ++ [34] ++ lit ", got " ++ [34]
                      ++ f ++ [34]))).
Proof.
  unfold parsePublicKeyField, formatPublicKeyField. split; [split|].
  - destruct (startsWith (lit "ed25519:") f) eqn:E; cbn [negb]; [|discriminate].
    intros [= <-]. now apply startsWith_split.
  - intros ->. rewrite startsWith_app. cbn [negb].
    now rewrite slice_from_app.
  - intros ->. reflexivity.
Qed.

(** *** Base64 and its URL-safe form *)

Lemma pad_loop_eq (s : jstr) :
  exists k, (k <= 3)%nat /\ pad_loop 3 s = s ++ repeat 61 k
            /\ Z.of_nat (length (pad_loop 3 s)) mod 4 = 0.
Proof.
  cbn [pad_loop].
  destruct (Z.of_nat (length s) mod 4 =? 0) eqn:E0; cbn [negb].
  { exists 0%nat. rewrite app_nil_r. apply Z.eqb_eq in E0. repeat split; [lia|assumption]. }
  destruct (Z.of_nat (length (s ++ [61])) mod 4 =? 0) eqn:E1; cbn [negb].
  { exists 1%nat. apply Z.eqb_eq in E1. repeat split; [lia|assumption]. }
  destruct (Z.of_nat (length ((s ++ [61]) ++ [61])) mod 4 =? 0) eqn:E2; cbn [negb].
  { exists 2%nat. apply Z.eqb_eq in E2. rewrite <- app_assoc in *.
    repeat split; [lia|assumption]. }
  exists 3%nat. rewrite <- !app_assoc. split; [lia|]. split; [reflexivity|].
  apply Z.eqb_neq in E0, E1, E2.
  rewrite !length_app in *. cbn [length] in *.
  rewrite !Nat2Z.inj_add in *. cbn [Z.of_nat Pos.of_succ_nat] in *.
  generalize dependent (Z.of_nat (length s)). intros n E0 E1 E2.
  Z.div_mod_to_equations. lia.
Qed.

Lemma replace_char_app x y (a b : jstr) :
  replace_char x y (a ++ b) = replace_char x y a ++ replace_char x y b.
Proof. apply map_app. Qed.

Lemma replace_char_pads x y k :
  x <> 61 -> replace_char x y (repeat 61 k) = repeat 61 k.
Proof.
  intros Hx. unfold replace_char. induction k as [|k IH]; [reflexivity|].
  cbn [repeat List.map]. rewrite IH.
  destruct (61 =? x) eqn:E; [lia | reflexivity].
Qed.

Lemma drop_leading_pads (k : nat) (s : jstr) :
  drop_leading 61 (repeat 61 k ++ s) = drop_leading 61 s.
Proof. induction k as [|k IH]; [reflexivity | exact IH]. Qed.

Lemma rev_repeat {A} (x : A) k : rev (repeat x k) = repeat x k.
Proof.
  induction k as [|k IH]; [reflexivity|]. cbn [repeat rev]. rewrite IH.
  clear IH. induction k as [|k IH]; [reflexivity|]. cbn [repeat app]. now rewrite IH.
Qed.

Lemma drop_leading_none (x : Z) (s : jstr) :
  free_of x s -> drop_leading x s = s.
Proof.
  intros H. destruct H as [|c s Hc _]; [reflexivity|]. cbn [drop_leading].
  destruct (c =? x) eqn:E; [lia | reflexivity].
Qed.

Lemma to_standard_and_back (x : jstr) :
  Forall is_base64url x ->
  replace_char 47 95 (replace_char 43 45 (replace_char 95 47 (replace_char 45 43 x))) = x.
Proof.
  induction 1 as [|c x Hc _ IH]; [reflexivity|].
  unfold replace_char in *. cbn [List.map]. rewrite IH. f_equal.
  unfold is_base64url in Hc.
  destruct (c =? 45) eqn:E1.
  - assert (c = 45) as -> by lia. reflexivity.
  - destruct (c =? 95) eqn:E2.
    + assert (c = 95) as -> by lia. reflexivity.
    + destruct (c =? 43) eqn:E3; [lia|]. destruct (c =? 47) eqn:E4; [lia|].
      reflexivity.
Qed.

Lemma base64url_no_pad (x : jstr) : Forall is_base64url x -> free_of 61 x.
Proof.
  intros H. eapply Forall_impl; [exact H|]. cbv beta.
  unfold is_base64url. lia.
Qed.

Lemma base64urlToBase64_eq (x : jstr) :
  exists k, (k <= 3)%nat
    /\ base64urlToBase64 x
       = replace_char 95 47 (replace_char 45 43 x) ++ repeat 61 k.
Proof.
  unfold base64urlToBase64.
  destruct (pad_loop_eq (replace_char 95 47 (replace_char 45 43 x)))
    as (k & Hk & E & _).
  exists k. split; [assumption|]. exact E.
Qed.

Lemma base64ToBase64url_inverts (x : jstr) :
  Forall is_base64url x -> base64ToBase64url (base64urlToBase64 x) = x.
Proof.
  intros Hx. destruct (base64urlToBase64_eq x) as (k & _ & ->).
  unfold base64ToBase64url.
  rewrite !replace_char_app, !replace_char_pads by lia.
  rewrite to_standard_and_back by assumption.
  rewrite rev_app_distr, rev_repeat, drop_leading_pads.
  rewrite drop_leading_none.
  - apply rev_involutive.
  - unfold free_of. apply Forall_rev. now apply base64url_no_pad.
Qed.

(** X10.  The stored form of a JWK member converts back to it:
    [base64ToBase64url] inverts [base64urlToBase64] on URL-safe base64,
    and the stored form is padded to a multiple of four characters. *)
Theorem base64url_roundtrip (x : jstr) :
  Forall is_base64url x ->
  base64ToBase64url (base64urlToBase64 x) = x
  /\ Z.of_nat (length (base64urlToBase64 x)) mod 4 = 0.
Proof.
  intros Hx. split; [now apply base64ToBase64url_inverts|].
  unfold base64urlToBase64.
  now destruct (pad_loop_eq (replace_char 95 47 (replace_char 45 43 x)))
    as (k & _ & _ & H).
Qed.

(** *** Key files *)

Lemma base64urlToBase64_chars (x : jstr) :
  Forall is_base64url x -> Forall is_base64_std (base64urlToBase64 x).
Proof.
  intros Hx. destruct (base64urlToBase64_eq x) as (k & _ & ->).
  apply Forall_app. split.
  - unfold replace_char. rewrite !Forall_map. eapply Forall_impl; [exact Hx|].
    cbv beta. intros c Hc. unfold is_base64url in Hc. unfold is_base64_std.
    destruct (c =? 45) eqn:E1.
    + destruct (43 =? 95) eqn:E2; lia.
    + destruct (c =? 95) eqn:E2; lia.
  - clear. induction k; constructor; [unfold is_base64_std; lia | assumption].
Qed.

Lemma key_line (s : jstr) :
  Forall is_base64_std s -> trim (toWellFormed (s ++ [LF])) = s.
Proof.
  intros H. rewrite toWellFormed_id.
  - apply trim_no_space_line. eapply Forall_impl; [exact H|]. cbv beta.
    unfold is_base64_std, is_js_space. lia.
  - apply well_formed_app.
    + apply well_formed_plain. eapply Forall_impl; [exact H|]. cbv beta.
      intros c Hc. apply plain_below. unfold is_base64_std in Hc. lia.
    + apply wf_plain; [apply plain_LF | constructor].
Qed.

Section Keys.
Context (ed25519_sign : jstr -> jstr -> list Z -> result jstr).

(** X11.  After [generateKeypair] stored a pair, [signMessage] loads it
    back as it was drawn: the signature primitive gets the JWK members
    [x] and [d] themselves and the UTF-8 bytes of the message, and no
    file changes. *)
Theorem signMessage_after_generateKeypair (x d message : jstr) (fs : files) :
  Forall is_base64url x -> Forall is_base64url d ->
  let fs' := snd (generateKeypair x d fs) in
  fst (generateKeypair x d fs) = Ok (base64urlToBase64 x, base64urlToBase64 d)
  /\ signMessage ed25519_sign message fs'
     = (ed25519_sign x d (utf8_encode message), fs').
Proof.
  intros Hx Hd fs'. split; [reflexivity|].
  unfold fs', generateKeypair, bind, ret. rewrite !writeFile_eq. cbn [snd].
  unfold signMessage, loadPublicKey, bind, try_catch, ret, lift.
  rewrite readFile_eq.
  rewrite lookup_insert_ne by discriminate. rewrite lookup_insert_eq.
  rewrite readFile_eq, lookup_insert_eq.
  rewrite !key_line by now apply base64urlToBase64_chars.
  now rewrite !base64ToBase64url_inverts.
Qed.
End Keys.

(** *** UUID text *)

Lemma hex_decode_encode (bs : list Z) :
  Forall is_byte bs -> hex_decode (hex_encode bs) = bs.
Proof.
  induction 1 as [|b bs Hb _ IH]; [reflexivity|].
  unfold hex_encode in *. cbn [List.map List.concat hex_byte app hex_decode].
  unfold is_byte in Hb.
  rewrite !hex_value_hex_digit.
  - rewrite IH. f_equal. pose proof (Z.div_mod b 16 ltac:(lia)). lia.
  - apply Z.mod_pos_bound. lia.
  - split; [apply Z.div_pos; lia | apply Z.div_lt_upper_bound; lia].
Qed.

Lemma hex_digit_not_hyphen d : 0 <= d < 16 -> (hex_digit d =? 45) = false.
Proof. intros H. unfold hex_digit. destruct (d <? 10) eqn:E; lia. Qed.

Lemma remove_char_app x (a b : jstr) :
  remove_char x (a ++ b) = remove_char x a ++ remove_char x b.
Proof. apply List.filter_app. Qed.

Lemma remove_hyphen_hex_byte b : is_byte b -> remove_char 45 (hex_byte b) = hex_byte b.
Proof.
  intros Hb. unfold is_byte in Hb. unfold remove_char, hex_byte. cbn [List.filter].
  rewrite !hex_digit_not_hyphen; [reflexivity| |].
  - apply Z.mod_pos_bound. lia.
  - split; [apply Z.div_pos; lia | apply Z.div_lt_upper_bound; lia].
Qed.

(** X12.  [parseUuid] inverts [formatUuid]: the hyphenated text of
    sixteen bytes decodes to those bytes. *)
Theorem parseUuid_formatUuid (bytes : list Z) :
  length bytes = 16%nat -> Forall is_byte bytes ->
  parseUuid (formatUuid bytes) = bytes
  /\ length (formatUuid bytes) = 36%nat.
Proof.
  intros Hl Hb.
  do 16 (destruct bytes as [|? bytes]; [discriminate|]).
  destruct bytes; [|discriminate]. clear Hl.
  rewrite formatUuid_16. split; [|reflexivity].
  repeat match goal with
         | H : Forall _ (_ :: _) |- _ => inversion H; subst; clear H
         end.
  unfold parseUuid.
  rewrite !remove_char_app, !remove_hyphen_hex_byte by assumption.
  change (remove_char 45 [45]) with (@nil Z). cbn [app].
  match goal with
  | |- hex_decode ?l = ?bs => change l with (hex_encode bs)
  end.
  apply hex_decode_encode. repeat (constructor; [assumption|]). constructor.
Qed.

(** *** The agent id file *)

Lemma Forall_slice {P : Z -> Prop} (s : jstr) (a b : Z) :
  Forall P s -> Forall P (slice s a b).
Proof. intros H. unfold slice. now apply Forall_take, Forall_drop. Qed.

Lemma Forall_join {P : Z -> Prop} (sep : jstr) (parts : list jstr) :
  Forall P sep -> Forall (Forall P) parts -> Forall P (join sep parts).
Proof.
  intros Hsep. induction 1 as [|p ps Hp Hps IH]; [constructor|].
  destruct ps as [|q ps]; [exact Hp|].
  rewrite join_cons by discriminate.
  apply Forall_app. split; [assumption|]. apply Forall_app. now split.
Qed.

Lemma uuidv5_chars (name namespace : jstr) :
  Forall (fun c => is_lower_hex c \/ c = 45) (uuidv5 name namespace).
Proof.
  rewrite uuidv5_unfold, digest_sha1. unfold formatUuid.
  set (bytes := alter _ 8%nat _).
  assert (Hb : Forall is_byte bytes).
  { unfold bytes. apply Forall_alter.
    - apply Forall_alter.
      + apply Forall_take, sha1_digest_range.
      + intros b _ _. rewrite set_version_nibble. unfold is_byte.
        pose proof (Z.mod_pos_bound b 16 ltac:(lia)). lia.
    - intros b _ _. rewrite set_variant_bits. unfold is_byte.
      pose proof (Z.mod_pos_bound b 64 ltac:(lia)). lia. }
  assert (Hh : Forall (fun c => is_lower_hex c \/ c = 45) (hex_encode bytes)).
  { eapply Forall_impl; [apply hex_encode_lower, Hb|]. cbv beta. auto. }
  clearbody bytes.
  apply Forall_join; [apply List.Forall_cons; [now right | constructor]|].
  repeat (apply List.Forall_cons; [now apply Forall_slice|]). constructor.
Qed.

Lemma id_line (s : jstr) :
  Forall (fun c => is_lower_hex c \/ c = 45) s -> trim (toWellFormed (s ++ [LF])) = s.
Proof.
  intros H. rewrite toWellFormed_id.
  - apply trim_no_space_line. eapply Forall_impl; [exact H|]. cbv beta.
    unfold is_lower_hex, is_js_space. lia.
  - apply well_formed_app.
    + apply well_formed_plain. eapply Forall_impl; [exact H|]. cbv beta.
      intros c Hc. apply plain_below. unfold is_lower_hex in Hc. lia.
    + apply wf_plain; [apply plain_LF | constructor].
Qed.

Lemma loadAgentId_eq (fs : files) :
  loadAgentId fs
  = (match fs !! lit "identity/agent-id" with
     | Some c => Ok (trim c)
     | None => Err (Error (lit "No agent ID found. Run `nit init` to generate identity."))
     end, fs).
Proof.
  unfold loadAgentId, try_catch, bind, ret, throw. rewrite readFile_eq.
  now destruct (fs !! lit "identity/agent-id").
Qed.

(** X13.  A saved agent id is loaded back without the white space around
    it; an id that [deriveAgentId] derived comes back as it is. *)
Theorem saveAgentId_then_loadAgentId (agentId : jstr) (fs : files) :
  let fs' := snd (saveAgentId agentId fs) in
  loadAgentId fs' = (Ok (trim (toWellFormed agentId)), fs')
  /\ (forall publicKeyField, agentId = deriveAgentId publicKeyField ->
      loadAgentId fs' = (Ok agentId, fs')).
Proof.
  intros fs'. unfold fs', saveAgentId. rewrite writeFile_eq. cbn [snd].
  rewrite loadAgentId_eq, lookup_insert_eq. split.
  - now rewrite ref_line.
  - intros pk ->. rewrite id_line; [reflexivity|].
    exact (uuidv5_chars pk NIT_NAMESPACE).
Qed.

Lemma loadPublicKey_eq (fs : files) :
  loadPublicKey fs
  = (match fs !! lit "identity/agent.pub" with
     | Some c => Ok (trim c)
     | None => Err (Error (lit "No identity found. Run `nit init` to generate a keypair."))
     end, fs).
Proof.
  unfold loadPublicKey, try_catch, bind, ret, throw. rewrite readFile_eq.
  now destruct (fs !! lit "identity/agent.pub").
Qed.

Section Signing.
Context (ed25519_sign : jstr -> jstr -> list Z -> result jstr).

Lemma signMessage_eq (message : jstr) (fs : files) :
  signMessage ed25519_sign message fs
  = (match fs !! lit "identity/agent.pub" with
     | None => Err (Error (lit "No identity found. Run `nit init` to generate a keypair."))
     | Some pub =>
         match fs !! lit "identity/agent.key" with
         | None => Err (Error (lit
             "Private key not found at .nit/identity/agent.key. Regenerate with `nit init`."))
         | Some key =>
             ed25519_sign (base64ToBase64url (trim pub)) (base64ToBase64url (trim key))
               (utf8_encode message)
         end
     end, fs).
Proof.
  unfold signMessage, bind. rewrite loadPublicKey_eq.
  destruct (fs !! lit "identity/agent.pub"); [|reflexivity].
  unfold try_catch, bind, ret, throw, lift. rewrite readFile_eq.
  now destruct (fs !! lit "identity/agent.key").
Qed.

(** X14.  [buildAuthHeaders] only reads, and it names the file it
    misses: without the agent id it throws [No agent ID found] whatever
    the keys are; with it but without the public key, [No identity
    found]; with both but without the private key, [Private key not
    found].  In none of these cases is anything signed. *)
Theorem buildAuthHeaders_missing_identity
    (now : Z) (method path : jstr) (body : option jstr) (fs : files) :
  let run := buildAuthHeaders ed25519_sign now method path body fs in
  snd run = fs
  /\ (fs !! lit "identity/agent-id" = None ->
      fst run = Err (Error (lit "No agent ID found. Run `nit init` to generate identity.")))
  /\ (is_Some (fs !! lit "identity/agent-id") ->
      fs !! lit "identity/agent.pub" = None ->
      fst run = Err (Error (lit "No identity found. Run `nit init` to generate a keypair.")))
  /\ (is_Some (fs !! lit "identity/agent-id") ->
      is_Some (fs !! lit "identity/agent.pub") ->
      fs !! lit "identity/agent.key" = None ->
      fst run = Err (Error (lit
        "Private key not found at .nit/identity/agent.key. Regenerate with `nit init`."))).
Proof.
  cbv zeta. unfold buildAuthHeaders, bind. rewrite loadAgentId_eq.
  destruct (fs !! lit "identity/agent-id") as [id|].
  2:{ repeat split; intros [x Hx]; discriminate. }
  rewrite signMessage_eq.
  destruct (fs !! lit "identity/agent.pub") as [pub|].
  2:{ repeat split; try discriminate. intros _ [x Hx]. discriminate. }
  destruct (fs !! lit "identity/agent.key") as [key|].
  2:{ repeat split; discriminate. }
  destruct (ed25519_sign _ _ _); repeat split; discriminate.
Qed.
End Signing.

(** *** The walk of log *)

Lemma parseCommit_hash (h raw : jstr) (c : NitCommit) :
  parseCommit h raw = Ok c -> hash c = h.
Proof.
  unfold parseCommit. destruct (parse_lines _ _) as [acc start].
  destruct (card acc); [discriminate|]. now intros [= <-].
Qed.

Lemma chained_snoc (cs : list NitCommit) (c c' : NitCommit) :
  chained (cs ++ [c]) -> parent c = Some (hash c') -> chained ((cs ++ [c]) ++ [c']).
Proof.
  induction cs as [|x cs IH]; intros Hc Hp.
  - cbn. auto.
  - cbn [app] in *. destruct cs as [|y cs].
    + cbn in *. tauto.
    + cbn [app chained] in *. destruct Hc as [Hx Hrest]. split; [exact Hx|].
      now apply IH.
Qed.

Lemma log_loop_stops (fs : files) (fuel : nat) (hash0 : option jstr)
    (commits : list NitCommit) :
  nonempty hash0 = false \/ fuel = 0%nat ->
  exists new : list NitCommit,
    commits = commits ++ new
    /\ (length new <= fuel)%nat
    /\ Forall (stored_commit fs) new
    /\ chained new
    /\ (forall c, head new = Some c -> hash0 = Some (hash c))
    /\ ((length new < fuel)%nat ->
        nonempty (match last new with
                  | Some c => parent c
                  | None => hash0
                  end) = false).
Proof.
  intros Hstop. exists []. rewrite app_nil_r. split; [reflexivity|].
  split; [cbn; lia|]. split; [constructor|]. split; [exact I|].
  split; [intros c [=]|]. cbn [length last]. intros Hlt.
  destruct Hstop as [H| ->]; [exact H | lia].
Qed.

Lemma log_loop_entries (fs : files) (fuel : nat) :
  forall (hash0 : option jstr) (commits cs : list NitCommit) (fs' : files),
  log_loop fuel hash0 commits fs = (Ok cs, fs') ->
  fs' = fs
  /\ exists new,
       cs = commits ++ new
       /\ (length new <= fuel)%nat
       /\ Forall (stored_commit fs) new
       /\ chained new
       /\ (forall c, head new = Some c -> hash0 = Some (hash c))
       /\ ((length new < fuel)%nat ->
           nonempty (match last new with
                     | Some c => parent c
                     | None => hash0
                     end) = false).
Proof.
  induction fuel as [|fuel IH]; intros hash0 commits cs fs' H.
  - cbn in H. injection H as <- <-. split; [reflexivity|].
    apply log_loop_stops. now right.
  - destruct hash0 as [[|c0 h]|].
    1,3: (cbn in H; injection H as <- <-; split; [reflexivity|];
          apply log_loop_stops; now left).
    rewrite log_loop_step in H by reflexivity.
    unfold bind in H. rewrite readObject_eq in H.
    destruct (fs !! object_path (c0 :: h)) as [raw|] eqn:Eraw; [|discriminate].
    unfold lift in H.
    destruct (parseCommit (c0 :: h) raw) as [c|e] eqn:Ec; [|discriminate].
    pose proof (parseCommit_hash _ _ _ Ec) as Hh.
    apply IH in H as (-> & new & -> & Hlen & Hst & Hch & Hhd & Hlast).
    split; [reflexivity|]. exists (c :: new).
    rewrite <- app_assoc. split; [reflexivity|]. split; [cbn [length]; lia|].
    split.
    { constructor; [|assumption]. exists raw. rewrite Hh. now split. }
    split.
    { destruct new as [|c' new']; [exact I|]. cbn [chained]. split; [|exact Hch].
      apply Hhd. reflexivity. }
    split.
    { intros x [= <-]. now rewrite Hh. }
    intros Hlt. cbn [length] in Hlt.
    destruct new as [|c' new']; [apply Hlast; cbn [length] in *; lia|].
    change (last (c :: c' :: new')) with (last (c' :: new')).
    assert (Hlt' : (length (c' :: new') < fuel)%nat) by lia.
    specialize (Hlast Hlt').
    destruct (last (c' :: new')) eqn:El; [exact Hlast|].
    apply last_None in El. discriminate.
Qed.

Lemma log_loop_no_tip (fuel : nat) (hash0 : option jstr)
    (commits : list NitCommit) (fs : files) :
  nonempty hash0 = false -> log_loop fuel hash0 commits fs = (Ok commits, fs).
Proof.
  intros H. destruct fuel; [reflexivity|].
  destruct hash0 as [[|c h]|]; [reflexivity|discriminate|reflexivity].
Qed.

(** X15.  What [log] returns: it changes no file; it returns at most
    [count] entries (50 when no count is given); each entry is what
    [parseCommit] reads from the object stored under its digest; each
    names the next as its parent; the first is the commit the current
    branch points to; and when it returns fewer entries than the limit,
    the last one has no parent (the branch has no commit, when it returns
    none). *)
Theorem log_entries (count : option Z) (fs fs' : files) (cs : list NitCommit) :
  log count fs = (Ok cs, fs') ->
  fs' = fs
  /\ Z.of_nat (length cs) <= Z.max 0 (default 50 count)
  /\ Forall (stored_commit fs) cs
  /\ chained cs
  /\ (exists b, fst (getCurrentBranch fs) = Ok b
       /\ (forall c, head cs = Some c -> fst (getBranch b fs) = Ok (Some (hash c)))
       /\ (Z.of_nat (length cs) < default 50 count ->
           match last cs with
           | Some c => nonempty (parent c) = false
           | None => exists tip, fst (getBranch b fs) = Ok tip /\ nonempty tip = false
           end)).
Proof.
  unfold log, bind. intros H.
  pose proof (getCurrentBranch_state fs) as Hs.
  destruct (getCurrentBranch fs) as [[b|e] fs1] eqn:Eb; cbn [snd] in Hs; subst fs1;
    [|discriminate].
  rewrite getBranch_eq in H.
  apply log_loop_entries in H as (-> & new & E & Hlen & Hst & Hch & Hhd & Hlast).
  cbn [app] in E. subst new.
  split; [reflexivity|]. split; [lia|]. split; [assumption|]. split; [assumption|].
  exists b. split; [reflexivity|]. rewrite getBranch_eq. cbn [fst]. split.
  - intros c Hc. now rewrite (Hhd c Hc).
  - intros Hlt. assert (Hlt' : (length cs < Z.to_nat (default 50%Z count))%nat) by lia.
    specialize (Hlast Hlt'). destruct (last cs); [exact Hlast|]. eauto.
Qed.

(** X16.  The empty logs: with a count of zero or less, and on a branch
    that has no commit (no ref file, or an empty one), [log] returns no
    entry and does not fail; a HEAD that cannot be read as a branch makes
    it fail with the error of [getCurrentBranch]. *)
Theorem log_empty (count : option Z) (fs : files) :
  (forall b, fst (getCurrentBranch fs) = Ok b ->
     (default 50 count <= 0 -> log count fs = (Ok [], fs))
     /\ (forall tip, fst (getBranch b fs) = Ok tip -> nonempty tip = false ->
         log count fs = (Ok [], fs)))
  /\ (forall e, fst (getCurrentBranch fs) = Err e -> log count fs = (Err e, fs)).
Proof.
  unfold log, bind.
  pose proof (getCurrentBranch_state fs) as Hs.
  destruct (getCurrentBranch fs) as [[b|e] fs1] eqn:Eb; cbn [snd] in Hs; subst fs1.
  - split; [|intros e He; discriminate He]. intros b' Hb'. injection Hb' as <-.
    rewrite getBranch_eq. cbn [fst]. split.
    + intros Hc. replace (Z.to_nat (default 50 count)) with 0%nat by lia. reflexivity.
    + intros tip Ht Hne. injection Ht as <-.
      now apply log_loop_no_tip.
  - split; [intros b Hb; discriminate Hb|]. intros e' He. now injection He as <-.
Qed.

(** *** What checkout changes *)

Section Checkout.
Context (JSON_parse : jstr -> result json).

(** The guard of [checkout] only reads. *)
Lemma checkout_guard_state (fs : files) :
  snd (try_catch
         (let* headHash := resolveHead in
          let* headCard := getCardAtCommit JSON_parse headHash in
          let* workingCard := readWorkingCard JSON_parse in
          let* d := lift (diffCards headCard workingCard) in
          if changed d then throw UncommittedChanges else ret tt)
         (fun err =>
            if includes (lit "uncommitted changes") (exn_message err)
            then throw err
            else ret tt) fs) = fs.
Proof.
  unfold try_catch, bind.
  pose proof (resolveHead_state fs) as H1.
  destruct (resolveHead fs) as [[h|e] fs1]; cbn [snd] in H1; subst fs1.
  2:{ now destruct (includes _ _). }
  rewrite getCardAtCommit_eq.
  destruct (match fs !! object_path h with Some _ => _ | None => _ end) as [hc|e].
  2:{ now destruct (includes _ _). }
  rewrite readWorkingCard_eq.
  destruct (match fs !! CARD_PATH with Some _ => _ | None => _ end) as [wc|e].
  2:{ now destruct (includes _ _). }
  unfold lift. destruct (diffCards hc wc) as [d|e].
  2:{ now destruct (includes _ _). }
  destruct (changed d); [|reflexivity].
  unfold throw. now destruct (includes _ _).
Qed.

(** X17.  [checkout] writes nothing unless it succeeds, and then only
    the working card and HEAD: when it throws, every file is as before;
    when it returns, the target branch exists, the working card holds
    the two-space text of the card at the target's tip and a line feed,
    HEAD holds the symbolic ref of the target, and every other file (the
    objects and the branch refs among them) is as before. *)
Theorem checkout_writes_card_and_HEAD (branchName : jstr) (fs fs' : files)
    (r : result unit) :
  checkout JSON_parse branchName fs = (r, fs') ->
  (forall e, r = Err e -> fs' = fs)
  /\ (r = Ok tt ->
      (exists target targetCard,
          fst (getBranch branchName fs) = Ok (Some target)
          /\ nonempty (Some target) = true
          /\ fst (getCardAtCommit JSON_parse target fs) = Ok targetCard
          /\ fs' !! CARD_PATH = Some (JSON_stringify2 targetCard ++ [LF]))
      /\ fs' !! HEAD_PATH
         = Some (toWellFormed (lit "ref: refs/heads/" ++ branchName ++ [LF]))
      /\ (forall path, path <> CARD_PATH -> path <> HEAD_PATH ->
          fs' !! path = fs !! path)).
Proof.
  unfold checkout. unfold bind at 1.
  pose proof (checkout_guard_state fs) as Hg.
  destruct (try_catch _ _ fs) as [[[]|e] fs1]; cbn [snd] in Hg; subst fs1.
  2:{ intros [= <- <-]. split; [reflexivity | discriminate]. }
  unfold bind at 1. rewrite getBranch_eq.
  destruct (trim <$> fs !! (heads_prefix ++ branchName)) as [[|t0 target]|] eqn:Et.
  1,3: (unfold throw; intros [= <- <-]; split; [reflexivity | discriminate]).
  unfold bind at 1. rewrite getCardAtCommit_eq.
  destruct (match fs !! object_path (t0 :: target) with Some _ => _ | None => _ end)
    as [targetCard|e] eqn:Ec.
  2:{ intros [= <- <-]. split; [reflexivity | discriminate]. }
  unfold bind. rewrite writeWorkingCard_eq. unfold setHead. rewrite writeFile_eq.
  intros [= <- <-]. split; [discriminate|]. intros _. split; [|split].
  - exists (t0 :: target), targetCard. split; [reflexivity|]. split; [reflexivity|].
    split.
    + rewrite getCardAtCommit_eq. exact Ec.
    + rewrite lookup_insert_ne by discriminate. apply lookup_insert_eq.
  - apply lookup_insert_eq.
  - intros path Hc Hh. now rewrite !lookup_insert_ne by congruence.
Qed.

Lemma Ok_inj {A} (a b : A) : Ok a = Ok b -> a = b.
Proof. now intros [= ->]. Qed.

(** X18.  [checkout] of a branch that does not exist (no ref file, or an
    empty one) never succeeds and changes nothing: it throws the error of
    the guard when that error speaks of uncommitted changes, and
    [Branch "<name>" does not exist.] otherwise. *)
Theorem checkout_missing_branch (branchName : jstr) (fs : files) (tip : option jstr) :
  fst (getBranch branchName fs) = Ok tip -> nonempty tip = false ->
  snd (checkout JSON_parse branchName fs) = fs
  /\ ((exists e, fst (checkout JSON_parse branchName fs) = Err e
                 /\ includes (lit "uncommitted changes") (exn_message e) = true)
      \/ fst (checkout JSON_parse branchName fs)
         = Err (Error (lit "Branch " ++ [34] ++ branchName ++ [34]
                         ++ lit " does not exist."))).
Proof.
  intros Ht Hne. rewrite getBranch_eq in Ht.
  apply (Ok_inj (trim <$> fs !! (heads_prefix ++ branchName)) tip) in Ht.
  subst tip.
  destruct (checkout JSON_parse branchName fs) as [r fs'] eqn:E. cbn [fst snd].
  revert E. unfold checkout. unfold bind at 1.
  pose proof (checkout_guard_state fs) as Hg.
  destruct (try_catch _ _ fs) as [[[]|e] fs1] eqn:Eg; cbn [snd] in Hg; subst fs1.
  - unfold bind. rewrite getBranch_eq. revert Hne.
    destruct (trim <$> fs !! (heads_prefix ++ branchName)) as [[|t0 target]|];
      intros Hne.
    + intros E. cbv beta iota delta [throw] in E. injection E as <- <-.
      split; [reflexivity | right; reflexivity].
    + cbn in Hne. discriminate Hne.
    + intros E. cbv beta iota delta [throw] in E. injection E as <- <-.
      split; [reflexivity | right; reflexivity].
  - intros E. injection E as <- <-.
    split; [reflexivity|]. left. exists e. split; [reflexivity|].
    revert Eg. unfold try_catch.
    destruct (bind _ _ fs) as [[[]|e'] fs1]; [discriminate|].
    destruct (includes (lit "uncommitted changes") (exn_message e')) eqn:Ei;
      [|discriminate].
    unfold throw. intros He. injection He as <- _. exact Ei.
Qed.
End Checkout.

(** *** Properties of an object *)

Lemma lookup_set_prop_eq (k : jstr) (v : json) (props : list (jstr * json)) :
  lookup_prop k (set_prop k v props) = Some v.
Proof.
  induction props as [|[k' v'] rest IH]; cbn [set_prop lookup_prop].
  - now destruct (decide (k = k)).
  - destruct (decide (k' = k)) as [->|Hne]; cbn [lookup_prop].
    + now destruct (decide (k = k)).
    + now destruct (decide (k' = k)).
Qed.

Lemma lookup_set_prop_ne (k k' : jstr) (v : json) (props : list (jstr * json)) :
  k' <> k -> lookup_prop k' (set_prop k v props) = lookup_prop k' props.
Proof.
  intros Hne. induction props as [|[k0 v0] rest IH]; cbn [set_prop lookup_prop].
  - destruct (decide (k = k')); [congruence|reflexivity].
  - destruct (decide (k0 = k)) as [->|Hk]; cbn [lookup_prop].
    + destruct (decide (k = k')); [congruence|reflexivity].
    + destruct (decide (k0 = k')); [reflexivity|exact IH].
Qed.

Lemma set_prop_id (k : jstr) (v : json) (props : list (jstr * json)) :
  lookup_prop k props = Some v -> set_prop k v props = props.
Proof.
  induction props as [|[k0 v0] rest IH]; cbn [set_prop lookup_prop]; [discriminate|].
  destruct (decide (k0 = k)) as [->|Hk].
  - now intros [= ->].
  - intros H. now rewrite IH.
Qed.

Lemma id_not_name : lit "id" <> lit "name".
Proof. intros H. vm_compute in H. discriminate H. Qed.

Lemma id_not_description : lit "id" <> lit "description".
Proof. intros H. vm_compute in H. discriminate H. Qed.

Lemma name_not_description : lit "name" <> lit "description".
Proof. intros H. vm_compute in H. discriminate H. Qed.

(** *** resolveSkillPointers *)

Lemma resolve_skill_keeps (discovered : list SkillMetadata) (s : json) (k : jstr) :
  k <> lit "name" -> k <> lit "description" ->
  get k (resolve_skill discovered s) = get k s.
Proof.
  intros Hn Hd. unfold resolve_skill. destruct s as [| | | | |props]; try reflexivity.
  destruct (lookup_prop (lit "id") props) as [[| | |id| |]|]; try reflexivity.
  destruct (skillMap_get id discovered) as [meta|]; [|reflexivity].
  cbn [get]. now rewrite !lookup_set_prop_ne.
Qed.

Lemma resolve_skill_cases (discovered : list SkillMetadata) (s : json) :
  resolve_skill discovered s = s
  \/ exists id meta,
       get (lit "id") s = Some (JStr id)
       /\ skillMap_get id discovered = Some meta
       /\ get (lit "name") (resolve_skill discovered s) = Some (JStr (skill_name meta))
       /\ get (lit "description") (resolve_skill discovered s)
          = Some (JStr (skill_description meta)).
Proof.
  unfold resolve_skill. destruct s as [| | | | |props]; auto.
  destruct (lookup_prop (lit "id") props) as [[| | |id| |]|] eqn:Ei; auto.
  destruct (skillMap_get id discovered) as [meta|] eqn:Em; auto.
  right. exists id, meta. cbn [get]. split; [exact Ei|]. split; [exact Em|].
  split.
  - rewrite lookup_set_prop_ne by apply name_not_description.
    apply lookup_set_prop_eq.
  - apply lookup_set_prop_eq.
Qed.

Lemma resolve_skill_idempotent (discovered : list SkillMetadata) (s : json) :
  resolve_skill discovered (resolve_skill discovered s) = resolve_skill discovered s.
Proof.
  unfold resolve_skill at 2. destruct s as [| | | | |props]; try reflexivity.
  destruct (lookup_prop (lit "id") props) as [[| | |id| |]|] eqn:Ei;
    try (cbn [resolve_skill]; now rewrite Ei).
  destruct (skillMap_get id discovered) as [meta|] eqn:Em.
  2:{ cbn [resolve_skill]. now rewrite Ei, Em. }
  cbn [resolve_skill].
  rewrite !lookup_set_prop_ne, Ei, Em
    by (apply id_not_name || apply id_not_description).
  f_equal. rewrite (set_prop_id (lit "name")).
  - apply set_prop_id, lookup_set_prop_eq.
  - rewrite lookup_set_prop_ne by apply name_not_description.
    apply lookup_set_prop_eq.
Qed.

Lemma resolve_skill_nothing (s : json) : resolve_skill [] s = s.
Proof.
  unfold resolve_skill. destruct s as [| | | | |props]; try reflexivity.
  now destruct (lookup_prop (lit "id") props) as [[| | |id| |]|].
Qed.

Lemma resolve_skill_not_null (discovered : list SkillMetadata) (s : json) :
  match resolve_skill discovered s with JNull => true | _ => false end
  = match s with JNull => true | _ => false end.
Proof.
  unfold resolve_skill. destruct s as [| | | | |props]; try reflexivity.
  destruct (lookup_prop (lit "id") props) as [[| | |id| |]|]; try reflexivity.
  now destruct (skillMap_get id discovered).
Qed.

Lemma resolveSkillPointers_eq (discovered : list SkillMetadata) (card card' : json) :
  resolveSkillPointers discovered card = Ok card' ->
  exists props items,
    card = JObj props
    /\ lookup_prop (lit "skills") props = Some (JArr items)
    /\ existsb (fun s => match s with JNull => true | _ => false end) items = false
    /\ card' = JObj (set_prop (lit "skills")
                       (JArr (List.map (resolve_skill discovered) items)) props).
Proof.
  unfold resolveSkillPointers. destruct card as [| | | | |props]; try discriminate.
  destruct (lookup_prop (lit "skills") props) as [[| | | |items|]|] eqn:Es;
    try discriminate.
  destruct (existsb _ items) eqn:Ex; [discriminate|].
  intros [= <-]. now exists props, items.
Qed.

Lemma resolveSkillPointers_again (discovered : list SkillMetadata) (card card' : json) :
  resolveSkillPointers discovered card = Ok card' ->
  resolveSkillPointers discovered card' = Ok card'.
Proof.
  intros H. apply resolveSkillPointers_eq in H as (props & items & -> & Hs & Hn & ->).
  unfold resolveSkillPointers. rewrite lookup_set_prop_eq.
  assert (Hn' : existsb (fun s => match s with JNull => true | _ => false end)
                  (List.map (resolve_skill discovered) items) = false).
  { clear Hs. induction items as [|s items IH]; [reflexivity|].
    cbn [List.map existsb] in *. apply orb_false_elim in Hn as [Hs Hn].
    rewrite resolve_skill_not_null, Hs. now apply IH. }
  rewrite Hn'. do 2 f_equal. apply set_prop_id. rewrite lookup_set_prop_eq.
  do 2 f_equal. rewrite List.map_map. apply List.map_ext. intros s.
  symmetry. apply resolve_skill_idempotent.
Qed.

(** X19.  [resolveSkillPointers] touches nothing but the names and the
    descriptions of skills: every other property of the card is as
    before; the skills are as many, in the same order; each is either
    unchanged or, having a string [id] that a discovered SKILL.md
    carries, has the name and the description of that file; every other
    property of a skill, its [id] among them, is as before.  With nothing
    discovered the card is returned as it is, and resolving the result
    again returns it unchanged. *)
Theorem resolveSkillPointers_changes_names_only
    (discovered : list SkillMetadata) (card card' : json) :
  resolveSkillPointers discovered card = Ok card' ->
  (forall k, k <> lit "skills" -> get k card' = get k card)
  /\ (exists items items',
        get (lit "skills") card = Some (JArr items)
        /\ get (lit "skills") card' = Some (JArr items')
        /\ Forall2
             (fun s s' =>
                (forall k, k <> lit "name" -> k <> lit "description" ->
                           get k s' = get k s)
                /\ (s' = s
                    \/ exists id meta,
                         get (lit "id") s = Some (JStr id)
                         /\ skillMap_get id discovered = Some meta
                         /\ get (lit "name") s' = Some (JStr (skill_name meta))
                         /\ get (lit "description") s'
                            = Some (JStr (skill_description meta))))
             items items')
  /\ (discovered = [] -> card' = card)
  /\ resolveSkillPointers discovered card' = Ok card'.
Proof.
  intros H. pose proof (resolveSkillPointers_again _ _ _ H) as Hagain.
  apply resolveSkillPointers_eq in H as (props & items & -> & Hs & _ & ->).
  split; [|split; [|split; [|exact Hagain]]].
  - intros k Hk. cbn [get]. now apply lookup_set_prop_ne.
  - exists items, (List.map (resolve_skill discovered) items). cbn [get].
    split; [exact Hs|]. split; [apply lookup_set_prop_eq|].
    clear Hs Hagain. induction items as [|s items IH]; cbn [List.map]; constructor.
    + split; [intros k; apply resolve_skill_keeps | apply resolve_skill_cases].
    + exact IH.
  - intros ->. f_equal. apply set_prop_id. rewrite Hs. do 2 f_equal.
    clear Hs Hagain. induction items as [|s items IH]; [reflexivity|].
    cbn [List.map]. now rewrite resolve_skill_nothing, <- IH.
Qed.

(** *** The parts of a diff *)

Lemma strict_eq_sym (a b : option json) : strict_eq a b = strict_eq b a.
Proof.
  destruct a as [[| x | x | x | |]|], b as [[| y | y | y | |]|]; cbn; try reflexivity.
  - now destruct x, y.
  - apply bool_decide_ext. split; congruence.
  - apply bool_decide_ext. split; congruence.
Qed.

Lemma strict_eq_true_self (a b : option json) :
  strict_eq a b = true -> strict_eq b b = true.
Proof.
  destruct a as [[| x | x | x | |]|], b as [[| y | y | y | |]|]; cbn;
    try discriminate; try reflexivity; intros _.
  - now destruct y.
  - now apply bool_decide_eq_true.
  - now apply bool_decide_eq_true.
Qed.

Lemma strict_eq_primitive (v : option json) : primitive v -> strict_eq v v = true.
Proof.
  destruct v as [[| x | x | x | |]|]; cbn; try contradiction; intros _;
    try reflexivity.
  - now destruct x.
  - now apply bool_decide_eq_true.
  - now apply bool_decide_eq_true.
Qed.

Lemma diffCards_eq (oldCard newCard : json) (d : DiffResult) :
  diffCards oldCard newCard = Ok d ->
  is_null oldCard = false /\ is_null newCard = false
  /\ exists oldEntries newEntries,
       skills_entries oldCard = Ok oldEntries
       /\ skills_entries newCard = Ok newEntries
       /\ fields d = (scalar_entries oldCard newCard ++ provider_entry oldCard newCard)
                     ++ array_entries oldCard newCard
       /\ skillsAdded d = added_ids (Map_of oldEntries) (Map_of newEntries)
       /\ skillsRemoved d = added_ids (Map_of newEntries) (Map_of oldEntries)
       /\ skillsModified d = modified_ids (Map_of oldEntries) (Map_of newEntries)
       /\ changed d = (0 <? Z.of_nat (length (fields d)))
                      || (0 <? Z.of_nat (length (skillsAdded d)))
                      || (0 <? Z.of_nat (length (skillsRemoved d)))
                      || (0 <? Z.of_nat (length (skillsModified d))).
Proof.
  intros H. unfold diffCards in H.
  destruct (is_null oldCard) eqn:E1; [discriminate|].
  destruct (is_null newCard) eqn:E2; [discriminate|].
  cbn [orb] in H. split; [reflexivity|]. split; [reflexivity|].
  destruct (skills_entries oldCard) as [oldEntries|]; [|discriminate].
  destruct (skills_entries newCard) as [newEntries|]; [|discriminate].
  exists oldEntries, newEntries. split; [reflexivity|]. split; [reflexivity|].
  fold (scalar_entries oldCard newCard) in H.
  fold (array_entries oldCard newCard) in H.
  fold (added_ids (Map_of oldEntries) (Map_of newEntries)) in H.
  fold (added_ids (Map_of newEntries) (Map_of oldEntries)) in H.
  fold (modified_ids (Map_of oldEntries) (Map_of newEntries)) in H.
  assert (Hf : (if negb (bool_decide
                     (JSON_stringify (or_null (get (lit "provider") oldCard))
                      = JSON_stringify (or_null (get (lit "provider") newCard))))
                then scalar_entries oldCard newCard
                       ++ [{| field := lit "provider";
                              old := get (lit "provider") oldCard;
                              new := get (lit "provider") newCard |}]
                else scalar_entries oldCard newCard)
               = scalar_entries oldCard newCard ++ provider_entry oldCard newCard).
  { unfold provider_entry. destruct (negb _); [reflexivity|].
    now rewrite app_nil_r. }
  rewrite Hf in H. injection H as <-. cbn [fields skillsAdded skillsRemoved
    skillsModified changed]. repeat split; reflexivity.
Qed.

(** *** The diff read in the other direction *)

Lemma scalar_entries_swap (a b : json) :
  scalar_entries b a = List.map mirror (scalar_entries a b).
Proof.
  unfold scalar_entries. induction scalarFields as [|f fs IH]; [reflexivity|].
  cbn [List.map List.concat]. rewrite List.map_app, <- IH. f_equal.
  rewrite (strict_eq_sym (get f b) (get f a)).
  now destruct (negb _).
Qed.

Lemma array_entries_swap (a b : json) :
  array_entries b a = List.map mirror (array_entries a b).
Proof.
  unfold array_entries. induction arrayFields as [|f fs IH]; [reflexivity|].
  cbn [List.map List.concat]. rewrite List.map_app, <- IH. f_equal.
  rewrite (bool_decide_ext (JSON_stringify (get f b) = JSON_stringify (get f a))
             (JSON_stringify (get f a) = JSON_stringify (get f b)))
    by (split; congruence).
  now destruct (negb _).
Qed.

Lemma provider_entry_swap (a b : json) :
  provider_entry b a = List.map mirror (provider_entry a b).
Proof.
  unfold provider_entry.
  rewrite (bool_decide_ext
             (JSON_stringify (or_null (get (lit "provider") b))
              = JSON_stringify (or_null (get (lit "provider") a)))
             (JSON_stringify (or_null (get (lit "provider") a))
              = JSON_stringify (or_null (get (lit "provider") b))))
    by (split; congruence).
  now destruct (negb _).
Qed.

(** X20.  Swapping the two cards mirrors the diff: [diffCards] returns
    on the swapped pair whenever it returns on the pair, the skills
    added one way are the skills removed the other way, in the same
    order, and the field entries are the same with old and new
    exchanged. *)
Theorem diffCards_swap (oldCard newCard : json) (d : DiffResult) :
  diffCards oldCard newCard = Ok d ->
  exists d',
    diffCards newCard oldCard = Ok d'
    /\ fields d' = List.map mirror (fields d)
    /\ skillsAdded d' = skillsRemoved d
    /\ skillsRemoved d' = skillsAdded d.
Proof.
  intros H. apply diffCards_eq in H
    as (Ho & Hn & oldEntries & newEntries & Eo & En & Hf & Ha & Hr & _ & _).
  destruct (diffCards newCard oldCard) as [d'|e] eqn:E.
  - exists d'. split; [reflexivity|]. apply diffCards_eq in E
      as (_ & _ & oe & ne & Eo' & En' & Hf' & Ha' & Hr' & _ & _).
    rewrite En in Eo'. rewrite Eo in En'. injection Eo' as <-. injection En' as <-.
    rewrite Hf', Ha', Hr', Hf, Ha, Hr.
    rewrite !List.map_app, scalar_entries_swap, provider_entry_swap,
      array_entries_swap.
    repeat split; reflexivity.
  - exfalso. unfold diffCards in E. rewrite Ho, Hn, Eo, En in E. discriminate E.
Qed.

(** *** Skill ids *)

Lemma in_added_ids (k : option json) (oldMap newMap : jsmap) :
  In k (added_ids oldMap newMap) ->
  (exists v, In (k, v) newMap) /\ Map_has k oldMap = false.
Proof.
  unfold added_ids. rewrite List.in_map_iff. intros ([k' v] & <- & Hin).
  apply List.filter_In in Hin as [Hin Hp]. cbn [fst] in *.
  split; [now exists v|]. now apply negb_true_iff in Hp.
Qed.

Lemma in_modified_ids (k : option json) (oldMap newMap : jsmap) :
  In k (modified_ids oldMap newMap) ->
  (exists v, In (k, v) newMap) /\ exists o, Map_get k oldMap = Some o.
Proof.
  unfold modified_ids. rewrite List.in_map_iff. intros ([k' v] & <- & Hin).
  apply List.filter_In in Hin as [Hin Hp]. cbn [fst snd] in *.
  split; [now exists v|]. destruct (Map_get k' oldMap) as [o|]; [eauto|discriminate].
Qed.

Lemma Map_get_some_self (k : option json) (m : jsmap) (o : json) :
  Map_get k m = Some o -> strict_eq k k = true.
Proof.
  induction m as [|[k' v] m IH]; cbn [Map_get]; [discriminate|].
  destruct (strict_eq k' k) eqn:E; [|exact IH].
  intros _. now apply strict_eq_true_self in E.
Qed.

Lemma Map_has_in (k : option json) (v : json) (m : jsmap) :
  In (k, v) m -> strict_eq k k = true -> Map_has k m = true.
Proof.
  intros Hin Hk. unfold Map_has.
  induction m as [|[k' v'] m IH]; [contradiction|]. cbn [Map_get].
  destruct (strict_eq k' k) eqn:E; [reflexivity|].
  destruct Hin as [[= -> ->]|Hin]; [congruence|]. now apply IH.
Qed.

(** X21.  The three lists of skill ids do not overlap with the modified
    ones: an id reported as modified is reported neither as added nor as
    removed. *)
Theorem diffCards_modified_apart (oldCard newCard : json) (d : DiffResult)
    (id : option json) :
  diffCards oldCard newCard = Ok d ->
  In id (skillsModified d) ->
  ~ In id (skillsAdded d) /\ ~ In id (skillsRemoved d).
Proof.
  intros H Hm. apply diffCards_eq in H
    as (_ & _ & oldEntries & newEntries & _ & _ & _ & Ha & Hr & Hmod & _).
  rewrite Hmod in Hm. apply in_modified_ids in Hm as ((v & Hin) & o & Ho).
  split.
  - rewrite Ha. intros Hadd. apply in_added_ids in Hadd as (_ & Hno).
    unfold Map_has in Hno. now rewrite Ho in Hno.
  - rewrite Hr. intros Hrem. apply in_added_ids in Hrem as (_ & Hno).
    rewrite (Map_has_in id v) in Hno; [discriminate|assumption|].
    now apply Map_get_some_self in Ho.
Qed.

(** *** The keys of a Map *)

Lemma Forall_Map_set (P : option json * json -> Prop) (k : option json) (v : json)
    (m : jsmap) :
  (forall k' v1 v2, P (k', v1) -> P (k', v2)) ->
  Forall P m -> P (k, v) -> Forall P (Map_set k v m).
Proof.
  intros Hkey Hm Hk. induction Hm as [|[k' v'] m Hx Hm IH]; cbn [Map_set].
  - now repeat constructor.
  - destruct (strict_eq k' k); constructor; eauto.
Qed.

Lemma apart_Map_set (k : option json) (v : json) (m : jsmap) :
  apart m -> apart (Map_set k v m).
Proof.
  induction m as [|[k' v'] m IH]; cbn [Map_set apart].
  - intros _. split; [constructor|exact I].
  - intros [Hf Ha]. destruct (strict_eq k' k) eqn:E; cbn [apart].
    + now split.
    + split; [|now apply IH]. apply Forall_Map_set; auto.
Qed.

Lemma Map_of_invariant (P : jsmap -> Prop) (entries : jsmap) :
  P [] -> (forall k v m, In (k, v) entries -> P m -> P (Map_set k v m)) ->
  P (Map_of entries).
Proof.
  unfold Map_of. intros H0 Hstep.
  assert (G : forall acc, P acc ->
                P (fold_left (fun m kv => Map_set (fst kv) (snd kv) m) entries acc)).
  { induction entries as [|[k v] entries IH]; intros acc Hacc; [exact Hacc|].
    cbn [fold_left fst snd]. apply IH.
    - intros k' v' m Hin. apply Hstep. now right.
    - apply Hstep; [now left | assumption]. }
  now apply G.
Qed.

Lemma apart_Map_of (entries : jsmap) : apart (Map_of entries).
Proof.
  apply Map_of_invariant; [exact I|]. intros k v m _. apply apart_Map_set.
Qed.

Lemma Map_of_keys (P : option json -> Prop) (entries : jsmap) :
  Forall (fun kv => P (fst kv)) entries ->
  Forall (fun kv => P (fst kv)) (Map_of entries).
Proof.
  intros H. apply Map_of_invariant; [constructor|].
  intros k v m Hin Hm. apply Forall_Map_set; [auto|assumption|].
  rewrite List.Forall_forall in H. exact (H _ Hin).
Qed.

Lemma Map_get_apart (k : option json) (v : json) (m : jsmap) :
  apart m -> In (k, v) m -> strict_eq k k = true -> Map_get k m = Some v.
Proof.
  intros Ha Hin Hk. induction m as [|[k' v'] m IH]; [contradiction|].
  cbn [apart] in Ha. destruct Ha as [Hf Ha]. cbn [Map_get].
  destruct Hin as [[= -> ->]|Hin].
  - now rewrite Hk.
  - rewrite List.Forall_forall in Hf. pose proof (Hf _ Hin) as Hk'.
    cbn [fst] in Hk'. rewrite Hk'. now apply IH.
Qed.

(** *** A card against itself *)

Lemma skill_entries_eq (items : list json) (es : jsmap) :
  skill_entries items = Ok es ->
  es = List.map (fun s => (get (lit "id") s, s)) items.
Proof.
  revert es. induction items as [|s items IH]; intros es; cbn [skill_entries].
  - now intros [= <-].
  - destruct (skill_entries items) as [es'|]; [|now destruct s].
    specialize (IH es' eq_refl). subst es'.
    destruct s; try discriminate; now intros [= <-].
Qed.

Lemma scalar_entries_self (c : json) :
  Forall (fun f => primitive (get f c)) scalarFields -> scalar_entries c c = [].
Proof.
  unfold scalar_entries. induction 1 as [|f fs Hf _ IH]; [reflexivity|].
  cbn [List.map List.concat]. now rewrite strict_eq_primitive, IH.
Qed.

Lemma array_entries_self (c : json) : array_entries c c = [].
Proof.
  unfold array_entries. induction arrayFields as [|f fs IH]; [reflexivity|].
  cbn [List.map List.concat]. rewrite bool_decide_eq_true_2 by reflexivity.
  exact IH.
Qed.

Lemma provider_entry_self (c : json) : provider_entry c c = [].
Proof. unfold provider_entry. now rewrite bool_decide_eq_true_2. Qed.

Lemma skillsEqual_self (s : json) : skillsEqual s s = true.
Proof. unfold skillsEqual. now apply bool_decide_eq_true. Qed.

Lemma filter_nil_in {A} (p : A -> bool) (l : list A) :
  (forall x, In x l -> p x = false) -> List.filter p l = [].
Proof. intros H. apply filter_none. now apply List.Forall_forall. Qed.

(** X22.  A card against itself shows no change, provided its scalar
    fields and the ids of its skills are plain values (no object or
    array, which [!==] and the Map would tell apart from themselves in
    two parsed copies): [diffCards] then returns an unchanged diff with
    all four lists empty. *)
Theorem diffCards_self (c : json) (d : DiffResult) :
  diffCards c c = Ok d ->
  Forall (fun f => primitive (get f c)) scalarFields ->
  (forall items, get (lit "skills") c = Some (JArr items) ->
                 Forall (fun s => primitive (get (lit "id") s)) items) ->
  d = {| changed := false; fields := []; skillsAdded := []; skillsRemoved := [];
         skillsModified := [] |}.
Proof.
  intros H Hsc Hids. apply diffCards_eq in H
    as (_ & _ & oe & ne & Eo & En & Hf & Ha & Hr & Hm & Hch).
  rewrite Eo in En. injection En as <-.
  assert (Hkeys : Forall (fun kv => primitive (fst kv)) (Map_of oe)).
  { apply Map_of_keys. unfold skills_entries in Eo.
    destruct (get (lit "skills") c) as [[| | | |items|]|] eqn:Es; try discriminate.
    apply skill_entries_eq in Eo. subst oe. specialize (Hids items eq_refl).
    rewrite Forall_map. eapply Forall_impl; [exact Hids|]. auto. }
  rewrite List.Forall_forall in Hkeys.
  assert (Hf0 : fields d = []).
  { now rewrite Hf, scalar_entries_self, provider_entry_self, array_entries_self. }
  assert (Ha0 : added_ids (Map_of oe) (Map_of oe) = []).
  { unfold added_ids. rewrite filter_nil_in; [reflexivity|].
    intros [k v] Hin. cbn [fst]. rewrite (Map_has_in k v); [reflexivity|assumption|].
    apply strict_eq_primitive. exact (Hkeys _ Hin). }
  assert (Hm0 : modified_ids (Map_of oe) (Map_of oe) = []).
  { unfold modified_ids. rewrite filter_nil_in; [reflexivity|].
    intros [k v] Hin. cbn [fst snd].
    rewrite (Map_get_apart k v); [|apply apart_Map_of|assumption|].
    - rewrite skillsEqual_self. apply andb_false_r.
    - apply strict_eq_primitive. exact (Hkeys _ Hin). }
  rewrite Ha0 in Ha, Hr. rewrite Hm0 in Hm. clear Hf Ha0 Hm0.
  rewrite Hf0, Ha, Hr, Hm in Hch. cbn in Hch.
  destruct d as [ch f a r m]. cbn [fields skillsAdded skillsRemoved skillsModified
    changed] in *. now subst.
Qed.

(** *** The display of a diff *)

Lemma head_join (sep p : jstr) (ps : list jstr) (c : Z) :
  head p = Some c -> head (join sep (p :: ps)) = Some c.
Proof.
  destruct p as [|x p]; [discriminate|]. intros [= ->].
  destruct ps; reflexivity.
Qed.

Lemma length_positive {A} (l : list A) :
  (0 <? Z.of_nat (length l)) = true -> l <> [].
Proof. destruct l; [discriminate|discriminate]. Qed.

(** X23.  [formatDiff] prints [No changes.] for a diff of [diffCards]
    exactly when the diff is unchanged; a changed diff prints lines of
    which the first starts with two spaces (a field) or with the escape
    character (a skill). *)
Theorem formatDiff_no_changes (oldCard newCard : json) (d : DiffResult) :
  diffCards oldCard newCard = Ok d ->
  (formatDiff d = lit "No changes." <-> changed d = false)
  /\ (changed d = true ->
      head (formatDiff d) = Some SP \/ head (formatDiff d) = Some ESC).
Proof.
  intros H. apply diffCards_eq in H as (_ & _ & _ & _ & _ & _ & _ & _ & _ & _ & Hch).
  assert (Hlines : changed d = true ->
            head (formatDiff d) = Some SP \/ head (formatDiff d) = Some ESC).
  { intros Ht. unfold formatDiff. rewrite Ht. cbn [negb]. rewrite Ht in Hch.
    destruct (fields d) as [|fd fds].
    - cbn [List.map List.concat app].
      destruct (skillsAdded d) as [|x xs].
      + cbn [List.map app]. destruct (skillsRemoved d) as [|y ys].
        * cbn [List.map app]. destruct (skillsModified d) as [|z zs]; [discriminate|].
          right. cbn [List.map]. now apply head_join.
        * right. cbn [List.map app]. now apply head_join.
      + right. cbn [List.map app]. now apply head_join.
    - left. cbn [List.map List.concat app]. now apply head_join. }
  split; [|exact Hlines]. split.
  - intros E. destruct (changed d) eqn:Ec; [|reflexivity].
    destruct (Hlines eq_refl) as [Hh|Hh]; rewrite E in Hh; discriminate Hh.
  - intros Ec. unfold formatDiff. now rewrite Ec.
Qed.

(** *** The stored text of a commit *)

Lemma free_of_toWellFormed_upto (n : nat) : forall (c : Z) (s : jstr),
  (length s <= n)%nat -> c <> 0xFFFD -> free_of c s -> free_of c (toWellFormed s).
Proof.
  unfold free_of. induction n as [|n IH]; intros c s Hn Hc Hs.
  - destruct s; [constructor | cbn in Hn; lia].
  - destruct s as [|u rest]; [constructor|]. cbn [length] in Hn.
    inversion Hs as [|? ? Hu Hrest]; subst. cbn [toWellFormed].
    destruct (is_high_surrogate u).
    + destruct rest as [|l rest']; [repeat constructor; congruence|].
      inversion Hrest as [|? ? Hl Hrest']; subst. cbn [length] in Hn.
      destruct (is_low_surrogate l).
      * constructor; [assumption|]. constructor; [assumption|].
        apply IH; [lia|assumption|assumption].
      * constructor; [congruence|]. apply IH; [cbn [length]; lia|assumption|assumption].
    + destruct (is_low_surrogate u); (constructor; [congruence || assumption|]);
        apply IH; (lia || assumption).
Qed.

Lemma free_of_LF_toWellFormed (s : jstr) :
  free_of LF s -> free_of LF (toWellFormed s).
Proof.
  apply (free_of_toWellFormed_upto (length s)); [lia|]. unfold LF. lia.
Qed.

Lemma Number_toString_plain (t : jsnum) : Forall plain (Number_toString t).
Proof.
  destruct t as [|z]; [apply plain_lit|]. cbn [Number_toString].
  eapply Forall_impl; [apply Z_toString_ascii|]. cbv beta. intros u Hu.
  apply plain_below. unfold is_ascii in Hu. lia.
Qed.

Lemma plain_SP : plain SP.
Proof. apply plain_below. unfold SP. lia. Qed.

Lemma toWellFormed_plain (s : jstr) : Forall plain s -> toWellFormed s = s.
Proof. intros H. apply toWellFormed_id. now apply well_formed_plain. Qed.

Lemma toWellFormed_cons_plain (c : Z) (s : jstr) :
  plain c -> toWellFormed (c :: s) = c :: toWellFormed s.
Proof. intros [Hh Hl]. cbn [toWellFormed]. now rewrite Hh, Hl. Qed.

Lemma toWellFormed_serializeCommit (x : CommitData) :
  toWellFormed (serializeCommit x) = serializeCommit (as_stored x).
Proof.
  rewrite !serializeCommit_lines. cbv zeta.
  destruct x as [c p a t m]. cbn [as_stored card parent author timestamp message].
  assert (Hrest :
    toWellFormed ((lit "author " ++ a ++ [SP] ++ Number_toString t)
                    ++ LF :: [] ++ LF :: m)
    = (lit "author " ++ toWellFormed a ++ [SP] ++ Number_toString t)
        ++ LF :: [] ++ LF :: toWellFormed m).
  { rewrite (toWellFormed_app_plain _ _ LF plain_LF).
    cbn [app]. rewrite !(toWellFormed_cons_plain LF) by apply plain_LF.
    f_equal. rewrite toWellFormed_plain_app by apply plain_lit. f_equal.
    change (a ++ [SP] ++ Number_toString t) with (a ++ SP :: Number_toString t).
    rewrite (toWellFormed_app_plain _ _ SP plain_SP).
    rewrite toWellFormed_cons_plain by apply plain_SP.
    now rewrite (toWellFormed_plain _ (Number_toString_plain t)). }
  rewrite (toWellFormed_app_plain _ _ LF plain_LF).
  rewrite toWellFormed_plain_app by apply plain_lit.
  rewrite toWellFormed_cons_plain by apply plain_LF.
  destruct p as [p|]; cbn [fmap option_fmap option_map].
  - rewrite (toWellFormed_app_plain _ _ LF plain_LF).
    rewrite toWellFormed_plain_app by apply plain_lit.
    rewrite toWellFormed_cons_plain by apply plain_LF.
    now rewrite Hrest.
  - now rewrite Hrest.
Qed.

Lemma parse_header_author_card (s : jstr) (acc : CommitData) :
  card (parse_header (lit "author " ++ s) acc) = card acc.
Proof.
  unfold parse_header.
  change (startsWith (lit "card ") (lit "author " ++ s)) with false.
  change (startsWith (lit "parent ") (lit "author " ++ s)) with false.
  now rewrite startsWith_app.
Qed.

Lemma parse_header_author_parent (s : jstr) (acc : CommitData) :
  parent (parse_header (lit "author " ++ s) acc) = parent acc.
Proof.
  unfold parse_header.
  change (startsWith (lit "card ") (lit "author " ++ s)) with false.
  change (startsWith (lit "parent ") (lit "author " ++ s)) with false.
  now rewrite startsWith_app.
Qed.

Lemma Number_toString_free_of_LF (t : jsnum) : free_of LF (Number_toString t).
Proof.
  destruct t as [|z].
  - unfold free_of. repeat constructor; discriminate.
  - apply Z_toString_free_of; [reflexivity|discriminate].
Qed.

(** What [parseCommit] reads of a serialized record whose header lines
    are single lines: its card and its parent. *)
Lemma parseCommit_serialized_card (h : jstr) (x : CommitData) :
  card x <> [] ->
  free_of LF (card x) ->
  (forall p, parent x = Some p -> free_of LF p) ->
  free_of LF (author x) ->
  exists pc, parseCommit h (serializeCommit x) = Ok pc
             /\ hash pc = h /\ card pc = card x /\ parent pc = parent x.
Proof.
  rewrite serializeCommit_lines.
  destruct x as [c p a t m]. cbn [card parent author timestamp message].
  intros Hc Hcl Hp Ha. cbv zeta.
  assert (Hcard : free_of LF (lit "card " ++ c)).
  { apply free_of_app; [|assumption]. repeat constructor; discriminate. }
  assert (Hauth : free_of LF (lit "author " ++ a ++ [SP] ++ Number_toString t)).
  { repeat apply free_of_app; try assumption; try (repeat constructor; discriminate).
    apply Number_toString_free_of_LF. }
  unfold parseCommit.
  destruct p as [p|].
  - assert (Hpar : free_of LF (lit "parent " ++ p)).
    { apply free_of_app; [|now apply Hp]. repeat constructor; discriminate. }
    rewrite !split_on_app by (assumption || constructor).
    rewrite !parse_lines_cons by (apply header_line_nonempty; discriminate).
    rewrite parse_header_card, parse_header_parent.
    cbn [parse_lines]. cbv beta iota.
    rewrite parse_header_author_card, parse_header_author_parent.
    cbn [card parent].
    destruct c; [contradiction|]. eexists. split; [reflexivity|]. now repeat split.
  - rewrite !split_on_app by (assumption || constructor).
    rewrite !parse_lines_cons by (apply header_line_nonempty; discriminate).
    rewrite parse_header_card.
    cbn [parse_lines]. cbv beta iota.
    rewrite parse_header_author_card, parse_header_author_parent.
    cbn [card parent].
    destruct c; [contradiction|]. eexists. split; [reflexivity|]. now repeat split.
Qed.

(** *** Paths of objects *)

Lemma object_path_inj (h1 h2 : jstr) :
  (2 <= length h1)%nat -> (2 <= length h2)%nat ->
  object_path h1 = object_path h2 -> h1 = h2.
Proof.
  intros H1 H2. unfold object_path.
  destruct h1 as [|a1 [|b1 r1]]; cbn [length] in H1; try lia.
  destruct h2 as [|a2 [|b2 r2]]; cbn [length] in H2; try lia.
  assert (E1 : forall a b r, slice (a :: b :: r) 0 2 = [a; b]).
  { intros a b r. unfold slice, slice_index.
    set (len := Z.of_nat (length (a :: b :: r))).
    assert (Hlen : 2 <= len) by (unfold len; cbn [length]; lia).
    replace (0 <? 0) with false by reflexivity.
    replace (2 <? 0) with false by reflexivity.
    replace (Z.min 0 len) with 0 by lia. replace (Z.min 2 len) with 2 by lia.
    reflexivity. }
  assert (E2 : forall a b r, slice_from (a :: b :: r) 2 = r).
  { intros a b r. unfold slice_from, slice, slice_index.
    set (len := Z.of_nat (length (a :: b :: r))).
    assert (Hlen : len = 2 + Z.of_nat (length r)) by (unfold len; cbn [length]; lia).
    replace (2 <? 0) with false by reflexivity.
    replace (len <? 0) with false by lia.
    replace (Z.min 2 len) with 2 by lia. replace (Z.min len len) with len by lia.
    replace (Z.to_nat 2) with 2%nat by reflexivity. cbn [drop].
    apply take_ge. lia. }
  rewrite !E1, !E2. intros H. apply app_inv_head in H.
  cbn [app] in H. now injection H as -> -> ->.
Qed.

Section Commit.
Context (JSON_parse : jstr -> result json)
        (discovered : list SkillMetadata)
        (dirName : jstr).

Lemma tip_check_state (cardHash : jstr) (parentHash : option jstr) (fs : files) :
  snd (tip_check cardHash parentHash fs) = fs.
Proof.
  unfold tip_check. destruct parentHash as [[|t0 tip]|]; try reflexivity.
  unfold bind. rewrite readObject_eq.
  destruct (fs !! object_path (t0 :: tip)); [|reflexivity].
  unfold lift. destruct (parseCommit _ _); [|reflexivity].
  now destruct (decide _).
Qed.

Lemma commit_steps (now1 now2 : Z) (msg : jstr) (fs : files)
    (working resolved : json) (b : jstr) (tip : option jstr) :
  fst (readWorkingCard JSON_parse fs) = Ok working ->
  resolveSkillPointers discovered working = Ok resolved ->
  fst (getCurrentBranch fs) = Ok b ->
  fst (getBranch b fs) = Ok tip ->
  let cardHash := hashObject Tcard (JSON_stringify2 resolved) in
  let fs1 := after_card_write resolved fs in
  commit JSON_parse discovered dirName now1 now2 msg fs
  = (let* _ := tip_check cardHash tip in
     let* author := getAuthorName JSON_parse dirName in
     let commitContent :=
       serializeCommit {| card := cardHash; parent := tip;
                          author := author; timestamp := Num (now1 / 1000);
                          message := msg |} in
     let* commitHash := writeObject Tcommit commitContent in
     let* _ := setBranch b commitHash in
     ret {| hash := commitHash;
            data := {| card := cardHash; parent := tip; author := author;
                       timestamp := Num (now2 / 1000); message := msg |} |}) fs1.
Proof.
  intros Hw Hr Hb Ht cardHash fs1.
  rewrite readWorkingCard_eq in Hw. cbn [fst] in Hw.
  rewrite getBranch_eq in Ht. apply Ok_inj in Ht.
  unfold commit.
  rewrite (bind_ok _ _ fs working fs) by (rewrite readWorkingCard_eq; now rewrite Hw).
  rewrite (bind_ok _ _ fs resolved fs) by (unfold lift; now rewrite Hr).
  rewrite (bind_ok _ _ fs tt (snd (writeWorkingCard resolved fs)))
    by (now rewrite writeWorkingCard_eq).
  rewrite (bind_ok _ _ _ cardHash fs1)
    by (unfold fs1, after_card_write; now rewrite writeObject_eq).
  rewrite (bind_ok _ _ fs1 b fs1).
  2:{ apply run_eq; [|apply getCurrentBranch_state].
      rewrite <- Hb. apply getCurrentBranch_frame.
      apply after_card_write_lookup; [apply HEAD_not_CARD|].
      right. apply not_eq_sym, object_path_not_HEAD. }
  rewrite (bind_ok _ _ fs1 tip fs1).
  2:{ rewrite getBranch_eq. f_equal. rewrite <- Ht. do 2 f_equal.
      apply after_card_write_lookup; [apply heads_path_not_CARD|].
      right. apply not_eq_sym, object_path_not_heads. }
  reflexivity.
Qed.
End Commit.

Section CommitRuns.
Context (JSON_parse : jstr -> result json)
        (discovered : list SkillMetadata)
        (dirName : jstr).

(** What a [commit] that returns has done. *)
Lemma commit_returns (now1 now2 : Z) (msg : jstr) (fs fs' : files)
    (working resolved : json) (c : NitCommit) :
  fst (readWorkingCard JSON_parse fs) = Ok working ->
  resolveSkillPointers discovered working = Ok resolved ->
  commit JSON_parse discovered dirName now1 now2 msg fs = (Ok c, fs') ->
  let cardHash := hashObject Tcard (JSON_stringify2 resolved) in
  let fs1 := after_card_write resolved fs in
  exists b tip a,
    fst (getCurrentBranch fs) = Ok b
    /\ fst (getBranch b fs) = Ok tip
    /\ let x := {| card := cardHash; parent := tip; author := a;
                   timestamp := Num (now1 / 1000); message := msg |} in
       let h := hashObject Tcommit (serializeCommit x) in
       c = {| hash := h;
              data := {| card := cardHash; parent := tip; author := a;
                         timestamp := Num (now2 / 1000); message := msg |} |}
       /\ fs' = <[heads_prefix ++ b := toWellFormed (h ++ [LF])]>
                  (snd (writeObject Tcommit (serializeCommit x) fs1)).
Proof.
  intros Hw Hr Hc cardHash fs1.
  destruct (getCurrentBranch fs) as [[b|e] fs0] eqn:Eb.
  2:{ exfalso. revert Hc. unfold commit.
      rewrite readWorkingCard_eq in Hw. cbn [fst] in Hw.
      rewrite (bind_ok _ _ fs working fs) by (rewrite readWorkingCard_eq; now rewrite Hw).
      rewrite (bind_ok _ _ fs resolved fs) by (unfold lift; now rewrite Hr).
      rewrite (bind_ok _ _ fs tt (snd (writeWorkingCard resolved fs)))
        by (now rewrite writeWorkingCard_eq).
      rewrite (bind_ok _ _ _ cardHash fs1)
        by (unfold fs1, after_card_write; now rewrite writeObject_eq).
      rewrite (bind_err _ _ fs1 e fs1); [discriminate|].
      apply run_eq; [|apply getCurrentBranch_state].
      replace (Err e) with (fst (getCurrentBranch fs)) by now rewrite Eb.
      apply getCurrentBranch_frame.
      apply after_card_write_lookup; [apply HEAD_not_CARD|].
      right. apply not_eq_sym, object_path_not_HEAD. }
  assert (Hb : fst (getCurrentBranch fs) = Ok b) by now rewrite Eb.
  set (tip := trim <$> fs !! (heads_prefix ++ b)).
  assert (Ht : fst (getBranch b fs) = Ok tip) by now rewrite getBranch_eq.
  rewrite (commit_steps JSON_parse discovered dirName now1 now2 msg fs working
             resolved b tip Hw Hr Hb Ht) in Hc.
  fold cardHash in Hc. fold fs1 in Hc.
  unfold bind at 1 in Hc.
  pose proof (tip_check_state cardHash tip fs1) as Hs.
  destruct (tip_check cardHash tip fs1) as [[[]|e] fs2]; cbn [snd] in Hs; subst fs2;
    [|discriminate].
  destruct (getAuthorName_total JSON_parse dirName fs1) as [a Ha].
  rewrite (bind_ok _ _ fs1 a fs1) in Hc by exact Ha. cbv zeta in Hc.
  unfold bind in Hc. rewrite writeObject_eq in Hc.
  unfold setBranch in Hc. rewrite writeFile_eq in Hc. unfold ret in Hc.
  exists b, tip, a. split; [reflexivity|]. split; [exact Ht|].
  cbv zeta. rewrite writeObject_eq. cbn [snd].
  injection Hc as <- <-. split; reflexivity.
Qed.

End CommitRuns.

Section AfterCommit.
Context (JSON_parse : jstr -> result json)
        (discovered : list SkillMetadata)
        (dirName : jstr).

(** The files a [commit] that returned a new commit leaves. *)
Lemma commit_leaves (now1 now2 : Z) (msg : jstr) (fs fs' : files)
    (working resolved : json) (c : NitCommit) :
  fst (readWorkingCard JSON_parse fs) = Ok working ->
  resolveSkillPointers discovered working = Ok resolved ->
  commit JSON_parse discovered dirName now1 now2 msg fs = (Ok c, fs') ->
  fs !! object_path (hash c) = None ->
  hash c <> card c ->
  exists b x,
    card c = hashObject Tcard (JSON_stringify2 resolved)
    /\ card x = card c /\ parent x = parent c /\ author x = author c
    /\ hash c = hashObject Tcommit (serializeCommit x)
    /\ fst (getCurrentBranch fs') = Ok b
    /\ fs' !! (heads_prefix ++ b) = Some (toWellFormed (hash c ++ [LF]))
    /\ fs' !! object_path (hash c) = Some (serializeCommit (as_stored x))
    /\ fs' !! CARD_PATH = Some (JSON_stringify2 resolved ++ [LF])
    /\ is_Some (fs' !! object_path (card c)).
Proof.
  intros Hw Hr Hc Hnew Hdist.
  destruct (commit_returns JSON_parse discovered dirName now1 now2 msg fs fs'
              working resolved c Hw Hr Hc) as (b & tip & a & Hb & Ht & Hx).
  cbv zeta in Hx. destruct Hx as [-> ->].
  cbn [hash card data parent author] in *.
  set (cardHash := hashObject Tcard (JSON_stringify2 resolved)) in *.
  set (x := {| card := cardHash; parent := tip; author := a;
               timestamp := Num (now1 / 1000); message := msg |}) in *.
  set (h := hashObject Tcommit (serializeCommit x)) in *.
  set (fs1 := after_card_write resolved fs).
  assert (Hpath : object_path h <> object_path cardHash).
  { intros E. apply Hdist. apply object_path_inj; [| |exact E].
    - unfold h. rewrite hashObject_length. lia.
    - unfold cardHash. rewrite hashObject_length. lia. }
  assert (H1 : fs1 !! object_path h = None).
  { unfold fs1. rewrite after_card_write_lookup; [exact Hnew|apply object_path_not_CARD|].
    now right. }
  rewrite writeObject_eq. fold h. rewrite H1. cbn [snd].
  exists b, x. split; [reflexivity|]. split; [reflexivity|]. split; [reflexivity|].
  split; [reflexivity|]. split; [reflexivity|]. split; [|split; [|split; [|split]]].
  - rewrite <- Hb. apply getCurrentBranch_frame.
    rewrite lookup_insert_ne by apply heads_path_not_HEAD.
    rewrite lookup_insert_ne by apply object_path_not_HEAD.
    unfold fs1. apply after_card_write_lookup; [apply HEAD_not_CARD|].
    right. apply not_eq_sym, object_path_not_HEAD.
  - apply lookup_insert_eq.
  - rewrite lookup_insert_ne by (apply not_eq_sym, object_path_not_heads).
    rewrite lookup_insert_eq. now rewrite toWellFormed_serializeCommit.
  - rewrite lookup_insert_ne by apply heads_path_not_CARD.
    rewrite lookup_insert_ne by apply object_path_not_CARD.
    apply after_card_write_card.
  - rewrite lookup_insert_ne by (apply not_eq_sym, object_path_not_heads).
    rewrite lookup_insert_ne by exact Hpath.
    apply after_card_write_object.
Qed.

Lemma as_stored_headers (x : CommitData) :
  Forall is_lower_hex (card x) ->
  free_of LF (author x) ->
  (forall p, parent x = Some p -> free_of LF p) ->
  card x <> [] ->
  card (as_stored x) = card x
  /\ card (as_stored x) <> []
  /\ free_of LF (card (as_stored x))
  /\ (forall p, parent (as_stored x) = Some p -> free_of LF p)
  /\ free_of LF (author (as_stored x)).
Proof.
  intros Hc Ha Hp Hne. destruct x as [c p a t m]. cbn [as_stored card parent author] in *.
  rewrite (toWellFormed_id c) by now apply well_formed_lower_hex.
  split; [reflexivity|]. split; [assumption|]. split; [|split].
  - unfold free_of. eapply Forall_impl; [exact Hc|]. cbv beta.
    unfold is_lower_hex, LF. lia.
  - intros q Hq. destruct p as [p|]; [|discriminate].
    cbn in Hq. injection Hq as <-. apply free_of_LF_toWellFormed. now apply Hp.
  - now apply free_of_LF_toWellFormed.
Qed.

(** X25.  A new commit is what [log] shows first: after a [commit] that
    stored a new commit object whose author and parent are single lines,
    [log] with a count of one returns one entry, under the digest that
    [commit] returned, with its card digest and with its parent (as the
    stored text spells it). *)
Theorem commit_then_log (now1 now2 : Z) (msg : jstr) (fs fs' : files)
    (working resolved : json) (c : NitCommit) :
  fst (readWorkingCard JSON_parse fs) = Ok working ->
  resolveSkillPointers discovered working = Ok resolved ->
  commit JSON_parse discovered dirName now1 now2 msg fs = (Ok c, fs') ->
  fs !! object_path (hash c) = None ->
  hash c <> card c ->
  free_of LF (author c) ->
  (forall p, parent c = Some p -> free_of LF p) ->
  exists entry,
    log (Some 1) fs' = (Ok [entry], fs')
    /\ hash entry = hash c
    /\ card entry = card c
    /\ parent entry = toWellFormed <$> parent c.
Proof.
  intros Hw Hr Hc Hnew Hdist Ha Hp.
  destruct (commit_leaves now1 now2 msg fs fs' working resolved c Hw Hr Hc Hnew Hdist)
    as (b & x & Hcard & Ex1 & Ex2 & Ex3 & Hh & Hb & Href & Hobj & _ & _).
  assert (Hhex : Forall is_lower_hex (card x)).
  { rewrite Ex1, Hcard. apply hashObject_lower_hex. }
  assert (Hne : card x <> []).
  { rewrite Ex1, Hcard. intros E. apply (f_equal (@length Z)) in E.
    rewrite hashObject_length in E. discriminate E. }
  rewrite <- Ex3 in Ha. rewrite <- Ex2 in Hp.
  destruct (as_stored_headers x Hhex Ha Hp Hne) as (Ec & Hne' & H1 & H2 & H3).
  destruct (parseCommit_serialized_card (hash c) (as_stored x) Hne' H1 H2 H3)
    as (pc & Hpc & Hph & Hpcard & Hpp).
  exists pc. split.
  - unfold log.
    rewrite (bind_ok _ _ fs' b fs') by (apply run_eq; [assumption|apply getCurrentBranch_state]).
    rewrite (bind_ok _ _ fs' (Some (hash c)) fs').
    2:{ rewrite getBranch_eq, Href. cbn [fmap option_fmap option_map].
        rewrite Hh, trim_hex_line by apply hashObject_lower_hex. reflexivity. }
    change (Z.to_nat (default 50 (Some 1))) with 1%nat.
    rewrite log_loop_step.
    2:{ rewrite Hh. pose proof (hashObject_length Tcommit (serializeCommit x)) as Hl.
        destruct (hashObject Tcommit (serializeCommit x)); [discriminate Hl|reflexivity]. }
    rewrite (bind_ok _ _ fs' (serializeCommit (as_stored x)) fs')
      by (rewrite readObject_eq; now rewrite Hobj).
    rewrite (bind_ok _ _ fs' pc fs') by (unfold lift; now rewrite Hpc).
    reflexivity.
  - split; [exact Hph|]. split; [now rewrite Hpcard, Ec|].
    rewrite Hpp. destruct x as [xc xp xa xt xm]. cbn [as_stored parent] in *.
    now rewrite Ex2.
Qed.

(** X26.  Committing twice: after a [commit] that stored a new commit
    object whose author and parent are single lines, and provided
    [JSON.parse] reads the card text that was written back as the card
    it is the text of, a second [commit] fails with NoChanges and leaves
    every file as it is. *)
Theorem commit_twice (now1 now2 now3 now4 : Z) (msg msg' : jstr) (fs fs' : files)
    (working resolved : json) (c : NitCommit) :
  fst (readWorkingCard JSON_parse fs) = Ok working ->
  resolveSkillPointers discovered working = Ok resolved ->
  commit JSON_parse discovered dirName now1 now2 msg fs = (Ok c, fs') ->
  JSON_parse (JSON_stringify2 resolved ++ [LF]) = Ok resolved ->
  fs !! object_path (hash c) = None ->
  hash c <> card c ->
  free_of LF (author c) ->
  (forall p, parent c = Some p -> free_of LF p) ->
  commit JSON_parse discovered dirName now3 now4 msg' fs' = (Err NoChanges, fs').
Proof.
  intros Hw Hr Hc Hparse Hnew Hdist Ha Hp.
  destruct (commit_leaves now1 now2 msg fs fs' working resolved c Hw Hr Hc Hnew Hdist)
    as (b & x & Hcard & Ex1 & Ex2 & Ex3 & Hh & Hb & Href & Hobj & Hwc & Hco).
  assert (Hhex : Forall is_lower_hex (card x)).
  { rewrite Ex1, Hcard. apply hashObject_lower_hex. }
  assert (Hne : card x <> []).
  { rewrite Ex1, Hcard. intros E. apply (f_equal (@length Z)) in E.
    rewrite hashObject_length in E. discriminate E. }
  rewrite <- Ex3 in Ha. rewrite <- Ex2 in Hp.
  destruct (as_stored_headers x Hhex Ha Hp Hne) as (Ec & Hne' & H1 & H2 & H3).
  destruct (parseCommit_serialized_card (hash c) (as_stored x) Hne' H1 H2 H3)
    as (pc & Hpc & Hph & Hpcard & Hpp).
  assert (Hw' : fst (readWorkingCard JSON_parse fs') = Ok resolved).
  { rewrite readWorkingCard_eq, Hwc. cbn [fst]. now rewrite Hparse. }
  assert (Hr' : resolveSkillPointers discovered resolved = Ok resolved)
    by (eapply resolveSkillPointers_again; exact Hr).
  assert (Ht' : fst (getBranch b fs') = Ok (Some (hash c))).
  { rewrite getBranch_eq, Href. cbn [fst fmap option_fmap option_map].
    rewrite Hh, trim_hex_line by apply hashObject_lower_hex. reflexivity. }
  assert (Hnonempty : nonempty (Some (hash c)) = true).
  { rewrite Hh. pose proof (hashObject_length Tcommit (serializeCommit x)) as Hl.
    destruct (hashObject Tcommit (serializeCommit x)); [discriminate Hl|reflexivity]. }
  assert (Hraw : fst (readObject (hash c) fs') = Ok (serializeCommit (as_stored x)))
    by (rewrite readObject_eq; now rewrite Hobj).
  rewrite (commit_prefix JSON_parse discovered dirName now3 now4 msg' fs' resolved
             resolved b (hash c) (serializeCommit (as_stored x)) pc
             Hw' Hr' Hb Ht' Hnonempty Hraw Hpc).
  rewrite decide_True by (now rewrite Hpcard, Ec, Ex1, Hcard).
  f_equal. unfold after_card_write.
  rewrite writeWorkingCard_eq, writeObject_eq. cbn [snd].
  rewrite (insert_id fs' CARD_PATH) by exact Hwc.
  rewrite <- Hcard. destruct Hco as [stored ->]. reflexivity.
Qed.
End AfterCommit.

(** *** diff *)

Section DiffRuns.
Context (JSON_parse : jstr -> result json).

Lemma lift_state {A} (r : result A) (fs : files) : snd (lift r fs) = fs.
Proof. reflexivity. Qed.

Lemma bind_state {A B} (m : M A) (k : A -> M B) (fs : files) :
  snd (m fs) = fs -> (forall a, snd (k a fs) = fs) -> snd (bind m k fs) = fs.
Proof.
  intros Hm Hk. unfold bind. destruct (m fs) as [[a|e] fs1]; cbn [snd] in Hm; subst fs1.
  - apply Hk.
  - reflexivity.
Qed.

Lemma getBranch_state (b : jstr) (fs : files) : snd (getBranch b fs) = fs.
Proof. now rewrite getBranch_eq. Qed.

Lemma diff_state (target : option jstr) (fs : files) :
  snd (diff JSON_parse target fs) = fs.
Proof.
  unfold diff. destruct target as [[|t0 target]|].
  1,3: (apply bind_state; [apply resolveHead_state|]; intros h;
        apply bind_state; [apply getCardAtCommit_state|]; intros hc;
        apply bind_state; [apply readWorkingCard_state|]; intros wc;
        apply lift_state).
  apply bind_state; [apply getBranch_state|]. intros tb.
  apply bind_state; [apply resolveHead_state|]. intros h.
  apply bind_state; [apply getCardAtCommit_state|]. intros hc.
  destruct tb as [[|b0 tb]|].
  2:{ apply bind_state; [apply getCardAtCommit_state|]. intros tc. apply lift_state. }
  all: destruct (is_commit_hash (t0 :: target)); [|reflexivity];
    (apply bind_state; [apply getCardAtCommit_state|]; intros tc; apply lift_state).
Qed.

(** X27.  [diff] only reads.  Without a target it compares the card at
    HEAD with the working card, and what it reports as changed is what
    makes [checkout] refuse: when it returns a changed diff, [checkout]
    of any branch throws UncommittedChanges and changes nothing. *)
Theorem diff_reads_only (target : option jstr) (fs : files) :
  snd (diff JSON_parse target fs) = fs
  /\ (forall d branchName,
        fst (diff JSON_parse None fs) = Ok d -> changed d = true ->
        checkout JSON_parse branchName fs = (Err UncommittedChanges, fs)).
Proof.
  split; [apply diff_state|]. intros d branchName Hd Hch.
  unfold diff, bind in Hd.
  pose proof (resolveHead_state fs) as H1.
  destruct (resolveHead fs) as [[h|e] fs1] eqn:Eh; cbn [snd] in H1; subst fs1;
    [|discriminate Hd].
  pose proof (getCardAtCommit_state JSON_parse h fs) as H2.
  destruct (getCardAtCommit JSON_parse h fs) as [[hc|e] fs1] eqn:Ec;
    cbn [snd] in H2; subst fs1; [|discriminate Hd].
  pose proof (readWorkingCard_state JSON_parse fs) as H3.
  destruct (readWorkingCard JSON_parse fs) as [[wc|e] fs1] eqn:Ew;
    cbn [snd] in H3; subst fs1; [|discriminate Hd].
  unfold lift in Hd. cbn [fst] in Hd.
  unfold checkout.
  rewrite (bind_err _ _ fs UncommittedChanges fs); [reflexivity|].
  unfold try_catch.
  rewrite (bind_ok _ _ fs h fs) by exact Eh.
  rewrite (bind_ok _ _ fs hc fs) by exact Ec.
  rewrite (bind_ok _ _ fs wc fs) by exact Ew.
  rewrite (bind_ok _ _ fs d fs) by (unfold lift; now rewrite Hd).
  rewrite Hch. reflexivity.
Qed.

(** X28.  A target that is neither a branch (no ref file, or an empty
    one) nor sixty-four lowercase hexadecimal characters gets no diff:
    [diff] throws, and once HEAD resolves to a commit whose card is read
    the error is [Unknown target "<target>". Provide a branch name or
    commit hash.] *)
Theorem diff_unknown_target (target : jstr) (fs : files) (tip : option jstr) :
  target <> [] ->
  fst (getBranch target fs) = Ok tip -> nonempty tip = false ->
  is_commit_hash target = false ->
  (exists e, fst (diff JSON_parse (Some target) fs) = Err e)
  /\ (forall headHash headCard,
        fst (resolveHead fs) = Ok headHash ->
        fst (getCardAtCommit JSON_parse headHash fs) = Ok headCard ->
        fst (diff JSON_parse (Some target) fs)
        = Err (Error (lit "Unknown target " ++ [34] ++ target ++ [34]
                        ++ lit ". Provide a branch name or commit hash."))).
Proof.
  intros Hne Ht Htip Hhash. destruct target as [|t0 target]; [contradiction|].
  assert (Hrun : forall fs0 (hc : json),
     (match tip with
      | Some ((_ :: _) as targetBranchHash) =>
          let* targetCard := getCardAtCommit JSON_parse targetBranchHash in
          lift (diffCards hc targetCard)
      | _ =>
          if is_commit_hash (t0 :: target) then
            let* targetCard := getCardAtCommit JSON_parse (t0 :: target) in
            lift (diffCards hc targetCard)
          else
            throw (Error (lit "Unknown target " ++ [34] ++ (t0 :: target) ++ [34]
                            ++ lit ". Provide a branch name or commit hash."))
      end) fs0
     = (Err (Error (lit "Unknown target " ++ [34] ++ (t0 :: target) ++ [34]
                      ++ lit ". Provide a branch name or commit hash.")), fs0)).
  { intros fs0 hc. rewrite Hhash. destruct tip as [[|b0 tb]|]; try reflexivity.
    discriminate Htip. }
  unfold diff.
  rewrite (bind_ok _ _ fs tip fs) by (apply run_eq; [assumption|apply getBranch_state]).
  split.
  - unfold bind.
    pose proof (resolveHead_state fs) as H1.
    destruct (resolveHead fs) as [[h|e] fs1]; cbn [snd] in H1; subst fs1; [|eauto].
    pose proof (getCardAtCommit_state JSON_parse h fs) as H2.
    destruct (getCardAtCommit JSON_parse h fs) as [[hc|e] fs1];
      cbn [snd] in H2; subst fs1; [|eauto].
    eexists. exact (f_equal fst (Hrun fs hc)).
  - intros headHash headCard Hh Hc.
    rewrite (bind_ok _ _ fs headHash fs) by (apply run_eq; [assumption|apply resolveHead_state]).
    rewrite (bind_ok _ _ fs headCard fs)
      by (apply run_eq; [assumption|apply getCardAtCommit_state]).
    exact (f_equal fst (Hrun fs headCard)).
Qed.
End DiffRuns.

(* ===================================================================== *)
(** ** The properties on concrete inputs                                  *)
(* ===================================================================== *)

(** Digests and the identifier, against values computed outside. *)
Example hashObject_empty_card :
  hashObject Tcard []
  = lit "b08dc547f9e3630d9d80b90cddcf190a53ee0dcb532629a86b296360a355cd19".
Proof. vm_compute. reflexivity. Qed.

Example hashObject_commit_hello :
  hashObject Tcommit (lit "hello")
  = lit "73c36e79f95a37bb918bf45e3cfbc5b3d1b8fd5b7012bd1709d627a084cf5bd9".
Proof. vm_compute. reflexivity. Qed.

(** Eight code units, eleven bytes: the header carries the byte length. *)
Example hashObject_non_ascii :
  hashObject Tcard [104; 0xE9; 108; 108; 111; 32; 0xD83D; 0xDE00]
  = lit "084bd266b27e75d84772f0ff3f9d7fc985b8dd786c7c2bb51aebe3a9d43bd027".
Proof. vm_compute. reflexivity. Qed.

Example deriveAgentId_example :
  deriveAgentId (formatPublicKeyField example_pub)
  = lit "0ae23787-42b6-5a04-b27c-272001e5bca9".
Proof. vm_compute. reflexivity. Qed.

Lemma buildAuthHeaders_signs_canonical_message_witness :
  let agentId := lit "0ae23787-42b6-5a04-b27c-272001e5bca9" in
  let path := lit "/agent-card/branches/main" in
  buildAuthHeaders example_sign 1709124000123 (lit "PUT") path (Some (lit "{}"))
    repo_clean
  = (let* signature :=
       signMessage example_sign
         (canonical_message (lit "PUT") path agentId (Z_toString (1709124000123 / 1000))
            (Some (lit "{}"))) in
     ret [(lit "X-Nit-Agent-Id", agentId);
          (lit "X-Nit-Timestamp", Z_toString (1709124000123 / 1000));
          (lit "X-Nit-Signature", signature)]) repo_clean.
Proof.
  refine (buildAuthHeaders_signs_canonical_message example_sign 1709124000123
            (lit "PUT") (lit "/agent-card/branches/main") (Some (lit "{}"))
            repo_clean (lit "0ae23787-42b6-5a04-b27c-272001e5bca9") _).
  vm_compute. reflexivity.
Defined.

(** What [example_sign] was given: the canonical message, byte for byte. *)
Example buildAuthHeaders_example :
  fst (buildAuthHeaders example_sign 1709124000123 (lit "DELETE")
         (lit "/agent-card/branches/faam.io") None repo_clean)
  = Ok [(lit "X-Nit-Agent-Id", lit "0ae23787-42b6-5a04-b27c-272001e5bca9");
        (lit "X-Nit-Timestamp", lit "1709124000");
        (lit "X-Nit-Signature",
         hex_encode (lit "DELETE" ++ [LF] ++ lit "/agent-card/branches/faam.io"
                       ++ [LF] ++ lit "0ae23787-42b6-5a04-b27c-272001e5bca9"
                       ++ [LF] ++ lit "1709124000"))].
Proof. vm_compute. reflexivity. Qed.

Lemma commit_NoChanges_iff_same_card_witness :
  let pc := {| hash := initial_commit_hash; data := initial_commit |} in
  let cardHash := hashObject Tcard (JSON_stringify2 card_v2) in
  let fs1 := after_card_write card_v2 repo_edited in
  let r := commit example_JSON_parse [] (lit "agent") 1709124000123 1709124000456
             (lit "Rename") repo_edited in
  (fst r = Err NoChanges <-> card pc = cardHash)
  /\ (card pc <> cardHash ->
      exists author,
        let content :=
          serializeCommit {| card := cardHash; parent := Some initial_commit_hash;
                             author := author; timestamp := Num (1709124000123 / 1000);
                             message := lit "Rename" |} in
        let h := hashObject Tcommit content in
        r = (Ok {| hash := h;
                   data := {| card := cardHash; parent := Some initial_commit_hash;
                              author := author;
                              timestamp := Num (1709124000456 / 1000);
                              message := lit "Rename" |} |},
             snd (setBranch (lit "main") h (snd (writeObject Tcommit content fs1))))
        /\ snd (writeObject Tcommit content fs1) !! (heads_prefix ++ lit "main")
           = repo_edited !! (heads_prefix ++ lit "main")
        /\ fst (getBranch (lit "main") (snd r)) = Ok (Some h)
        /\ is_Some (snd r !! object_path h)).
Proof.
  refine (commit_NoChanges_iff_same_card example_JSON_parse [] (lit "agent")
            1709124000123 1709124000456 (lit "Rename") repo_edited
            card_v2 card_v2 (lit "main") initial_commit_hash
            (serializeCommit initial_commit)
            {| hash := initial_commit_hash; data := initial_commit |}
            _ _ _ _ _ _ _);
    vm_compute; reflexivity.
Defined.

(** The end-to-end scenario: after the edit, the tip advances and the log
    has two entries, the new commit first. *)
Example commit_advances_example :
  let r := commit example_JSON_parse [] (lit "agent") 1709124000123 1709124000456
             (lit "Rename") repo_edited in
  option_map (fun c : NitCommit => parent c) (ok (fst r))
  = Some (Some initial_commit_hash)
  /\ option_map (fun c : NitCommit => author c) (ok (fst r)) = Some (lit "Emil II")
  /\ option_map (List.map hash) (ok (fst (log None (snd r))))
     = option_map (fun c => [hash c; initial_commit_hash]) (ok (fst r)).
Proof. vm_compute. repeat split; reflexivity. Qed.

Lemma commit_NoChanges_after_writes_witness :
  let cardJson := JSON_stringify2 card_v1 in
  let cardHash := hashObject Tcard cardJson in
  let r := commit example_JSON_parse [] (lit "agent") 1709124000123 1709124000456
             (lit "Again") repo_saved in
  fst r = Err NoChanges
  /\ snd r = snd (writeObject Tcard cardJson (snd (writeWorkingCard card_v1 repo_saved)))
  /\ snd r !! CARD_PATH = Some (cardJson ++ [LF])
  /\ is_Some (snd r !! object_path cardHash)
  /\ (repo_saved !! object_path cardHash = None ->
      snd r !! object_path cardHash = Some cardJson)
  /\ (repo_saved !! CARD_PATH <> Some (cardJson ++ [LF]) -> snd r <> repo_saved).
Proof.
  refine (commit_NoChanges_after_writes example_JSON_parse [] (lit "agent")
            1709124000123 1709124000456 (lit "Again") repo_saved
            card_v1 card_v1 (lit "main") initial_commit_hash
            (serializeCommit initial_commit)
            {| hash := initial_commit_hash; data := initial_commit |}
            _ _ _ _ _ _ _ _);
    vm_compute; reflexivity.
Defined.

(** The failed commit of [repo_saved] left the working card rewritten. *)
Example commit_NoChanges_changes_files :
  let r := commit example_JSON_parse [] (lit "agent") 1709124000123 1709124000456
             (lit "Again") repo_saved in
  fst r = Err NoChanges
  /\ repo_saved !! CARD_PATH = Some (JSON_stringify2 card_v1)
  /\ snd r !! CARD_PATH = Some (JSON_stringify2 card_v1 ++ [LF]).
Proof. vm_compute. repeat split; reflexivity. Qed.


Example checkout_refuses_edited_card :
  let r := checkout example_JSON_parse (lit "faam.io") repo_edited in
  fst r = Err UncommittedChanges
  /\ snd r !! CARD_PATH = repo_edited !! CARD_PATH
  /\ snd r !! HEAD_PATH = repo_edited !! HEAD_PATH.
Proof. vm_compute. repeat split; reflexivity. Qed.

Example checkout_switches_branch :
  let r := checkout example_JSON_parse (lit "faam.io") repo_clean in
  fst r = Ok tt
  /\ fst (getCurrentBranch (snd r)) = Ok (lit "faam.io")
  /\ snd r !! CARD_PATH = Some (JSON_stringify2 card_v1 ++ [LF]).
Proof. vm_compute. repeat split; reflexivity. Qed.

Example example_provider_string_valued :
  string_valued example_provider
  /\ string_valued (List.rev example_provider)
  /\ example_provider <> List.rev example_provider.
Proof.
  assert (Hs : string_valued example_provider).
  { unfold string_valued, example_provider.
    repeat (apply List.Forall_cons; [split; [|eexists; split; [reflexivity|]];
      apply List.Forall_forall; intros u Hu; vm_compute in Hu;
      intuition (subst u; unfold is_code_unit; lia)|]).
    apply List.Forall_nil. }
  split; [exact Hs|]. split.
  - unfold string_valued. apply Forall_rev. exact Hs.
  - vm_compute. discriminate.
Qed.

Lemma diffCards_provider_key_order_counterexample :
  Permutation example_provider (List.rev example_provider)
  /\ card_reordered = example_card (lit "Emil") (JObj (List.rev example_provider))
  /\ card_v1 = example_card (lit "Emil") (JObj example_provider)
  /\ diffCards card_v1 card_reordered = Ok reordered_diff
  /\ provider_entries reordered_diff <> [].
Proof.
  split; [apply Permutation_rev|]. split; [reflexivity|]. split; [reflexivity|].
  split; [vm_compute; reflexivity | vm_compute; discriminate].
Qed.

Lemma diffCards_provider_by_serialized_form_witness :
  let oldProvider := JSON_stringify (or_null (get (lit "provider") card_v1)) in
  let newProvider := JSON_stringify (or_null (get (lit "provider") card_reordered)) in
  let entry := {| field := lit "provider"; old := get (lit "provider") card_v1;
                  new := get (lit "provider") card_reordered |} in
  (oldProvider = newProvider -> provider_entries reordered_diff = [])
  /\ (oldProvider <> newProvider -> provider_entries reordered_diff = [entry])
  /\ (forall p1 p2,
        get (lit "provider") card_v1 = Some (JObj p1) ->
        get (lit "provider") card_reordered = Some (JObj p2) ->
        string_valued p1 -> string_valued p2 ->
        p1 <> p2 -> provider_entries reordered_diff = [entry]).
Proof.
  refine (diffCards_provider_by_serialized_form card_v1 card_reordered
            reordered_diff _).
  vm_compute. reflexivity.
Defined.

(** The same providers in the same order give no provider entry. *)
Example diffCards_same_card :
  diffCards card_v1 card_v1 = Ok no_diff.
Proof. vm_compute. reflexivity. Qed.

(** The skills example of the specification. *)
Example diffCards_skills_example :
  let A := JObj [(lit "skills", JArr [JObj [(lit "id", JStr (lit "x"))]])] in
  let B := JObj [(lit "skills",
                  JArr [JObj [(lit "id", JStr (lit "x"));
                              (lit "name", JStr (lit "changed"))];
                        JObj [(lit "id", JStr (lit "y"))]])] in
  diffCards A B
  = Ok {| changed := true; fields := [];
          skillsAdded := [Some (JStr (lit "y"))];
          skillsRemoved := [];
          skillsModified := [Some (JStr (lit "x"))] |}.
Proof. vm_compute. reflexivity. Qed.

Lemma parseCommit_roundtrip_counterexample :
  parseCommit initial_commit_hash (serializeCommit two_line_author_commit)
  = Ok {| hash := initial_commit_hash;
          data := {| card := card_v1_hash; parent := None; author := lit "Emi";
                     timestamp := NaN; message := lit "Initial commit" |} |}
  /\ parseCommit initial_commit_hash (serializeCommit two_line_author_commit)
     <> Ok {| hash := initial_commit_hash; data := two_line_author_commit |}.
Proof. split; [vm_compute; reflexivity | vm_compute; discriminate]. Qed.

Lemma parseCommit_serializeCommit_roundtrip_witness :
  parseCommit orphan_commit_hash (serializeCommit orphan_commit)
  = Ok {| hash := orphan_commit_hash; data := orphan_commit |}.
Proof.
  refine (parseCommit_serializeCommit_roundtrip orphan_commit_hash orphan_commit
            1709123999 _ _ _ _ _ _).
  - vm_compute. discriminate.
  - unfold free_of. apply (bool_decide_unpack _). vm_compute. exact I.
  - intros p [= <-]. unfold free_of. apply (bool_decide_unpack _). vm_compute. exact I.
  - unfold free_of. apply (bool_decide_unpack _). vm_compute. exact I.
  - reflexivity.
  - unfold is_safe_integer. lia.
Defined.

(** C7.  On a branch whose tip names a parent that is missing from the
    store, [log] with the default limit does not stop early: it throws
    "Object not found", where the claim has it return the entries read so
    far. *)
Theorem log_throws_on_broken_chain :
  log None repo_broken
  = (Err (Error (lit "Object not found: " ++ missing_hash)), repo_broken).
Proof.
  refine (log_fails_on_missing_parent None repo_broken (lit "main")
            orphan_commit_hash (serializeCommit orphan_commit) missing_hash
            {| hash := orphan_commit_hash; data := orphan_commit |}
            _ _ _ _ _ _ _ _ _); vm_compute; first [reflexivity | discriminate].
Qed.

(** The walk of [status] over the same chain stops at the break. *)
Example ahead_loop_stops_at_break :
  fst (ahead_loop 100 (Some orphan_commit_hash) 0 repo_broken) = Ok 2.
Proof. vm_compute. reflexivity. Qed.

(** With a limit of one entry the break is never reached. *)
Example log_one_entry_on_broken_chain :
  option_map (List.map hash) (ok (fst (log (Some 1) repo_broken)))
  = Some [orphan_commit_hash].
Proof. vm_compute. reflexivity. Qed.

(** A decidable statement about concrete data, by evaluation. *)
Ltac by_evaluation := apply (bool_decide_unpack _); vm_compute; exact I.

Lemma writeObject_then_readObject_witness :
  let h := hashObject Tcard (lit "{}") in
  let fs' := snd (writeObject Tcard (lit "{}") ∅) in
  fst (writeObject Tcard (lit "{}") ∅) = Ok h
  /\ readObject h fs' = (Ok (toWellFormed (lit "{}")), fs')
  /\ hashObject Tcard (toWellFormed (lit "{}")) = h
  /\ objectExists h fs' = (Ok true, fs').
Proof.
  refine (writeObject_then_readObject Tcard (lit "{}") ∅ _). reflexivity.
Defined.

Lemma writeObject_keeps_files_witness :
  snd (writeObject Tcard (lit "{}") repo_clean) !! HEAD_PATH
  = Some (lit "ref: refs/heads/main" ++ [LF])
  /\ snd (writeObject Tcard (lit "{}") repo_clean) !! HEAD_PATH
     = repo_clean !! HEAD_PATH.
Proof.
  split.
  - refine (proj1 (writeObject_keeps_files Tcard (lit "{}") repo_clean HEAD_PATH)
              (lit "ref: refs/heads/main" ++ [LF]) _).
    vm_compute. reflexivity.
  - refine (proj2 (writeObject_keeps_files Tcard (lit "{}") repo_clean HEAD_PATH) _).
    intros E. apply (f_equal head) in E. discriminate.
Defined.

Lemma parseCommit_missing_card_witness :
  parseCommit missing_hash (lit "author Emil 1709123456")
  = Err (Error (lit "Malformed commit object " ++ missing_hash
                  ++ lit ": missing card hash")).
Proof.
  refine (parseCommit_missing_card missing_hash (lit "author Emil 1709123456") _).
  by_evaluation.
Defined.

Lemma setBranch_then_getBranch_witness :
  let fs' := snd (setBranch (lit "draft") initial_commit_hash repo_clean) in
  fst (setBranch (lit "draft") initial_commit_hash repo_clean) = Ok tt
  /\ getBranch (lit "draft") fs' = (Ok (Some initial_commit_hash), fs')
  /\ fs' !! CARD_PATH = repo_clean !! CARD_PATH
  /\ getCurrentBranch fs' = (fst (getCurrentBranch repo_clean), fs').
Proof.
  assert (Hn : simple_name (lit "draft")) by (unfold simple_name, free_of; by_evaluation).
  pose proof (setBranch_then_getBranch (lit "draft") initial_commit_hash repo_clean Hn)
    as (H1 & _ & H3 & H4 & H5).
  split; [exact H1|]. split.
  - apply H3. unfold is_lower_hex. by_evaluation.
  - split; [|exact H5]. apply H4. discriminate.
Defined.

Lemma setHead_then_getCurrentBranch_witness :
  let fs' := snd (setHead (lit "faam.io") repo_clean) in
  getCurrentBranch fs' = (Ok (lit "faam.io"), fs')
  /\ fs' !! CARD_PATH = repo_clean !! CARD_PATH.
Proof.
  pose proof (setHead_then_getCurrentBranch (lit "faam.io") repo_clean)
    as (_ & _ & H3 & H4).
  split.
  - apply H3; vm_compute; reflexivity.
  - apply H4. discriminate.
Defined.

Lemma resolveHead_follows_current_branch_witness :
  resolveHead repo_clean
  = (match fst (getBranch (lit "main") repo_clean) with
     | Ok (Some h) => Ok h
     | _ => Err (Error (lit "Branch ref refs/heads/" ++ lit "main"
                          ++ lit " does not exist. Repository may be empty."))
     end, repo_clean).
Proof.
  refine (resolveHead_follows_current_branch (lit "main") repo_clean _).
  vm_compute. reflexivity.
Defined.

Lemma setRemoteRef_then_getRemoteRef_witness :
  let fs' := snd (setRemoteRef (lit "origin") (lit "main") initial_commit_hash
                    repo_clean) in
  getRemoteRef (lit "origin") (lit "main") fs' = (Ok (Some initial_commit_hash), fs')
  /\ getBranch (lit "main") fs' = (fst (getBranch (lit "main") repo_clean), fs')
  /\ getCurrentBranch fs' = (fst (getCurrentBranch repo_clean), fs').
Proof.
  assert (Hr : simple_name (lit "origin")) by (unfold simple_name, free_of; by_evaluation).
  assert (Hb : simple_name (lit "main")) by (unfold simple_name, free_of; by_evaluation).
  pose proof (setRemoteRef_then_getRemoteRef (lit "origin") (lit "main")
                initial_commit_hash repo_clean Hr Hb) as (_ & H2 & H3 & H4 & _).
  split; [|split; [|exact H4]].
  - apply H2. unfold is_lower_hex. by_evaluation.
  - apply H3. exact Hb.
Defined.

Lemma parsePublicKeyField_inverts_format_witness :
  parsePublicKeyField (formatPublicKeyField example_pub) = Ok example_pub
  /\ parsePublicKeyField (lit "rsa:AAAA")
     = Err (Error (lit "Invalid publicKey format: expected " ++ [34]
                     ++ lit "ed25519:<base64>" ++ [34] ++ lit ", got " ++ [34]
                     ++ lit "rsa:AAAA" ++ [34])).
Proof.
  split.
  - apply (proj1 (parsePublicKeyField_inverts_format
                    (formatPublicKeyField example_pub) example_pub)).
    reflexivity.
  - apply (proj2 (parsePublicKeyField_inverts_format (lit "rsa:AAAA") [])).
    reflexivity.
Defined.

Lemma base64url_roundtrip_witness :
  base64ToBase64url (base64urlToBase64 example_jwk_x) = example_jwk_x
  /\ Z.of_nat (length (base64urlToBase64 example_jwk_x)) mod 4 = 0.
Proof.
  refine (base64url_roundtrip example_jwk_x _).
  unfold is_base64url. by_evaluation.
Defined.

Lemma signMessage_after_generateKeypair_witness :
  let fs' := snd (generateKeypair example_jwk_x example_jwk_d ∅) in
  fst (generateKeypair example_jwk_x example_jwk_d ∅)
  = Ok (base64urlToBase64 example_jwk_x, base64urlToBase64 example_jwk_d)
  /\ signMessage example_sign (lit "hello") fs'
     = (example_sign example_jwk_x example_jwk_d (utf8_encode (lit "hello")), fs').
Proof.
  refine (signMessage_after_generateKeypair example_sign example_jwk_x example_jwk_d
            (lit "hello") ∅ _ _); unfold is_base64url; by_evaluation.
Defined.

Lemma parseUuid_formatUuid_witness :
  parseUuid (formatUuid NIT_NAMESPACE_bytes) = NIT_NAMESPACE_bytes
  /\ length (formatUuid NIT_NAMESPACE_bytes) = 36%nat.
Proof.
  refine (parseUuid_formatUuid NIT_NAMESPACE_bytes _ _).
  - reflexivity.
  - unfold is_byte. by_evaluation.
Defined.

Lemma saveAgentId_then_loadAgentId_witness :
  let fs' := snd (saveAgentId example_agent_id ∅) in
  loadAgentId fs' = (Ok example_agent_id, fs').
Proof.
  refine (proj2 (saveAgentId_then_loadAgentId example_agent_id ∅)
            (formatPublicKeyField example_pub) _).
  vm_compute. reflexivity.
Defined.

Lemma buildAuthHeaders_missing_identity_witness :
  fst (buildAuthHeaders example_sign 1709123456789 (lit "GET")
         (lit "/agent-card/branches") None ∅)
  = Err (Error (lit "No agent ID found. Run `nit init` to generate identity."))
  /\ fst (buildAuthHeaders example_sign 1709123456789 (lit "GET")
            (lit "/agent-card/branches") None
            (<[lit "identity/agent-id" := example_agent_id ++ [LF]]> ∅))
     = Err (Error (lit "No identity found. Run `nit init` to generate a keypair."))
  /\ fst (buildAuthHeaders example_sign 1709123456789 (lit "GET")
            (lit "/agent-card/branches") None
            (<[lit "identity/agent.pub" := example_pub ++ [LF]]>
               (<[lit "identity/agent-id" := example_agent_id ++ [LF]]> ∅)))
     = Err (Error (lit
         "Private key not found at .nit/identity/agent.key. Regenerate with `nit init`.")).
Proof.
  split; [|split].
  - refine (proj1 (proj2 (buildAuthHeaders_missing_identity example_sign 1709123456789
              (lit "GET") (lit "/agent-card/branches") None ∅)) _).
    reflexivity.
  - refine (proj1 (proj2 (proj2 (buildAuthHeaders_missing_identity example_sign
              1709123456789 (lit "GET") (lit "/agent-card/branches") None
              (<[lit "identity/agent-id" := example_agent_id ++ [LF]]> ∅)))) _ _).
    + by_evaluation.
    + vm_compute. reflexivity.
  - refine (proj2 (proj2 (proj2 (buildAuthHeaders_missing_identity example_sign
              1709123456789 (lit "GET") (lit "/agent-card/branches") None
              (<[lit "identity/agent.pub" := example_pub ++ [LF]]>
                 (<[lit "identity/agent-id" := example_agent_id ++ [LF]]> ∅))))) _ _ _).
    + by_evaluation.
    + by_evaluation.
    + vm_compute. reflexivity.
Defined.

(** A run, from its result. *)
Lemma run_of_result {A} (m : M A) (fs : files) (r : result A) :
  fst (m fs) = r -> m fs = (r, snd (m fs)).
Proof. intros <-. apply surjective_pairing. Qed.

Lemma log_entries_witness :
  let cs := [{| hash := initial_commit_hash; data := initial_commit |}] in
  let fs' := snd (log None repo_clean) in
  fs' = repo_clean
  /\ Z.of_nat (length cs) <= Z.max 0 (default 50 None)
  /\ Forall (stored_commit repo_clean) cs
  /\ chained cs
  /\ (exists b, fst (getCurrentBranch repo_clean) = Ok b
       /\ (forall c, head cs = Some c ->
           fst (getBranch b repo_clean) = Ok (Some (hash c)))
       /\ (Z.of_nat (length cs) < default 50 None ->
           match last cs with
           | Some c => nonempty (parent c) = false
           | None => exists tip, fst (getBranch b repo_clean) = Ok tip
                                 /\ nonempty tip = false
           end)).
Proof.
  refine (log_entries None repo_clean (snd (log None repo_clean))
            [{| hash := initial_commit_hash; data := initial_commit |}] _).
  apply (run_of_result (log None)). vm_compute. reflexivity.
Defined.

Lemma log_empty_witness :
  log (Some 0) repo_clean = (Ok [], repo_clean)
  /\ log None repo_unborn = (Ok [], repo_unborn).
Proof.
  split.
  - refine (proj1 (proj1 (log_empty (Some 0) repo_clean) (lit "main") _) _).
    + vm_compute. reflexivity.
    + vm_compute. discriminate.
  - refine (proj2 (proj1 (log_empty None repo_unborn) (lit "draft") _) None _ _).
    + vm_compute. reflexivity.
    + vm_compute. reflexivity.
    + reflexivity.
Defined.

Lemma checkout_writes_card_and_HEAD_witness :
  let fs' := snd (checkout example_JSON_parse (lit "faam.io") repo_clean) in
  (exists target targetCard,
      fst (getBranch (lit "faam.io") repo_clean) = Ok (Some target)
      /\ nonempty (Some target) = true
      /\ fst (getCardAtCommit example_JSON_parse target repo_clean) = Ok targetCard
      /\ fs' !! CARD_PATH = Some (JSON_stringify2 targetCard ++ [LF]))
  /\ fs' !! HEAD_PATH
     = Some (toWellFormed (lit "ref: refs/heads/" ++ lit "faam.io" ++ [LF]))
  /\ (forall path, path <> CARD_PATH -> path <> HEAD_PATH ->
      fs' !! path = repo_clean !! path).
Proof.
  refine (proj2 (checkout_writes_card_and_HEAD example_JSON_parse (lit "faam.io")
                   repo_clean
                   (snd (checkout example_JSON_parse (lit "faam.io") repo_clean))
                   (Ok tt) _) _).
  - apply (run_of_result (checkout example_JSON_parse (lit "faam.io"))).
    vm_compute. reflexivity.
  - reflexivity.
Defined.

Lemma checkout_missing_branch_witness :
  snd (checkout example_JSON_parse (lit "nope") repo_clean) = repo_clean
  /\ ((exists e, fst (checkout example_JSON_parse (lit "nope") repo_clean) = Err e
                 /\ includes (lit "uncommitted changes") (exn_message e) = true)
      \/ fst (checkout example_JSON_parse (lit "nope") repo_clean)
         = Err (Error (lit "Branch " ++ [34] ++ lit "nope" ++ [34]
                         ++ lit " does not exist."))).
Proof.
  refine (checkout_missing_branch example_JSON_parse (lit "nope") repo_clean None _ _).
  - vm_compute. reflexivity.
  - reflexivity.
Defined.

Lemma resolveSkillPointers_changes_names_only_witness :
  (forall k, k <> lit "skills" -> get k card_v1_resolved = get k card_v1)
  /\ (exists items items',
        get (lit "skills") card_v1 = Some (JArr items)
        /\ get (lit "skills") card_v1_resolved = Some (JArr items')
        /\ Forall2
             (fun s s' =>
                (forall k, k <> lit "name" -> k <> lit "description" ->
                           get k s' = get k s)
                /\ (s' = s
                    \/ exists id meta,
                         get (lit "id") s = Some (JStr id)
                         /\ skillMap_get id [example_skill] = Some meta
                         /\ get (lit "name") s' = Some (JStr (skill_name meta))
                         /\ get (lit "description") s'
                            = Some (JStr (skill_description meta))))
             items items')
  /\ ([example_skill] = [] -> card_v1_resolved = card_v1)
  /\ resolveSkillPointers [example_skill] card_v1_resolved = Ok card_v1_resolved.
Proof.
  refine (resolveSkillPointers_changes_names_only [example_skill] card_v1
            card_v1_resolved _).
  vm_compute. reflexivity.
Defined.

Lemma diffCards_swap_witness :
  exists d',
    diffCards card_v2 card_v1 = Ok d'
    /\ fields d' = List.map mirror (fields renamed_diff)
    /\ skillsAdded d' = skillsRemoved renamed_diff
    /\ skillsRemoved d' = skillsAdded renamed_diff.
Proof.
  refine (diffCards_swap card_v1 card_v2 renamed_diff _).
  vm_compute. reflexivity.
Defined.

Lemma diffCards_modified_apart_witness :
  ~ In (Some (JStr (lit "x"))) (skillsAdded skills_diff)
  /\ ~ In (Some (JStr (lit "x"))) (skillsRemoved skills_diff).
Proof.
  refine (diffCards_modified_apart skills_card_A skills_card_B skills_diff
            (Some (JStr (lit "x"))) _ _).
  - vm_compute. reflexivity.
  - left. reflexivity.
Defined.

Lemma diffCards_self_witness :
  no_diff = {| changed := false; fields := []; skillsAdded := [];
               skillsRemoved := []; skillsModified := [] |}.
Proof.
  refine (diffCards_self card_v1 no_diff _ _ _).
  - vm_compute. reflexivity.
  - unfold scalarFields. repeat (apply List.Forall_cons; [exact I|]). constructor.
  - intros items H. vm_compute in H. injection H as <-.
    repeat (apply List.Forall_cons; [exact I|]). constructor.
Defined.

Lemma formatDiff_no_changes_witness :
  (formatDiff renamed_diff = lit "No changes." <-> changed renamed_diff = false)
  /\ (changed renamed_diff = true ->
      head (formatDiff renamed_diff) = Some SP
      \/ head (formatDiff renamed_diff) = Some ESC).
Proof.
  refine (formatDiff_no_changes card_v1 card_v2 renamed_diff _).
  vm_compute. reflexivity.
Defined.


Lemma commit_then_log_witness :
  exists entry,
    log (Some 1) repo_committed = (Ok [entry], repo_committed)
    /\ hash entry = renamed_commit_hash
    /\ card entry = card_v2_hash
    /\ parent entry = toWellFormed <$> Some initial_commit_hash.
Proof.
  refine (commit_then_log example_JSON_parse [] (lit "agent")
            1709124000123 1709124000456 (lit "Rename") repo_edited repo_committed
            card_v2 card_v2 {| hash := renamed_commit_hash; data := renamed_commit |}
            _ _ _ _ _ _ _).
  - vm_compute. reflexivity.
  - vm_compute. reflexivity.
  - apply (run_of_result (commit example_JSON_parse [] (lit "agent")
                            1709124000123 1709124000456 (lit "Rename"))).
    vm_compute. reflexivity.
  - vm_compute. reflexivity.
  - intros E. vm_compute in E. discriminate E.
  - unfold free_of. apply (bool_decide_unpack _). vm_compute. exact I.
  - intros p E. injection E as <-. unfold free_of.
    apply (bool_decide_unpack _). vm_compute. exact I.
Defined.

Lemma commit_twice_witness :
  commit example_JSON_parse [] (lit "agent") 1709124099000 1709124099000
    (lit "Again") repo_committed
  = (Err NoChanges, repo_committed).
Proof.
  refine (commit_twice example_JSON_parse [] (lit "agent")
            1709124000123 1709124000456 1709124099000 1709124099000
            (lit "Rename") (lit "Again") repo_edited repo_committed
            card_v2 card_v2 {| hash := renamed_commit_hash; data := renamed_commit |}
            _ _ _ _ _ _ _ _).
  - vm_compute. reflexivity.
  - vm_compute. reflexivity.
  - apply (run_of_result (commit example_JSON_parse [] (lit "agent")
                            1709124000123 1709124000456 (lit "Rename"))).
    vm_compute. reflexivity.
  - vm_compute. reflexivity.
  - vm_compute. reflexivity.
  - intros E. vm_compute in E. discriminate E.
  - unfold free_of. apply (bool_decide_unpack _). vm_compute. exact I.
  - intros p E. injection E as <-. unfold free_of.
    apply (bool_decide_unpack _). vm_compute. exact I.
Defined.

Lemma diff_reads_only_witness :
  snd (diff example_JSON_parse None repo_edited) = repo_edited
  /\ checkout example_JSON_parse (lit "faam.io") repo_edited
     = (Err UncommittedChanges, repo_edited).
Proof.
  split.
  - exact (proj1 (diff_reads_only example_JSON_parse None repo_edited)).
  - refine (proj2 (diff_reads_only example_JSON_parse None repo_edited)
              renamed_diff (lit "faam.io") _ _).
    + vm_compute. reflexivity.
    + reflexivity.
Defined.

Lemma diff_unknown_target_witness :
  (exists e, fst (diff example_JSON_parse (Some (lit "nope")) repo_clean) = Err e)
  /\ (forall headHash headCard,
        fst (resolveHead repo_clean) = Ok headHash ->
        fst (getCardAtCommit example_JSON_parse headHash repo_clean) = Ok headCard ->
        fst (diff example_JSON_parse (Some (lit "nope")) repo_clean)
        = Err (Error (lit "Unknown target " ++ [34] ++ lit "nope" ++ [34]
                        ++ lit ". Provide a branch name or commit hash."))).
Proof.
  refine (diff_unknown_target example_JSON_parse (lit "nope") repo_clean None _ _ _ _).
  - intros E. vm_compute in E. discriminate E.
  - vm_compute. reflexivity.
  - reflexivity.
  - vm_compute. reflexivity.
Defined.
